(** * ESP-P4 album: the media playback orchestrator

    A shallow embedding of the slideshow timer ([slideshow_ctrl.c]), the
    frame extraction adapter ([app_stream_adapter.c]), the video playback
    controller ([video_player.c]) and the album navigator
    ([photo_album.c]), with the properties of the orchestrator stated and
    proved over the embedding.

    Conventions.  Every C function that reads or writes one of the static
    singletons ([s_slideshow], [s_video], the adapter, [s_album]) becomes a
    function from the state to a result and a new state.  The collaborators
    that are outside the firmware's own code (SD card, JPEG engine, MP4
    extractor, FreeRTOS) are answers of an environment record [env].  Time
    is a logical clock in microseconds; an [esp_timer] is a value that is
    either disarmed or armed with its next deadline. *)

From Stdlib Require Import ZArith List Bool String Ascii Lia.
Import ListNotations.
Local Open Scope Z_scope.

(** ** ESP-IDF error codes and timers *)

Inductive esp_err_t :=
| ESP_OK
| ESP_FAIL
| ESP_ERR_NO_MEM
| ESP_ERR_INVALID_ARG
| ESP_ERR_INVALID_STATE
| ESP_ERR_INVALID_SIZE
| ESP_ERR_NOT_FOUND
| ESP_ERR_NOT_SUPPORTED
| ESP_ERR_TIMEOUT.

Definition esp_err_eqb (a b : esp_err_t) : bool :=
  match a, b with
  | ESP_OK, ESP_OK | ESP_FAIL, ESP_FAIL | ESP_ERR_NO_MEM, ESP_ERR_NO_MEM
  | ESP_ERR_INVALID_ARG, ESP_ERR_INVALID_ARG
  | ESP_ERR_INVALID_STATE, ESP_ERR_INVALID_STATE
  | ESP_ERR_INVALID_SIZE, ESP_ERR_INVALID_SIZE
  | ESP_ERR_NOT_FOUND, ESP_ERR_NOT_FOUND
  | ESP_ERR_NOT_SUPPORTED, ESP_ERR_NOT_SUPPORTED
  | ESP_ERR_TIMEOUT, ESP_ERR_TIMEOUT => true
  | _, _ => false
  end.

Definition is_ok (e : esp_err_t) : bool := esp_err_eqb e ESP_OK.

Lemma is_ok_true (e : esp_err_t) : is_ok e = true <-> e = ESP_OK.
Proof. destruct e; simpl; split; intro H; congruence. Qed.

Lemma is_ok_false (e : esp_err_t) : is_ok e = false <-> e <> ESP_OK.
Proof. destruct e; simpl; split; intro H; congruence. Qed.

(** [uint32_t] arithmetic wraps. *)
Definition u32 (z : Z) : Z := z mod 2 ^ 32.

Module Timer.

(** What the firmware can observe of an [esp_timer]: disarmed, armed for
    one expiry, or armed periodically (next expiry, period), all in
    microseconds of the logical clock. *)
Inductive timer_t :=
| Disarmed
| Once (deadline : Z)
| Periodic (next period : Z).

(** A handle is [None] while it is still the NULL of the zeroed static. *)
Definition esp_timer_handle_t := option timer_t.

Definition armed (t : timer_t) : bool :=
  match t with Disarmed => false | _ => true end.

Definition handle_armed (h : esp_timer_handle_t) : bool :=
  match h with Some t => armed t | None => false end.

Definition handle_periodic (h : esp_timer_handle_t) : bool :=
  match h with Some (Periodic _ _) => true | _ => false end.

Definition deadline_of (h : esp_timer_handle_t) : option Z :=
  match h with
  | Some (Once d) => Some d
  | Some (Periodic d _) => Some d
  | _ => None
  end.

(** The shortest period ESP-IDF accepts; shorter requests are raised to it. *)
Definition min_period_us : Z := 50.

(** [esp_timer_start_once]: NULL is an invalid argument, an armed timer is
    an invalid state and stays as it was. *)
Definition esp_timer_start_once (now : Z) (h : esp_timer_handle_t)
           (timeout_us : Z) : esp_err_t * esp_timer_handle_t :=
  match h with
  | None => (ESP_ERR_INVALID_ARG, h)
  | Some Disarmed => (ESP_OK, Some (Once (now + timeout_us)))
  | Some _ => (ESP_ERR_INVALID_STATE, h)
  end.

Definition esp_timer_start_periodic (now : Z) (h : esp_timer_handle_t)
           (period_us : Z) : esp_err_t * esp_timer_handle_t :=
  match h with
  | None => (ESP_ERR_INVALID_ARG, h)
  | Some Disarmed =>
      let p := Z.max period_us min_period_us in
      (ESP_OK, Some (Periodic (now + p) p))
  | Some _ => (ESP_ERR_INVALID_STATE, h)
  end.

Definition esp_timer_stop (h : esp_timer_handle_t)
  : esp_err_t * esp_timer_handle_t :=
  match h with
  | None => (ESP_ERR_INVALID_ARG, h)
  | Some Disarmed => (ESP_ERR_INVALID_STATE, h)
  | Some _ => (ESP_OK, Some Disarmed)
  end.

(** The handle after its expiry has been taken: a one-shot timer is
    disarmed, a periodic one is moved to its next period. *)
Definition after_expiry (h : esp_timer_handle_t) : esp_timer_handle_t :=
  match h with
  | Some (Once _) => Some Disarmed
  | Some (Periodic d p) => Some (Periodic (d + p) p)
  | _ => h
  end.

End Timer.
Import Timer.

(** ** Slideshow timer ([control/slideshow_ctrl.c]) *)

Module Slideshow.

Definition IDLE_TIMEOUT_MS : Z := 3000.

(** The static [s_slideshow].  [next_cb] records whether the callback
    pointer is set; the only function ever registered is the album's
    [slideshow_next_callback]. *)
Record t := mk {
  timer : esp_timer_handle_t;
  idle_timer : esp_timer_handle_t;
  next_cb : bool;
  interval_ms : Z;
  is_running : bool;
  manual_control : bool
}.

(** The zero-initialised static before [slideshow_ctrl_init]. *)
Definition zero : t := mk None None false 0 false false.

Definition set_timer (h : esp_timer_handle_t) (s : t) : t :=
  mk h (idle_timer s) (next_cb s) (interval_ms s) (is_running s) (manual_control s).
Definition set_idle_timer (h : esp_timer_handle_t) (s : t) : t :=
  mk (timer s) h (next_cb s) (interval_ms s) (is_running s) (manual_control s).
Definition set_interval_ms (i : Z) (s : t) : t :=
  mk (timer s) (idle_timer s) (next_cb s) i (is_running s) (manual_control s).
Definition set_is_running (b : bool) (s : t) : t :=
  mk (timer s) (idle_timer s) (next_cb s) (interval_ms s) b (manual_control s).
Definition set_manual_control (b : bool) (s : t) : t :=
  mk (timer s) (idle_timer s) (next_cb s) (interval_ms s) (is_running s) b.

(** [interval_ms * 1000] is computed in [uint32_t]. *)
Definition period_us (interval : Z) : Z := u32 (interval * 1000).

(** [slideshow_ctrl_init] with a non-NULL callback, when both
    [esp_timer_create] calls succeed. *)
Definition slideshow_ctrl_init (interval : Z) (s : t) : esp_err_t * t :=
  (ESP_OK, mk (Some Disarmed) (Some Disarmed) true interval false false).

Definition slideshow_ctrl_start (now : Z) (s : t) : esp_err_t * t :=
  if is_running s then (ESP_OK, s)
  else
    let s := set_manual_control false (set_is_running true s) in
    let '(ret, h) := esp_timer_start_periodic now (timer s) (period_us (interval_ms s)) in
    (ret, set_timer h s).

Definition slideshow_ctrl_stop (s : t) : esp_err_t * t :=
  if negb (is_running s) then (ESP_OK, s)
  else
    let s := set_manual_control false (set_is_running false s) in
    let s := set_timer (snd (esp_timer_stop (timer s))) s in
    let s := set_idle_timer (snd (esp_timer_stop (idle_timer s))) s in
    (ESP_OK, s).

Definition slideshow_ctrl_pause (now : Z) (s : t) : esp_err_t * t :=
  if negb (is_running s) || manual_control s then (ESP_OK, s)
  else
    let s := set_manual_control true s in
    let s := set_timer (snd (esp_timer_stop (timer s))) s in
    let s := set_idle_timer
               (snd (esp_timer_start_once now (idle_timer s) (IDLE_TIMEOUT_MS * 1000))) s in
    (ESP_OK, s).

Definition slideshow_ctrl_resume (now : Z) (s : t) : esp_err_t * t :=
  if negb (is_running s) || negb (manual_control s) then (ESP_OK, s)
  else
    let s := set_manual_control false s in
    let s := set_idle_timer (snd (esp_timer_stop (idle_timer s))) s in
    let '(ret, h) := esp_timer_start_periodic now (timer s) (period_us (interval_ms s)) in
    (ret, set_timer h s).

Definition slideshow_ctrl_set_interval (now : Z) (interval : Z) (s : t)
  : esp_err_t * t :=
  let s := set_interval_ms interval s in
  let s :=
    if is_running s && negb (manual_control s) then
      let s := set_timer (snd (esp_timer_stop (timer s))) s in
      set_timer (snd (esp_timer_start_periodic now (timer s) (period_us interval))) s
    else s in
  (ESP_OK, s).

Definition slideshow_ctrl_manual_trigger (now : Z) (s : t) : esp_err_t * t :=
  if negb (is_running s) then (ESP_ERR_INVALID_STATE, s)
  else
    let s := snd (slideshow_ctrl_pause now s) in
    let s := set_idle_timer (snd (esp_timer_stop (idle_timer s))) s in
    let s := set_idle_timer
               (snd (esp_timer_start_once now (idle_timer s) (IDLE_TIMEOUT_MS * 1000))) s in
    (ESP_OK, s).

Definition slideshow_ctrl_is_running (s : t) : bool := is_running s.

(** The state part of [idle_timer_callback]. *)
Definition idle_timer_callback (now : Z) (s : t) : t :=
  if manual_control s then
    let s := set_manual_control false s in
    if is_running s then
      set_timer (snd (esp_timer_start_periodic now (timer s) (period_us (interval_ms s)))) s
    else s
  else s.

(** The guard of [slideshow_timer_callback]: whether it calls [next_cb]. *)
Definition slideshow_timer_fires (s : t) : bool :=
  next_cb s && is_running s && negb (manual_control s).

(** The number of periodic auto-advance triggers that are armed. *)
Definition periodic_triggers (s : t) : nat :=
  if handle_armed (timer s) then 1%nat else 0%nat.

(** The three states of the slideshow timer, read off the flags and the
    two timers; [None] for a combination the controller never produces. *)
Inductive phase := Stopped | Running | ManuallyPaused.

Definition phase_of (s : t) : option phase :=
  match timer s, idle_timer s, is_running s, manual_control s with
  | Some Disarmed, Some Disarmed, false, false => Some Stopped
  | Some (Periodic _ _), Some Disarmed, true, false => Some Running
  | Some Disarmed, Some (Once _), true, true => Some ManuallyPaused
  | _, _, _, _ => None
  end.

Definition consistent (s : t) : Prop := phase_of s <> None.

End Slideshow.

(** ** The collaborators outside the orchestrator *)

(** The answers of the SD card, the image decoder and processor, the
    presenter, the MP4 extractor and FreeRTOS, as functions of the file they
    are asked about.  The orchestrator never looks inside them. *)
Record env := mk_env {
  (** [BSP_LCD_H_RES], [BSP_LCD_V_RES] *)
  SCREEN_WIDTH : Z;
  SCREEN_HEIGHT : Z;
  (** [file_manager_load_image] on a path *)
  file_manager_load_image : string -> esp_err_t;
  (** [image_decoder_decode]: result and decoded width, height *)
  image_decoder_decode : string -> esp_err_t * (Z * Z);
  (** [process_image_for_display] on the decoded image of a path *)
  process_image_for_display : string -> esp_err_t;
  (** [ui_manager_display_image] *)
  ui_manager_display_image : string -> esp_err_t;
  (** [app_extractor_start] on a path *)
  app_extractor_start : string -> esp_err_t;
  (** [app_extractor_get_video_info]: result and width, height, fps, duration (ms) *)
  app_extractor_get_video_info : string -> esp_err_t * (Z * Z * Z * Z);
  (** [xTaskCreate] returns [pdPASS] *)
  xTaskCreate_ok : bool;
  (** the extraction task sets [EXTRACT_TASK_STOPPED_BIT] within 1000 ms *)
  stop_acknowledged : bool;
  (** [xSemaphoreCreateMutex] returns a mutex *)
  xSemaphoreCreateMutex_ok : bool;
  (** [esp_timer_create] succeeds *)
  esp_timer_create_ok : bool
}.

(** ** Frame extraction pipeline ([media/app_stream_adapter.c]) *)

Module Adapter.

Definition EXTRACT_TASK_START_BIT : Z := Z.shiftl 1 0.
Definition EXTRACT_TASK_STOP_BIT : Z := Z.shiftl 1 1.
Definition EXTRACT_TASK_STOPPED_BIT : Z := Z.shiftl 1 2.
Definition EXTRACT_TASK_PAUSE_BIT : Z := Z.shiftl 1 3.
Definition EXTRACT_TASK_RESUME_BIT : Z := Z.shiftl 1 4.
Definition APP_STREAM_JPEG_BUFFER_SIZE : Z := 512 * 1024.

Definition ALL_BITS : Z :=
  Z.lor EXTRACT_TASK_START_BIT
    (Z.lor EXTRACT_TASK_STOP_BIT
       (Z.lor EXTRACT_TASK_STOPPED_BIT
          (Z.lor EXTRACT_TASK_PAUSE_BIT EXTRACT_TASK_RESUME_BIT))).

(** [app_stream_adapter_t].  Pointers are kept as far as the code tests
    them: a decode buffer is its address (0 is NULL), the task handle and
    the frame mutex are [true] when not NULL.  [event_bits] holds the bits
    the controlling thread has set in [extract_event_group]. *)
Record t := mk {
  frame_cb : bool;
  decode_buffers : list Z;
  buffer_count : Z;
  buffer_size : Z;
  filename : option string;
  running : bool;
  current_buffer : Z;
  frame_count : Z;
  has_info : bool;
  width : Z;
  height : Z;
  fps : Z;
  duration : Z;
  jpeg_buffer_size : Z;
  extract_task_handle : bool;
  event_bits : Z;
  frame_mutex : bool;
  extract_audio : bool;
  audio_dev : bool
}.

Definition set_filename (x : option string) (a : t) : t :=
  mk (frame_cb a) (decode_buffers a) (buffer_count a) (buffer_size a) x
     (running a) (current_buffer a) (frame_count a) (has_info a) (width a)
     (height a) (fps a) (duration a) (jpeg_buffer_size a)
     (extract_task_handle a) (event_bits a) (frame_mutex a)
     (extract_audio a) (audio_dev a).
Definition set_running (x : bool) (a : t) : t :=
  mk (frame_cb a) (decode_buffers a) (buffer_count a) (buffer_size a)
     (filename a) x (current_buffer a) (frame_count a) (has_info a)
     (width a) (height a) (fps a) (duration a) (jpeg_buffer_size a)
     (extract_task_handle a) (event_bits a) (frame_mutex a)
     (extract_audio a) (audio_dev a).
Definition set_current_buffer (x : Z) (a : t) : t :=
  mk (frame_cb a) (decode_buffers a) (buffer_count a) (buffer_size a)
     (filename a) (running a) x (frame_count a) (has_info a) (width a)
     (height a) (fps a) (duration a) (jpeg_buffer_size a)
     (extract_task_handle a) (event_bits a) (frame_mutex a)
     (extract_audio a) (audio_dev a).
Definition set_frame_count (x : Z) (a : t) : t :=
  mk (frame_cb a) (decode_buffers a) (buffer_count a) (buffer_size a)
     (filename a) (running a) (current_buffer a) x (has_info a) (width a)
     (height a) (fps a) (duration a) (jpeg_buffer_size a)
     (extract_task_handle a) (event_bits a) (frame_mutex a)
     (extract_audio a) (audio_dev a).
Definition set_has_info (x : bool) (a : t) : t :=
  mk (frame_cb a) (decode_buffers a) (buffer_count a) (buffer_size a)
     (filename a) (running a) (current_buffer a) (frame_count a) x
     (width a) (height a) (fps a) (duration a) (jpeg_buffer_size a)
     (extract_task_handle a) (event_bits a) (frame_mutex a)
     (extract_audio a) (audio_dev a).
(** width, height, fps and duration are always written together or in
    pairs; one setter covers them. *)
Definition set_info (w h f d : Z) (a : t) : t :=
  mk (frame_cb a) (decode_buffers a) (buffer_count a) (buffer_size a)
     (filename a) (running a) (current_buffer a) (frame_count a)
     (has_info a) w h f d (jpeg_buffer_size a)
     (extract_task_handle a) (event_bits a) (frame_mutex a)
     (extract_audio a) (audio_dev a).
Definition set_extract_task_handle (x : bool) (a : t) : t :=
  mk (frame_cb a) (decode_buffers a) (buffer_count a) (buffer_size a)
     (filename a) (running a) (current_buffer a) (frame_count a)
     (has_info a) (width a) (height a) (fps a) (duration a)
     (jpeg_buffer_size a) x (event_bits a) (frame_mutex a)
     (extract_audio a) (audio_dev a).
Definition set_event_bits (x : Z) (a : t) : t :=
  mk (frame_cb a) (decode_buffers a) (buffer_count a) (buffer_size a)
     (filename a) (running a) (current_buffer a) (frame_count a)
     (has_info a) (width a) (height a) (fps a) (duration a)
     (jpeg_buffer_size a) (extract_task_handle a) x (frame_mutex a)
     (extract_audio a) (audio_dev a).
Definition set_frame_mutex (x : bool) (a : t) : t :=
  mk (frame_cb a) (decode_buffers a) (buffer_count a) (buffer_size a)
     (filename a) (running a) (current_buffer a) (frame_count a)
     (has_info a) (width a) (height a) (fps a) (duration a)
     (jpeg_buffer_size a) (extract_task_handle a) (event_bits a) x
     (extract_audio a) (audio_dev a).
Definition set_extract_audio (x : bool) (a : t) : t :=
  mk (frame_cb a) (decode_buffers a) (buffer_count a) (buffer_size a)
     (filename a) (running a) (current_buffer a) (frame_count a)
     (has_info a) (width a) (height a) (fps a) (duration a)
     (jpeg_buffer_size a) (extract_task_handle a) (event_bits a)
     (frame_mutex a) x (audio_dev a).

Definition xEventGroupSetBits (bits : Z) (a : t) : t :=
  set_event_bits (Z.lor (event_bits a) bits) a.
Definition xEventGroupClearBits (bits : Z) (a : t) : t :=
  set_event_bits (Z.ldiff (event_bits a) bits) a.

Section WithEnv.
Variable E : env.

(** [stop_extract_task].  On a missed acknowledgement the frame mutex is
    deleted and created again (the new one may be NULL) and the task is
    deleted by force; either way the handle ends NULL. *)
Definition stop_extract_task (a : t) : t :=
  if negb (extract_task_handle a) then a
  else
    let a := xEventGroupSetBits EXTRACT_TASK_STOP_BIT a in
    let a :=
      if stop_acknowledged E then set_extract_task_handle false a
      else
        let a := if frame_mutex a
                 then set_frame_mutex (xSemaphoreCreateMutex_ok E) a
                 else a in
        set_extract_task_handle false a in
    xEventGroupClearBits ALL_BITS a.

Definition start_extract_task (a : t) : esp_err_t * t :=
  let a := if extract_task_handle a then stop_extract_task a else a in
  if negb (frame_mutex a) then (ESP_ERR_INVALID_STATE, a)
  else
    let a := xEventGroupClearBits ALL_BITS a in
    if negb (xTaskCreate_ok E) then (ESP_FAIL, a)
    else
      let a := set_extract_task_handle true a in
      (ESP_OK, xEventGroupSetBits EXTRACT_TASK_START_BIT a).

(** [app_stream_adapter_stop] on a non-NULL handle. *)
Definition app_stream_adapter_stop (a : t) : esp_err_t * t :=
  if negb (running a) then (ESP_OK, a)
  else (ESP_OK, set_running false (stop_extract_task a)).

(** [app_stream_adapter_set_file] on a non-NULL handle and filename. *)
Definition app_stream_adapter_set_file (name : string) (audio : bool)
           (a : t) : esp_err_t * t :=
  let a := if running a then snd (app_stream_adapter_stop a) else a in
  let a := set_filename (Some name) a in
  let a := set_frame_count 0 a in
  let a := set_has_info false a in
  let a := set_info 0 0 0 0 a in
  let a := set_current_buffer (u32 (buffer_count a - 1)) a in
  let a := set_extract_audio (audio && audio_dev a) a in
  (ESP_OK, a).

(** [app_stream_adapter_start] on a non-NULL handle. *)
Definition app_stream_adapter_start (a : t) : esp_err_t * t :=
  if running a then (ESP_OK, a)
  else
    match filename a with
    | None => (ESP_ERR_INVALID_STATE, a)
    | Some name =>
        let a := set_frame_count 0 a in
        let a := set_has_info false a in
        let a := set_current_buffer (u32 (buffer_count a - 1)) a in
        let ret := app_extractor_start E name in
        if negb (is_ok ret) then (ret, a)
        else
          let '(iret, (w, h, f, d)) := app_extractor_get_video_info E name in
          let a := if is_ok iret
                   then set_has_info true (set_info w h f d a)
                   else a in
          let '(ret, a) := start_extract_task a in
          if negb (is_ok ret) then (ret, a)
          else (ESP_OK, set_running true a)
    end.

Definition app_stream_adapter_pause (a : t) : esp_err_t * t :=
  if negb (running a) then (ESP_ERR_INVALID_STATE, a)
  else (ESP_OK, xEventGroupSetBits EXTRACT_TASK_PAUSE_BIT a).

Definition app_stream_adapter_resume (a : t) : esp_err_t * t :=
  if negb (running a) then (ESP_ERR_INVALID_STATE, a)
  else (ESP_OK, xEventGroupSetBits EXTRACT_TASK_RESUME_BIT a).

(** [app_stream_adapter_get_info] asked for the duration only. *)
Definition app_stream_adapter_get_info (a : t) : esp_err_t * Z :=
  if negb (has_info a) then (ESP_ERR_NOT_FOUND, 0)
  else (ESP_OK, duration a).

End WithEnv.

(** What the JPEG engine and the frame lock answer for one compressed
    frame handed over by the extractor. *)
Record frame := mk_frame {
  is_video : bool;
  frame_size : Z;
  (** [jpeg_decoder_get_info]: result, width, height *)
  jpeg_info : esp_err_t * (Z * Z);
  (** [jpeg_decoder_process]: result and decoded size *)
  jpeg_process : esp_err_t * Z;
  (** [xSemaphoreTake(frame_mutex, 100 ms)] returned [pdTRUE] *)
  mutex_taken : bool
}.

(** The arguments [frame_cb] is called with. *)
Record delivery := mk_delivery {
  d_slot : Z;            (** index into [decode_buffers] *)
  d_buffer : Z;          (** the buffer address *)
  d_size : Z;
  d_width : Z;
  d_height : Z;
  d_frame_index : Z
}.

(** [decode_jpeg_frame]: result, adapter, and width, height, decoded size. *)
Definition decode_jpeg_frame (f : frame) (a : t) : esp_err_t * t * (Z * Z * Z) :=
  let '(iret, (w, h)) := jpeg_info f in
  if negb (is_ok iret) then (iret, a, (0, 0, 0))
  else
    let a := set_current_buffer
               (u32 (current_buffer a + 1) mod buffer_count a) a in
    let current_decode_buffer := nth (Z.to_nat (current_buffer a)) (decode_buffers a) 0 in
    if current_decode_buffer =? 0 then (ESP_ERR_INVALID_ARG, a, (w, h, 0))
    else
      let '(pret, size) := jpeg_process f in
      if negb (is_ok pret) then (pret, a, (w, h, 0))
      else (ESP_OK, a, (w, h, size)).

(** [extractor_frame_callback] up to the call of [frame_cb]: the result so
    far, the adapter, and the delivery when [frame_cb] is called. *)
Definition extractor_frame_callback (f : frame) (a : t)
  : esp_err_t * t * option delivery :=
  if negb (is_video f) then (ESP_OK, a, None)
  else if jpeg_buffer_size a <? frame_size f then (ESP_ERR_NO_MEM, a, None)
  else if negb (mutex_taken f) then (ESP_ERR_TIMEOUT, a, None)
  else
    let '(ret, a, (w, h, size)) := decode_jpeg_frame f a in
    if negb (is_ok ret) then (ret, a, None)
    else
      let a := if has_info a then a
               else set_has_info true (set_info w h (fps a) (duration a) a) in
      let a := set_frame_count (u32 (frame_count a + 1)) a in
      if frame_cb a then
        let slot := current_buffer a in
        (ESP_OK, a,
         Some (mk_delivery slot (nth (Z.to_nat slot) (decode_buffers a) 0)
                 size w h (u32 (frame_count a - 1))))
      else (ESP_OK, a, None).

(** [app_stream_adapter_init], when every allocation and the extractor's
    initialisation succeed. *)
Definition app_stream_adapter_init (cb : bool) (buffers : list Z)
           (count size : Z) (audio : bool) : t :=
  mk cb buffers count size None false (u32 (count - 1)) 0 false 0 0 0 0
     APP_STREAM_JPEG_BUFFER_SIZE false 0 true audio audio.

End Adapter.

(** ** Media files ([storage/file_manager.c], [core/photo_album.h]) *)

Inductive media_type_t := MEDIA_TYPE_UNKNOWN | MEDIA_TYPE_IMAGE | MEDIA_TYPE_VIDEO.

Definition media_type_eqb (a b : media_type_t) : bool :=
  match a, b with
  | MEDIA_TYPE_UNKNOWN, MEDIA_TYPE_UNKNOWN
  | MEDIA_TYPE_IMAGE, MEDIA_TYPE_IMAGE
  | MEDIA_TYPE_VIDEO, MEDIA_TYPE_VIDEO => true
  | _, _ => false
  end.

(** [strrchr(s, '.')]: the suffix of [s] that starts at its last dot. *)
Fixpoint strrchr_dot (s : string) : option string :=
  match s with
  | EmptyString => None
  | String c rest =>
      match strrchr_dot rest with
      | Some t => Some t
      | None => if Ascii.eqb c "."%char then Some s else None
      end
  end.

Definition tolower (c : ascii) : ascii :=
  let n := nat_of_ascii c in
  if (Nat.leb 65 n && Nat.leb n 90)%bool then ascii_of_nat (n + 32) else c.

(** [strcasecmp(a, b) == 0] *)
Fixpoint strcasecmp_eq (a b : string) : bool :=
  match a, b with
  | EmptyString, EmptyString => true
  | String x a', String y b' => Ascii.eqb (tolower x) (tolower y) && strcasecmp_eq a' b'
  | _, _ => false
  end.

Definition file_manager_get_media_type (name : string) : media_type_t :=
  match strrchr_dot name with
  | None => MEDIA_TYPE_UNKNOWN
  | Some ext =>
      if strcasecmp_eq ext ".mp4" || strcasecmp_eq ext ".avi" then MEDIA_TYPE_VIDEO
      else if strcasecmp_eq ext ".jpg" || strcasecmp_eq ext ".jpeg"
              || strcasecmp_eq ext ".png" then MEDIA_TYPE_IMAGE
      else MEDIA_TYPE_UNKNOWN
  end.

(** [image_file_info_t], with the fields the navigator reads. *)
Record image_file_info_t := mk_info {
  filename : string;
  full_path : string;
  file_size : Z
}.

Definition no_file : image_file_info_t := mk_info "" "" 0.

(** [photo_collection_t].  [total_count] counts the entries of [files]
    that are in use; the scan never stores more than [MAX_FILES_COUNT]. *)
Record photo_collection_t := mk_collection {
  files : list image_file_info_t;
  current_index : Z
}.

Definition MAX_FILES_COUNT : Z := 1000.

Definition total_count (c : photo_collection_t) : Z := Z.of_nat (List.length (files c)).

Definition file_at (c : photo_collection_t) (i : Z) : image_file_info_t :=
  nth (Z.to_nat i) (files c) no_file.

(** What [file_manager_scan_images] finds. *)
Inductive scan_answer :=
| NotMounted
| Scanned (ret : esp_err_t) (found : list image_file_info_t).

Definition file_manager_scan_images (ans : scan_answer) (c : photo_collection_t)
  : esp_err_t * photo_collection_t :=
  match ans with
  | NotMounted => (ESP_ERR_INVALID_STATE, c)
  | Scanned ret found => (ret, mk_collection found (current_index c))
  end.

(** ** The singletons of the orchestrator *)

Inductive video_state_t :=
| VIDEO_STATE_STOPPED
| VIDEO_STATE_PLAYING
| VIDEO_STATE_PAUSED
| VIDEO_STATE_ERROR.

Definition video_state_eqb (a b : video_state_t) : bool :=
  match a, b with
  | VIDEO_STATE_STOPPED, VIDEO_STATE_STOPPED
  | VIDEO_STATE_PLAYING, VIDEO_STATE_PLAYING
  | VIDEO_STATE_PAUSED, VIDEO_STATE_PAUSED
  | VIDEO_STATE_ERROR, VIDEO_STATE_ERROR => true
  | _, _ => false
  end.

Inductive ui_mode_t := UI_MODE_IMAGE | UI_MODE_VIDEO.

Inductive pause_reason_t := PAUSE_REASON_NONE | PAUSE_REASON_USER | PAUSE_REASON_USB.

Definition pause_reason_eqb (a b : pause_reason_t) : bool :=
  match a, b with
  | PAUSE_REASON_NONE, PAUSE_REASON_NONE
  | PAUSE_REASON_USER, PAUSE_REASON_USER
  | PAUSE_REASON_USB, PAUSE_REASON_USB => true
  | _, _ => false
  end.

(** The calls the orchestrator makes to the presenter and to its own
    loaders, newest first.  The trace is an observation of the run, not a
    variable of the firmware. *)
Inductive call :=
| ShowLoading
| HideLoading
| SwitchMode (m : ui_mode_t)
| UpdateProgress (index total : Z)
| ShowSettings (interval : Z)
| HideSettings
| ShowVolume (v : Z)
| DisplayImage (path : string)
| DisplayVideoFrame (slot : Z) (frame_index : Z)
| LoadImage (index : Z)          (** [load_and_display_image(index)] *)
| VideoPlay (path : string)      (** [video_player_play(path)] *)
| VideoSwitch (path : option string). (** [video_player_switch_file(path)] *)

Definition is_load_attempt (c : call) : bool :=
  match c with
  | LoadImage _ | VideoPlay _ | VideoSwitch _ => true
  | _ => false
  end.

Definition is_mode_switch (c : call) : bool :=
  match c with SwitchMode _ => true | _ => false end.

Module Video.
(** The static [s_video]. *)
Record t := mk {
  adapter : option Adapter.t;
  state : video_state_t;
  width : Z;
  height : Z;
  playback_finished : bool;
  audio_dev : bool;
  current_volume : Z;
  current_file : string;
  has_error : bool;
  finish_timer : esp_timer_handle_t
}.

Definition zero : t :=
  mk None VIDEO_STATE_STOPPED 0 0 false false 0 "" false None.

Definition set_adapter (x : option Adapter.t) (v : t) : t :=
  mk x (state v) (width v) (height v) (playback_finished v) (audio_dev v)
     (current_volume v) (current_file v) (has_error v) (finish_timer v).
Definition set_state (x : video_state_t) (v : t) : t :=
  mk (adapter v) x (width v) (height v) (playback_finished v) (audio_dev v)
     (current_volume v) (current_file v) (has_error v) (finish_timer v).
Definition set_size (w h : Z) (v : t) : t :=
  mk (adapter v) (state v) w h (playback_finished v) (audio_dev v)
     (current_volume v) (current_file v) (has_error v) (finish_timer v).
Definition set_playback_finished (x : bool) (v : t) : t :=
  mk (adapter v) (state v) (width v) (height v) x (audio_dev v)
     (current_volume v) (current_file v) (has_error v) (finish_timer v).
Definition set_current_volume (x : Z) (v : t) : t :=
  mk (adapter v) (state v) (width v) (height v) (playback_finished v)
     (audio_dev v) x (current_file v) (has_error v) (finish_timer v).
Definition set_current_file (x : string) (v : t) : t :=
  mk (adapter v) (state v) (width v) (height v) (playback_finished v)
     (audio_dev v) (current_volume v) x (has_error v) (finish_timer v).
Definition set_has_error (x : bool) (v : t) : t :=
  mk (adapter v) (state v) (width v) (height v) (playback_finished v)
     (audio_dev v) (current_volume v) (current_file v) x (finish_timer v).
Definition set_finish_timer (x : esp_timer_handle_t) (v : t) : t :=
  mk (adapter v) (state v) (width v) (height v) (playback_finished v)
     (audio_dev v) (current_volume v) (current_file v) (has_error v) x.
End Video.

Module Album.
(** The static [s_album] and [s_pause_reason]. *)
Record t := mk {
  collection : option photo_collection_t;
  interval_ms : Z;
  initialized : bool;
  pause_reason : pause_reason_t
}.

Definition zero : t := mk None 0 false PAUSE_REASON_NONE.

Definition set_collection (x : option photo_collection_t) (a : t) : t :=
  mk x (interval_ms a) (initialized a) (pause_reason a).
Definition set_interval_ms (x : Z) (a : t) : t :=
  mk (collection a) x (initialized a) (pause_reason a).
Definition set_initialized (x : bool) (a : t) : t :=
  mk (collection a) (interval_ms a) x (pause_reason a).
Definition set_pause_reason (x : pause_reason_t) (a : t) : t :=
  mk (collection a) (interval_ms a) (initialized a) x.
End Album.

(** The whole state: the three singletons and the adapter inside
    [s_video], the interval selected in the settings panel, the clock and
    the trace. *)
Record world := mk_world {
  sl : Slideshow.t;
  vid : Video.t;
  alb : Album.t;
  selected_interval : Z;
  now : Z;
  trace : list call
}.

Definition set_sl (x : Slideshow.t) (w : world) : world :=
  mk_world x (vid w) (alb w) (selected_interval w) (now w) (trace w).
Definition set_vid (x : Video.t) (w : world) : world :=
  mk_world (sl w) x (alb w) (selected_interval w) (now w) (trace w).
Definition set_alb (x : Album.t) (w : world) : world :=
  mk_world (sl w) (vid w) x (selected_interval w) (now w) (trace w).
Definition set_now (x : Z) (w : world) : world :=
  mk_world (sl w) (vid w) (alb w) (selected_interval w) x (trace w).
Definition emit (c : call) (w : world) : world :=
  mk_world (sl w) (vid w) (alb w) (selected_interval w) (now w) (c :: trace w).

(** Run a slideshow operation on the world. *)
Definition on_sl (f : Slideshow.t -> esp_err_t * Slideshow.t) (w : world)
  : esp_err_t * world :=
  let '(ret, s) := f (sl w) in (ret, set_sl s w).

Definition load_attempts (w : world) : nat :=
  List.length (filter is_load_attempt (trace w)).

Definition mode_switches (w : world) : nat :=
  List.length (filter is_mode_switch (trace w)).

(** ** Video playback controller ([media/video_player.c]) *)

Section Orchestrator.

Variable E : env.

Definition DEFAULT_AUDIO_VOLUME : Z := 50.
Definition VOLUME_ADJUSTMENT_STEP : Z := 10.
Definition MIN_AUDIO_VOLUME : Z := 0.
Definition MAX_AUDIO_VOLUME : Z := 100.
Definition DEFAULT_SLIDESHOW_MS : Z := 5000.

(** [strncpy(s_video.current_file, mp4_file, 255)] and the closing NUL. *)
Definition store_path (path : string) : string := substring 0 255 path.

(** [((uint64_t)duration_ms + 500) * 1000ULL] *)
Definition finish_timeout_us (duration_ms : Z) : Z := (duration_ms + 500) * 1000.

(** The lazy [esp_timer_create] of the completion timer. *)
Definition create_finish_timer (v : Video.t) : Video.t :=
  match Video.finish_timer v with
  | None => if esp_timer_create_ok E
            then Video.set_finish_timer (Some Disarmed) v else v
  | Some _ => v
  end.

(** The controller's functions work on [s_video]; beside their result
    and the new [s_video] they give the calls they made, newest first. *)
Definition video_result : Type := esp_err_t * (Video.t * list call).

(** [video_player_init], given the addresses the two buffer allocations
    return (0 is NULL), when [app_stream_adapter_init] succeeds. *)
Definition video_player_init (audio : bool) (buffer_a buffer_b : Z)
           (v : Video.t) : video_result :=
  match Video.adapter v with
  | Some _ => (ESP_OK, (v, []))
  | None =>
      let v := Video.mk None (Video.state v) (Video.width v) (Video.height v)
                 (Video.playback_finished v) audio DEFAULT_AUDIO_VOLUME ""
                 false (Video.finish_timer v) in
      if (buffer_a =? 0) || (buffer_b =? 0) then (ESP_ERR_NO_MEM, (v, []))
      else
        let a := Adapter.app_stream_adapter_init true [buffer_a; buffer_b] 2
                   (1920 * 1080 * 2) audio in
        (ESP_OK, (Video.set_state VIDEO_STATE_STOPPED
                    (Video.set_adapter (Some a) v), []))
  end.

Definition video_error (v : Video.t) : Video.t :=
  Video.set_state VIDEO_STATE_ERROR (Video.set_has_error true v).

(** The arming of the completion timer in [video_player_play]: created on
    first use, stopped, started for the duration plus the margin. *)
Definition arm_finish_timer_play (now : Z) (duration_ms : Z) (v : Video.t) : Video.t :=
  let v := create_finish_timer v in
  match Video.finish_timer v with
  | Some _ =>
      let v := Video.set_finish_timer (snd (esp_timer_stop (Video.finish_timer v))) v in
      Video.set_finish_timer
        (snd (esp_timer_start_once now (Video.finish_timer v)
                (finish_timeout_us duration_ms))) v
  | None => v
  end.

(** The same in [video_player_switch_file], which has stopped the timer
    before and does not stop it again here. *)
Definition arm_finish_timer_switch (now : Z) (duration_ms : Z) (v : Video.t) : Video.t :=
  let v := create_finish_timer v in
  match Video.finish_timer v with
  | Some _ =>
      Video.set_finish_timer
        (snd (esp_timer_start_once now (Video.finish_timer v)
                (finish_timeout_us duration_ms))) v
  | None => v
  end.

(** [esp_timer_stop(s_video.finish_timer)] under [if (s_video.finish_timer)]. *)
Definition cancel_finish_timer (v : Video.t) : Video.t :=
  match Video.finish_timer v with
  | Some _ => Video.set_finish_timer (snd (esp_timer_stop (Video.finish_timer v))) v
  | None => v
  end.

Definition video_player_play (now : Z) (mp4_file : string) (v : Video.t)
  : video_result :=
  let calls := [VideoPlay mp4_file] in
  match Video.adapter v with
  | None => (ESP_ERR_INVALID_STATE, (v, calls))
  | Some a =>
      let v := Video.set_current_file (store_path mp4_file) v in
      let v := Video.set_has_error false v in
      let extract_audio := Video.audio_dev v in
      let '(ret, a) := Adapter.app_stream_adapter_set_file E mp4_file extract_audio a in
      let v := Video.set_adapter (Some a) v in
      if negb (is_ok ret) then (ret, (video_error v, calls))
      else
        let '(ret, a) := Adapter.app_stream_adapter_start E a in
        let v := Video.set_adapter (Some a) v in
        if is_ok ret then
          let v := Video.set_state VIDEO_STATE_PLAYING v in
          let v := Video.set_playback_finished false v in
          let calls := SwitchMode UI_MODE_VIDEO :: calls in
          let '(iret, duration_ms) := Adapter.app_stream_adapter_get_info a in
          let v := if is_ok iret && (0 <? duration_ms)
                   then arm_finish_timer_play now duration_ms v else v in
          (ret, (v, calls))
        else (ret, (video_error v, calls))
  end.

Definition video_player_pause (v : Video.t) : video_result :=
  match Video.state v, Video.adapter v with
  | VIDEO_STATE_PLAYING, Some a =>
      let '(ret, a) := Adapter.app_stream_adapter_pause a in
      let v := Video.set_adapter (Some a) v in
      if is_ok ret then (ret, (Video.set_state VIDEO_STATE_PAUSED v, []))
      else (ret, (video_error v, []))
  | VIDEO_STATE_PLAYING, None =>
      (** [app_stream_adapter_pause(NULL)] *)
      (ESP_ERR_INVALID_ARG, (video_error v, []))
  | _, _ => (ESP_OK, (v, []))
  end.

Definition video_player_resume (v : Video.t) : video_result :=
  match Video.state v, Video.adapter v with
  | VIDEO_STATE_PAUSED, Some a =>
      let '(ret, a) := Adapter.app_stream_adapter_resume a in
      let v := Video.set_adapter (Some a) v in
      if is_ok ret then (ret, (Video.set_state VIDEO_STATE_PLAYING v, []))
      else (ret, (video_error v, []))
  | VIDEO_STATE_PAUSED, None =>
      (ESP_ERR_INVALID_ARG, (video_error v, []))
  | _, _ => (ESP_OK, (v, []))
  end.

Definition video_player_stop (v : Video.t) : video_result :=
  match Video.adapter v with
  | Some a =>
      if negb (video_state_eqb (Video.state v) VIDEO_STATE_STOPPED) then
        let v := Video.set_state VIDEO_STATE_STOPPED v in
        let v := Video.set_playback_finished true v in
        let v := Video.set_has_error false v in
        let '(_, a) := Adapter.app_stream_adapter_stop E a in
        let v := Video.set_adapter (Some a) v in
        (ESP_OK, (cancel_finish_timer v, []))
      else (ESP_OK, (v, []))
  | None => (ESP_OK, (v, []))
  end.

Definition video_player_has_error (v : Video.t) : bool :=
  Video.has_error v || video_state_eqb (Video.state v) VIDEO_STATE_ERROR.

Definition video_player_restart_current (now : Z) (v : Video.t) : video_result :=
  if (String.length (Video.current_file v) =? 0)%nat
  then (ESP_ERR_INVALID_STATE, (v, []))
  else
    let '(_, (v, calls1)) := video_player_stop v in
    let '(ret, (v, calls2)) := video_player_play now (Video.current_file v) v in
    (ret, (v, calls2 ++ calls1)).

Definition video_player_set_volume (volume : Z) (v : Video.t) : Video.t :=
  let volume := if volume <? MIN_AUDIO_VOLUME then MIN_AUDIO_VOLUME else volume in
  let volume := if MAX_AUDIO_VOLUME <? volume then MAX_AUDIO_VOLUME else volume in
  Video.set_current_volume volume v.

(** [video_player_switch_file]; [None] is a NULL path. *)
Definition video_player_switch_file (now : Z) (mp4_file : option string)
           (v : Video.t) : video_result :=
  let calls := [VideoSwitch mp4_file] in
  match Video.adapter v with
  | None => (ESP_ERR_INVALID_STATE, (v, calls))
  | Some a =>
      match mp4_file with
      | None => (ESP_ERR_INVALID_ARG, (v, calls))
      | Some path =>
          let v := Video.set_current_file (store_path path) v in
          let v := cancel_finish_timer v in
          let a := if negb (video_state_eqb (Video.state v) VIDEO_STATE_STOPPED)
                   then snd (Adapter.app_stream_adapter_stop E a) else a in
          let v := Video.set_has_error false v in
          let v := Video.set_playback_finished false v in
          let extract_audio := Video.audio_dev v in
          let '(ret, a) := Adapter.app_stream_adapter_set_file E path extract_audio a in
          let v := Video.set_adapter (Some a) v in
          if negb (is_ok ret) then (ret, (video_error v, calls))
          else
            let '(ret, a) := Adapter.app_stream_adapter_start E a in
            let v := Video.set_adapter (Some a) v in
            if is_ok ret then
              let v := Video.set_state VIDEO_STATE_PLAYING v in
              let '(iret, duration_ms) := Adapter.app_stream_adapter_get_info a in
              let v := if is_ok iret && (0 <? duration_ms)
                       then arm_finish_timer_switch now duration_ms v else v in
              (ret, (v, calls))
            else (ret, (video_error v, calls))
      end
  end.

(** [video_frame_callback] behind [extractor_frame_callback]: one
    compressed frame arrives from the extractor; [display] is what
    [ui_manager_display_video_frame] returns. *)
Definition extractor_frame_callback (f : Adapter.frame) (display : esp_err_t)
           (v : Video.t) : video_result :=
  match Video.adapter v with
  | None => (ESP_ERR_INVALID_STATE, (v, []))
  | Some a =>
      let '(ret, a, d) := Adapter.extractor_frame_callback f a in
      let v := Video.set_adapter (Some a) v in
      match d with
      | None => (ret, (v, []))
      | Some d =>
          let v := Video.set_size (Adapter.d_width d) (Adapter.d_height d) v in
          let v := Video.set_has_error false v in
          (display, (v, [DisplayVideoFrame (Adapter.d_slot d)
                           (Adapter.d_frame_index d)]))
      end
  end.

(** Run a function of the video controller on the world. *)
Definition on_vid (f : Video.t -> video_result) (w : world) : esp_err_t * world :=
  let '(ret, (v, calls)) := f (vid w) in
  (ret, mk_world (sl w) v (alb w) (selected_interval w) (now w)
          (calls ++ trace w)).

Definition video_player_get_state (w : world) : video_state_t :=
  Video.state (vid w).

Definition video_player_get_volume (w : world) : Z :=
  Video.current_volume (vid w).

(** ** Album navigator ([core/photo_album.c]) *)

(** [s_album.collection] where the code dereferences it without a test;
    every such place is behind a guard that has seen it non-NULL. *)
Definition the_collection (w : world) : photo_collection_t :=
  match Album.collection (alb w) with
  | Some c => c
  | None => mk_collection [] 0
  end.

Definition set_current_index (i : Z) (w : world) : world :=
  set_alb (Album.set_collection
             (Some (mk_collection (files (the_collection w)) i)) (alb w)) w.

Definition validate_file_for_decoding (info : image_file_info_t) : bool :=
  if 10 * 1024 * 1024 <? file_size info then false
  else if file_size info <? 100 then false
  else true.

Definition image_needs_processing (width height : Z) : bool :=
  (SCREEN_WIDTH E <? width) || (SCREEN_HEIGHT E <? height).

Definition load_and_display_image (index : Z) (w : world) : esp_err_t * world :=
  let w := emit (LoadImage index) w in
  match Album.collection (alb w) with
  | None => (ESP_ERR_INVALID_ARG, w)
  | Some c =>
      if (index <? 0) || (total_count c <=? index) then (ESP_ERR_INVALID_ARG, w)
      else
        let file_info := file_at c index in
        if negb (validate_file_for_decoding file_info) then (ESP_ERR_INVALID_ARG, w)
        else
          let w := emit ShowLoading w in
          let cleanup (ret : esp_err_t) (w : world) := (ret, emit HideLoading w) in
          let path := full_path file_info in
          let ret := file_manager_load_image E path in
          if negb (is_ok ret) then cleanup ret w
          else
            let '(ret, (width, height)) := image_decoder_decode E path in
            if negb (is_ok ret) then cleanup ret w
            else
              let ret := if image_needs_processing width height
                         then process_image_for_display E path else ESP_OK in
              if negb (is_ok ret) then cleanup ret w
              else
                let w := emit (DisplayImage path) w in
                let ret := ui_manager_display_image E path in
                if negb (is_ok ret) then cleanup ret w
                else
                  let w :=
                    if negb (Slideshow.slideshow_ctrl_is_running (sl w))
                       && pause_reason_eqb (Album.pause_reason (alb w)) PAUSE_REASON_NONE
                    then snd (on_sl (Slideshow.slideshow_ctrl_start (now w)) w)
                    else w in
                  let w := set_current_index index w in
                  let w := emit (UpdateProgress index (total_count c)) w in
                  cleanup ret w
  end.

Definition is_playing_or_paused (s : video_state_t) : bool :=
  video_state_eqb s VIDEO_STATE_PLAYING || video_state_eqb s VIDEO_STATE_PAUSED.

(** The [while (retry_count < max_retries)] loop of
    [load_and_display_media]; [remaining] is [max_retries - retry_count]. *)
Fixpoint media_retry_loop (remaining : nat) (is_currently_playing_video : bool)
         (current : Z) (w : world) : esp_err_t * world :=
  match remaining with
  | O => (ESP_ERR_NOT_FOUND, w)
  | S remaining =>
      let info := file_at (the_collection w) current in
      match file_manager_get_media_type (full_path info) with
      | MEDIA_TYPE_VIDEO =>
          let '(ret, w) :=
            if is_currently_playing_video then
              on_vid (video_player_switch_file (now w) (Some (full_path info))) w
            else
              let w := emit ShowLoading w in
              let w := emit (SwitchMode UI_MODE_VIDEO) w in
              let w := snd (on_sl Slideshow.slideshow_ctrl_stop w) in
              let '(ret, w) := on_vid (video_player_play (now w) (full_path info)) w in
              (ret, emit HideLoading w) in
          if is_ok ret then
            let w := set_current_index current w in
            (ret, emit (UpdateProgress current (total_count (the_collection w))) w)
          else
            let w := if negb is_currently_playing_video
                     then emit (SwitchMode UI_MODE_IMAGE) w else w in
            media_retry_loop remaining is_currently_playing_video
              (Z.rem (current + 1) (total_count (the_collection w))) w
      | MEDIA_TYPE_IMAGE =>
          let w := emit (SwitchMode UI_MODE_IMAGE) w in
          let '(ret, w) := load_and_display_image current w in
          if is_ok ret then (ESP_OK, w)
          else
            media_retry_loop remaining is_currently_playing_video
              (Z.rem (current + 1) (total_count (the_collection w))) w
      | MEDIA_TYPE_UNKNOWN =>
          media_retry_loop remaining is_currently_playing_video
            (Z.rem (current + 1) (total_count (the_collection w))) w
      end
  end.

Definition load_and_display_media (index : Z) (w : world) : esp_err_t * world :=
  match Album.collection (alb w) with
  | None => (ESP_ERR_INVALID_ARG, w)
  | Some c =>
      if (index <? 0) || (total_count c <=? index) then (ESP_ERR_INVALID_ARG, w)
      else
        let max_retries := total_count c in
        let is_currently_playing_video :=
          is_playing_or_paused (video_player_get_state w) in
        media_retry_loop (Z.to_nat max_retries) is_currently_playing_video index w
  end.

(** The guard shared by [photo_album_next] and [photo_album_prev]. *)
Definition can_navigate (w : world) : bool :=
  Album.initialized (alb w)
  && match Album.collection (alb w) with
     | Some c => negb (total_count c =? 0)
     | None => false
     end.

(** Leaving a playing or paused video before navigating. *)
Definition stop_video_before_switch (w : world) : world :=
  if is_playing_or_paused (video_player_get_state w) then
    let w := emit ShowLoading w in
    let w := emit (SwitchMode UI_MODE_IMAGE) w in
    snd (on_vid video_player_stop w)
  else w.

Definition photo_album_next (w : world) : esp_err_t * world :=
  if negb (can_navigate w) then (ESP_ERR_INVALID_STATE, w)
  else
    let w := stop_video_before_switch w in
    let c := the_collection w in
    let next_index := Z.rem (current_index c + 1) (total_count c) in
    load_and_display_media next_index w.

(** The retry loop of [photo_album_prev]. *)
Fixpoint prev_retry_loop (remaining : nat) (prev_index : Z) (w : world)
  : esp_err_t * world :=
  match remaining with
  | O => (ESP_ERR_NOT_FOUND, w)
  | S remaining =>
      let '(ret, w) := load_and_display_media prev_index w in
      if is_ok ret then (ESP_OK, w)
      else
        let n := total_count (the_collection w) in
        prev_retry_loop remaining (Z.rem (prev_index - 1 + n) n) w
  end.

Definition photo_album_prev (w : world) : esp_err_t * world :=
  if negb (can_navigate w) then (ESP_ERR_INVALID_STATE, w)
  else
    let w := stop_video_before_switch w in
    let c := the_collection w in
    let max_retries := total_count c in
    let prev_index := Z.rem (current_index c - 1 + total_count c) (total_count c) in
    prev_retry_loop (Z.to_nat max_retries) prev_index w.

Definition photo_album_goto (index : Z) (w : world) : esp_err_t * world :=
  if negb (Album.initialized (alb w)) then (ESP_ERR_INVALID_ARG, w)
  else
    match Album.collection (alb w) with
    | None => (ESP_ERR_INVALID_ARG, w)
    | Some c =>
        if (index <? 0) || (total_count c <=? index) then (ESP_ERR_INVALID_ARG, w)
        else load_and_display_media index w
    end.

Definition photo_album_set_interval (interval : Z) (w : world)
  : esp_err_t * world :=
  if negb (Album.initialized (alb w)) then (ESP_ERR_INVALID_STATE, w)
  else
    let w := set_alb (Album.set_interval_ms interval (alb w)) w in
    on_sl (Slideshow.slideshow_ctrl_set_interval (now w) interval) w.

Definition photo_album_get_total_count (w : world) : Z :=
  if negb (Album.initialized (alb w)) then 0
  else match Album.collection (alb w) with
       | Some c => total_count c
       | None => 0
       end.

Definition photo_album_get_current_index (w : world) : Z :=
  if negb (Album.initialized (alb w)) then -1
  else match Album.collection (alb w) with
       | Some c => current_index c
       | None => -1
       end.

Definition photo_album_get_current_info (w : world) : option image_file_info_t :=
  if negb (Album.initialized (alb w)) then None
  else match Album.collection (alb w) with
       | Some c =>
           if (current_index c <? 0) || (total_count c <=? current_index c)
           then None else Some (file_at c (current_index c))
       | None => None
       end.

Definition photo_album_pause (w : world) : esp_err_t * world :=
  if negb (Album.initialized (alb w)) then (ESP_ERR_INVALID_STATE, w)
  else
    let w := set_alb (Album.set_pause_reason PAUSE_REASON_USER (alb w)) w in
    on_sl (Slideshow.slideshow_ctrl_pause (now w)) w.

Definition photo_album_pause_for_usb (w : world) : esp_err_t * world :=
  if negb (Album.initialized (alb w)) then (ESP_ERR_INVALID_STATE, w)
  else
    let w := set_alb (Album.set_pause_reason PAUSE_REASON_USB (alb w)) w in
    on_sl Slideshow.slideshow_ctrl_stop w.

Definition photo_album_resume (w : world) : esp_err_t * world :=
  if negb (Album.initialized (alb w)) then (ESP_ERR_INVALID_STATE, w)
  else if pause_reason_eqb (Album.pause_reason (alb w)) PAUSE_REASON_USB then
    let w := set_alb (Album.set_pause_reason PAUSE_REASON_NONE (alb w)) w in
    on_sl (Slideshow.slideshow_ctrl_start (now w)) w
  else
    let w := set_alb (Album.set_pause_reason PAUSE_REASON_NONE (alb w)) w in
    on_sl (Slideshow.slideshow_ctrl_resume (now w)) w.

Definition photo_album_is_paused (w : world) : bool :=
  if negb (Album.initialized (alb w)) then true
  else negb (Slideshow.slideshow_ctrl_is_running (sl w)).

(** The [for] loop of [photo_album_refresh] that looks for the file shown
    before the rescan: the first index with that name, else 0. *)
Fixpoint find_filename (name : string) (l : list image_file_info_t) (i : Z) : Z :=
  match l with
  | [] => 0
  | info :: rest =>
      if String.eqb (filename info) name then i
      else find_filename name rest (i + 1)
  end.

Definition photo_album_refresh (ans : scan_answer) (w : world)
  : esp_err_t * world :=
  if negb (Album.initialized (alb w)) then (ESP_ERR_INVALID_STATE, w)
  else
    let c := the_collection w in
    let old_index := current_index c in
    let current_filename :=
      if (0 <=? old_index) && (old_index <? total_count c)
      then store_path (filename (file_at c old_index)) else ""%string in
    let '(ret, c) := file_manager_scan_images ans c in
    let w := set_alb (Album.set_collection (Some c) (alb w)) w in
    if negb (is_ok ret) then (ret, w)
    else
      let new_index :=
        if (0 <? String.length current_filename)%nat
        then find_filename current_filename (files c) 0 else 0 in
      let w :=
        if 0 <? total_count c
        then set_current_index (Z.rem new_index (total_count c)) w
        else set_current_index 0 w in
      let w :=
        if negb (photo_album_is_paused w)
        then snd (load_and_display_media (current_index (the_collection w)) w)
        else w in
      (ESP_OK, w).

(** [photo_album_init], when the locks, the memory pool, the decoders, the
    SD card, the presenter and the timers initialise; the video buffers
    are as in [video_player_init]. *)
Definition photo_album_init (audio : bool) (buffer_a buffer_b : Z) (w : world)
  : esp_err_t * world :=
  if Album.initialized (alb w) then (ESP_OK, w)
  else
    let w := set_alb Album.zero w in
    let '(_, w) := on_sl (Slideshow.slideshow_ctrl_init DEFAULT_SLIDESHOW_MS) w in
    let '(ret, w) := on_vid (video_player_init audio buffer_a buffer_b) w in
    if negb (is_ok ret) then (ret, w)
    else
      (ESP_OK,
       set_alb (Album.mk (Some (mk_collection [] 0)) DEFAULT_SLIDESHOW_MS true
                  (Album.pause_reason (alb w))) w).

Definition photo_album_start (ans : scan_answer) (w : world)
  : esp_err_t * world :=
  if negb (Album.initialized (alb w)) then (ESP_ERR_INVALID_STATE, w)
  else
    let '(ret, c) := file_manager_scan_images ans (the_collection w) in
    let w := set_alb (Album.set_collection (Some c) (alb w)) w in
    if negb (is_ok ret) || (total_count c =? 0) then (ESP_ERR_NOT_FOUND, w)
    else
      let '(ret2, w) := load_and_display_media 0 w in
      let w := if is_ok ret2
               then snd (on_sl (Slideshow.slideshow_ctrl_start (now w)) w)
               else w in
      (ret2, w).

(** ** Event dispatcher ([ui_event_handler]) *)

Inductive ui_event_t :=
| UI_EVENT_SWIPE_LEFT
| UI_EVENT_SWIPE_RIGHT
| UI_EVENT_SWIPE_UP
| UI_EVENT_SWIPE_DOWN
| UI_EVENT_LONG_PRESS
| UI_EVENT_TAP
| UI_EVENT_SETTINGS_CLOSE
| UI_EVENT_SETTINGS_CANCEL.

Definition current_media_type (w : world) : media_type_t :=
  match Album.collection (alb w) with
  | Some c =>
      if (0 <=? current_index c) && (current_index c <? total_count c)
      then file_manager_get_media_type (full_path (file_at c (current_index c)))
      else MEDIA_TYPE_UNKNOWN
  | None => MEDIA_TYPE_UNKNOWN
  end.

Definition ui_event_handler (event : ui_event_t) (w : world) : world :=
  let media := current_media_type w in
  match event with
  | UI_EVENT_SWIPE_LEFT =>
      let w := snd (on_sl (Slideshow.slideshow_ctrl_manual_trigger (now w)) w) in
      snd (photo_album_next w)
  | UI_EVENT_SWIPE_RIGHT =>
      let w := snd (on_sl (Slideshow.slideshow_ctrl_manual_trigger (now w)) w) in
      snd (photo_album_prev w)
  | UI_EVENT_SWIPE_UP =>
      if media_type_eqb media MEDIA_TYPE_VIDEO then
        let new_volume := video_player_get_volume w + VOLUME_ADJUSTMENT_STEP in
        let new_volume := if MAX_AUDIO_VOLUME <? new_volume
                          then MAX_AUDIO_VOLUME else new_volume in
        emit (ShowVolume new_volume)
          (set_vid (video_player_set_volume new_volume (vid w)) w)
      else w
  | UI_EVENT_SWIPE_DOWN =>
      if media_type_eqb media MEDIA_TYPE_VIDEO then
        let new_volume := video_player_get_volume w - VOLUME_ADJUSTMENT_STEP in
        let new_volume := if new_volume <? MIN_AUDIO_VOLUME
                          then MIN_AUDIO_VOLUME else new_volume in
        emit (ShowVolume new_volume)
          (set_vid (video_player_set_volume new_volume (vid w)) w)
      else w
  | UI_EVENT_LONG_PRESS =>
      let w := emit (ShowSettings (Album.interval_ms (alb w))) w in
      snd (on_sl Slideshow.slideshow_ctrl_stop w)
  | UI_EVENT_TAP =>
      if media_type_eqb media MEDIA_TYPE_VIDEO then
        match video_player_get_state w with
        | VIDEO_STATE_PLAYING =>
            let w := snd (on_vid video_player_pause w) in
            snd (on_sl (Slideshow.slideshow_ctrl_pause (now w)) w)
        | VIDEO_STATE_PAUSED => snd (on_vid video_player_resume w)
        | _ => w
        end
      else w
  | UI_EVENT_SETTINGS_CLOSE =>
      let w :=
        if negb (selected_interval w =? Album.interval_ms (alb w)) then
          let w := set_alb (Album.set_interval_ms (selected_interval w) (alb w)) w in
          snd (on_sl (Slideshow.slideshow_ctrl_set_interval (now w)
                        (Album.interval_ms (alb w))) w)
        else w in
      let w := emit HideSettings w in
      snd (on_sl (Slideshow.slideshow_ctrl_start (now w)) w)
  | UI_EVENT_SETTINGS_CANCEL =>
      let w := emit HideSettings w in
      snd (on_sl (Slideshow.slideshow_ctrl_start (now w)) w)
  end.

(** ** Timer callbacks and the passing of time *)

Definition slideshow_timer_callback (w : world) : world :=
  if Slideshow.slideshow_timer_fires (sl w) then snd (photo_album_next w) else w.

Definition idle_timer_callback (w : world) : world :=
  set_sl (Slideshow.idle_timer_callback (now w) (sl w)) w.

Definition video_finish_timer_cb (w : world) : world :=
  let w := snd (on_sl (Slideshow.slideshow_ctrl_start (now w)) w) in
  snd (photo_album_next w).

Inductive timer_id := SlideshowTimer | IdleTimer | FinishTimer.

Definition handle_of (id : timer_id) (w : world) : esp_timer_handle_t :=
  match id with
  | SlideshowTimer => Slideshow.timer (sl w)
  | IdleTimer => Slideshow.idle_timer (sl w)
  | FinishTimer => Video.finish_timer (vid w)
  end.

Definition set_handle (id : timer_id) (h : esp_timer_handle_t) (w : world) : world :=
  match id with
  | SlideshowTimer => set_sl (Slideshow.set_timer h (sl w)) w
  | IdleTimer => set_sl (Slideshow.set_idle_timer h (sl w)) w
  | FinishTimer => set_vid (Video.set_finish_timer h (vid w)) w
  end.

Definition callback_of (id : timer_id) (w : world) : world :=
  match id with
  | SlideshowTimer => slideshow_timer_callback w
  | IdleTimer => idle_timer_callback w
  | FinishTimer => video_finish_timer_cb w
  end.

(** The expiry of an armed timer: the timer is disarmed (one-shot) or
    moved to its next period, then its callback runs to completion. *)
Definition fire (id : timer_id) (w : world) : world :=
  callback_of id (set_handle id (after_expiry (handle_of id w)) w).

(** The timer that expires first, with its deadline. *)
Definition earlier (a b : option (Z * timer_id)) : option (Z * timer_id) :=
  match a, b with
  | Some (da, ia), Some (db, ib) => if db <? da then b else a
  | Some _, None => a
  | None, _ => b
  end.

Definition pending (id : timer_id) (w : world) : option (Z * timer_id) :=
  match deadline_of (handle_of id w) with
  | Some d => Some (d, id)
  | None => None
  end.

Definition next_expiry (w : world) : option (Z * timer_id) :=
  earlier (pending SlideshowTimer w)
    (earlier (pending IdleTimer w) (pending FinishTimer w)).

(** Let the clock run to [target] with no call from outside: every timer
    that comes due fires in deadline order.  [None] when [fuel] expiries
    were not enough to reach [target]. *)
Fixpoint elapse_until (fuel : nat) (target : Z) (w : world) : option world :=
  match next_expiry w with
  | Some (d, id) =>
      if d <=? target then
        match fuel with
        | O => None
        | S fuel => elapse_until fuel target (fire id (set_now (Z.max (now w) d) w))
        end
      else Some (set_now (Z.max (now w) target) w)
  | None => Some (set_now (Z.max (now w) target) w)
  end.

Definition elapse (fuel : nat) (duration_us : Z) (w : world) : option world :=
  elapse_until fuel (now w + duration_us) w.

End Orchestrator.


(** ** Runs of the frame pipeline *)

(** Consecutive compressed frames handed to [extractor_frame_callback] by
    the extraction task: the deliveries to [frame_cb] in order, or [None]
    as soon as one frame is not decoded and delivered. *)
Fixpoint consecutive_deliveries (fs : list Adapter.frame) (a : Adapter.t)
  : option (list Adapter.delivery) :=
  match fs with
  | [] => Some []
  | f :: rest =>
      match Adapter.extractor_frame_callback f a with
      | (ESP_OK, a', Some d) =>
          match consecutive_deliveries rest a' with
          | Some ds => Some (d :: ds)
          | None => None
          end
      | _ => None
      end
  end.

(** ** Runs of manual triggers *)

(** One trigger of a run: the state when the wait before it is over, what
    the call returns and the state it leaves. *)
Record trigger_step := mk_step {
  after_wait : world;
  call_result : esp_err_t;
  after_call : world
}.

(** For each gap in turn: let the clock run for the gap, then call
    [slideshow_ctrl_manual_trigger]. *)
Fixpoint repeated_triggers (E : env) (fuel : nat) (gaps : list Z) (w : world)
  : option (list trigger_step) :=
  match gaps with
  | [] => Some []
  | g :: rest =>
      match elapse E fuel g w with
      | None => None
      | Some w1 =>
          let '(ret, w2) :=
            on_sl (Slideshow.slideshow_ctrl_manual_trigger (now w1)) w1 in
          match repeated_triggers E fuel rest w2 with
          | Some steps => Some (mk_step w1 ret w2 :: steps)
          | None => None
          end
      end
  end.

(** The slideshow is held by a manual pause: started, under manual
    control, and no periodic trigger armed. *)
Definition held (w : world) : Prop :=
  Slideshow.is_running (sl w) = true
  /\ Slideshow.manual_control (sl w) = true
  /\ Slideshow.periodic_triggers (sl w) = 0%nat.

Definition idle_window_us : Z := Slideshow.IDLE_TIMEOUT_MS * 1000.

(** ** The operations of the playback pipeline *)

Inductive pipeline_op :=
| OpPlay (path : string)
| OpSwitch (path : option string)
| OpPause
| OpResume.

Definition run_op (E : env) (now : Z) (op : pipeline_op) (v : Video.t)
  : video_result :=
  match op with
  | OpPlay path => video_player_play E now path v
  | OpSwitch path => video_player_switch_file E now path v
  | OpPause => video_player_pause v
  | OpResume => video_player_resume v
  end.

(** ** Concrete albums used to exercise the model *)

Module Scenario.

Local Open Scope string_scope.

Definition A_jpg : image_file_info_t := mk_info "A.jpg" "/sdcard/photos/A.jpg" 5000.
Definition B_jpg : image_file_info_t := mk_info "B.jpg" "/sdcard/photos/B.jpg" 5000.
Definition C_mp4 : image_file_info_t := mk_info "C.mp4" "/sdcard/photos/C.mp4" 500000.
Definition X_mp4 : image_file_info_t := mk_info "X.mp4" "/sdcard/photos/X.mp4" 500000.

(** Every collaborator succeeds, except that [B.jpg] does not decode and
    [X.mp4] is not accepted by the extractor; videos last 3000 ms. *)
Definition E_spec : env :=
  mk_env 1024 600
    (fun _ => ESP_OK)
    (fun p => if String.eqb p (full_path B_jpg)
              then (ESP_FAIL, (0, 0)) else (ESP_OK, (800, 600)))
    (fun _ => ESP_OK)
    (fun _ => ESP_OK)
    (fun p => if String.eqb p (full_path X_mp4) then ESP_FAIL else ESP_OK)
    (fun _ => (ESP_OK, (640, 480, 30, 3000)))
    true true true true.

(** No image decodes and no video starts. *)
Definition E_corrupt : env :=
  mk_env 1024 600
    (fun _ => ESP_OK)
    (fun _ => (ESP_FAIL, (0, 0)))
    (fun _ => ESP_OK)
    (fun _ => ESP_OK)
    (fun _ => ESP_FAIL)
    (fun _ => (ESP_ERR_NOT_FOUND, (0, 0, 0, 0)))
    true true true true.

(** The zeroed statics at boot. *)
Definition boot : world :=
  mk_world Slideshow.zero Video.zero Album.zero 5000 0 [].

(** [photo_album_init] then [photo_album_start] over the scanned files. *)
Definition started (E : env) (found : list image_file_info_t) : world :=
  snd (photo_album_start E (Scanned ESP_OK found)
         (snd (photo_album_init true 4096 8192 boot))).

(** An initialised album over [found] in which nothing has been shown
    yet (the state [photo_album_start] leaves when no entry loads). *)
Definition loaded (found : list image_file_info_t) : world :=
  let w := snd (photo_album_init true 4096 8192 boot) in
  set_alb (Album.set_collection (Some (mk_collection found 0)) (alb w)) w.

(** A.jpg is on screen and the slideshow runs. *)
Definition showing_A : world := started E_spec [A_jpg; B_jpg; C_mp4].

(** C.mp4 plays (reached from A.jpg by [photo_album_next], skipping B.jpg). *)
Definition playing_C : world := snd (photo_album_next E_spec showing_A).

(** An album of two videos of which the first does not start: C.mp4 plays
    at index 1. *)
Definition playing_C_after_X : world := started E_spec [X_mp4; C_mp4].

(** The controller after the soft switch to X.mp4 has failed. *)
Definition failed_switch_to_X : Video.t :=
  fst (snd (video_player_switch_file E_spec 0 (Some (full_path X_mp4))
              (vid playing_C_after_X))).

(** The adapter of [video_player_init] after [set_file] and [start] on
    C.mp4. *)
Definition started_adapter : Adapter.t :=
  snd (Adapter.app_stream_adapter_start E_spec
         (snd (Adapter.app_stream_adapter_set_file E_spec (full_path C_mp4) true
                 (Adapter.app_stream_adapter_init true [4096; 8192] 2
                    (1920 * 1080 * 2) true)))).

(** A compressed frame that decodes. *)
Definition good_frame : Adapter.frame :=
  Adapter.mk_frame true 4000 (ESP_OK, (640, 480)) (ESP_OK, 614400) true.

(** What [frame_cb] receives for the first three frames. *)
Definition delivery0 : Adapter.delivery := Adapter.mk_delivery 0 4096 614400 640 480 0.
Definition delivery1 : Adapter.delivery := Adapter.mk_delivery 1 8192 614400 640 480 1.
Definition delivery2 : Adapter.delivery := Adapter.mk_delivery 0 4096 614400 640 480 2.

End Scenario.

(** ** Runs of the slideshow controller *)

(** What can happen to [s_slideshow]: a call of one of the controller's
    functions, or the expiry of one of its two timers (which ESP-IDF
    delivers only while that timer is armed). *)
Inductive slideshow_op :=
| SlStart
| SlStop
| SlPause
| SlResume
| SlSetInterval (interval : Z)
| SlManualTrigger
| SlIdleExpiry
| SlPeriodicExpiry.

Definition run_slideshow_op (now : Z) (op : slideshow_op) (s : Slideshow.t)
  : Slideshow.t :=
  match op with
  | SlStart => snd (Slideshow.slideshow_ctrl_start now s)
  | SlStop => snd (Slideshow.slideshow_ctrl_stop s)
  | SlPause => snd (Slideshow.slideshow_ctrl_pause now s)
  | SlResume => snd (Slideshow.slideshow_ctrl_resume now s)
  | SlSetInterval interval => snd (Slideshow.slideshow_ctrl_set_interval now interval s)
  | SlManualTrigger => snd (Slideshow.slideshow_ctrl_manual_trigger now s)
  | SlIdleExpiry =>
      if handle_armed (Slideshow.idle_timer s) then
        Slideshow.idle_timer_callback now
          (Slideshow.set_idle_timer (after_expiry (Slideshow.idle_timer s)) s)
      else s
  | SlPeriodicExpiry =>
      if handle_armed (Slideshow.timer s) then
        Slideshow.set_timer (after_expiry (Slideshow.timer s)) s
      else s
  end.

(** A run: each step happens at its own time. *)
Fixpoint run_slideshow_ops (steps : list (Z * slideshow_op)) (s : Slideshow.t)
  : Slideshow.t :=
  match steps with
  | [] => s
  | (now, op) :: rest => run_slideshow_ops rest (run_slideshow_op now op s)
  end.

(** The period the periodic trigger gets for a stored interval. *)
Definition armed_period (interval : Z) : Z :=
  Z.max (Slideshow.period_us interval) min_period_us.

(** ** Frames that are not delivered *)

(** A compressed video frame that passes the size test and gets the frame
    lock, whose header parses, but which [jpeg_decoder_process] rejects. *)
Definition fails_in_decode (a : Adapter.t) (f : Adapter.frame) : Prop :=
  Adapter.is_video f = true
  /\ Adapter.frame_size f <= Adapter.jpeg_buffer_size a
  /\ Adapter.mutex_taken f = true
  /\ fst (Adapter.jpeg_info f) = ESP_OK
  /\ fst (Adapter.jpeg_process f) <> ESP_OK.

(** Every decode buffer of the adapter is a real buffer. *)
Definition buffers_allocated (a : Adapter.t) : Prop :=
  Z.of_nat (List.length (Adapter.decode_buffers a)) = Adapter.buffer_count a
  /\ Forall (fun p => p <> 0) (Adapter.decode_buffers a).

(** A frame of the scenario's stream whose header parses and whose decode
    fails, and the adapter after a first good frame. *)
Definition broken_frame : Adapter.frame :=
  Adapter.mk_frame true 4000 (ESP_OK, (640, 480)) (ESP_FAIL, 0) true.

Definition adapter_after (f : Adapter.frame) (a : Adapter.t) : Adapter.t :=
  snd (fst (Adapter.extractor_frame_callback f a)).

(** ** Runs of the video controller *)

(** What can happen to [s_video]: a call of one of the controller's
    functions, or a frame handed over by the extraction task. *)
Inductive video_op :=
| VInit (audio : bool) (buffer_a buffer_b : Z)
| VPlay (path : string)
| VPause
| VResume
| VStop
| VRestartCurrent
| VSetVolume (volume : Z)
| VSwitchFile (path : option string)
| VFrame (f : Adapter.frame) (display : esp_err_t).

Definition run_video_op (E : env) (now : Z) (op : video_op) (v : Video.t)
  : Video.t :=
  match op with
  | VInit audio buffer_a buffer_b =>
      fst (snd (video_player_init audio buffer_a buffer_b v))
  | VPlay path => fst (snd (video_player_play E now path v))
  | VPause => fst (snd (video_player_pause v))
  | VResume => fst (snd (video_player_resume v))
  | VStop => fst (snd (video_player_stop E v))
  | VRestartCurrent => fst (snd (video_player_restart_current E now v))
  | VSetVolume volume => video_player_set_volume volume v
  | VSwitchFile path => fst (snd (video_player_switch_file E now path v))
  | VFrame f display => fst (snd (extractor_frame_callback f display v))
  end.

(** A run: each step is the time of the call and the operation. *)
Fixpoint run_video_ops (E : env) (steps : list (Z * video_op)) (v : Video.t)
  : Video.t :=
  match steps with
  | [] => v
  | (now, op) :: rest => run_video_ops E rest (run_video_op E now op v)
  end.

(** The stored volume is one the codec accepts. *)
Definition volume_in_range (v : Video.t) : Prop :=
  MIN_AUDIO_VOLUME <= Video.current_volume v <= MAX_AUDIO_VOLUME.

(** ** A lost frame lock *)

(** The extraction task does not answer the stop request and no new
    mutex can be created. *)
Definition E_stuck : env :=
  mk_env 1024 600
    (fun _ => ESP_OK)
    (fun _ => (ESP_OK, (800, 600)))
    (fun _ => ESP_OK)
    (fun _ => ESP_OK)
    (fun _ => ESP_OK)
    (fun _ => (ESP_OK, (640, 480, 30, 3000)))
    true false false true.

(** The controller of the scenario after C.mp4 was stopped under
    [E_stuck]. *)
Definition stopped_without_mutex : Video.t :=
  fst (snd (video_player_stop E_stuck (vid Scenario.playing_C))).

(** The controller holds an adapter that is not running and has no frame
    mutex. *)
Definition frame_mutex_lost (v : Video.t) : Prop :=
  exists a, Video.adapter v = Some a
            /\ Adapter.frame_mutex a = false
            /\ Adapter.running a = false.

(** ** The navigator's collection *)

(** The album is initialised, its collection holds exactly [fs], and the
    current index points at one of them. *)
Definition album_over (fs : list image_file_info_t) (w : world) : Prop :=
  Album.initialized (alb w) = true
  /\ exists i, Album.collection (alb w) = Some (mk_collection fs i)
               /\ 0 <= i < Z.of_nat (List.length fs).

(** ** Runs of the orchestrator *)

(** What can happen to an initialised album between two rescans: a
    gesture reported by the presenter, the expiry of an armed timer, or a
    call of the navigator's interface. *)
Inductive album_event :=
| Gesture (event : ui_event_t)
| Expiry (id : timer_id)
| CallNext
| CallPrev
| CallGoto (index : Z)
| CallSetInterval (interval : Z)
| CallPause
| CallPauseForUsb
| CallResume.

(** The expiry of timer [id] at its deadline; nothing when it is not armed. *)
Definition expire (E : env) (id : timer_id) (w : world) : world :=
  match deadline_of (handle_of id w) with
  | Some d => fire E id (set_now (Z.max (now w) d) w)
  | None => w
  end.

Definition run_album_event (E : env) (ev : album_event) (w : world) : world :=
  match ev with
  | Gesture event => ui_event_handler E event w
  | Expiry id => expire E id w
  | CallNext => snd (photo_album_next E w)
  | CallPrev => snd (photo_album_prev E w)
  | CallGoto index => snd (photo_album_goto E index w)
  | CallSetInterval interval => snd (photo_album_set_interval interval w)
  | CallPause => snd (photo_album_pause w)
  | CallPauseForUsb => snd (photo_album_pause_for_usb w)
  | CallResume => snd (photo_album_resume w)
  end.

Fixpoint run_album_events (E : env) (evs : list album_event) (w : world) : world :=
  match evs with
  | [] => w
  | ev :: rest => run_album_events E rest (run_album_event E ev w)
  end.

(** ** Scans that find nothing *)

(** The scan fails (card not mounted, directory not readable) or finds
    no media file. *)
Definition nothing_to_show (ans : scan_answer) : Prop :=
  match ans with
  | NotMounted => True
  | Scanned ret found => ret <> ESP_OK \/ found = []
  end.

(** ** Gestures *)

(** The user picks [selected] in the settings panel and time [t] is
    reached before the next event. *)
Definition user_selects (selected t : Z) (w : world) : world :=
  mk_world (sl w) (vid w) (alb w) selected t (trace w).

(** The entry on screen is a video that is playing: the controller is in
    the PLAYING state and its adapter is running. *)
Definition video_on_screen (w : world) : Prop :=
  current_media_type w = MEDIA_TYPE_VIDEO
  /\ Video.state (vid w) = VIDEO_STATE_PLAYING
  /\ exists a, Video.adapter (vid w) = Some a /\ Adapter.running a = true.

(** ** The scanner's filters ([storage/file_manager.c]) *)

Definition file_manager_is_supported_image (name : string) : bool :=
  match strrchr_dot name with
  | None => false
  | Some ext =>
      strcasecmp_eq ext ".jpg" || strcasecmp_eq ext ".jpeg"
      || strcasecmp_eq ext ".png"
  end.

Definition file_manager_is_supported_media (name : string) : bool :=
  match strrchr_dot name with
  | None => false
  | Some ext =>
      if strcasecmp_eq ext ".jpg" || strcasecmp_eq ext ".jpeg"
         || strcasecmp_eq ext ".png" then true
      else if strcasecmp_eq ext ".mp4" || strcasecmp_eq ext ".avi" then true
      else false
  end.

(** A name with every letter in lower case. *)
Fixpoint lowercase (s : string) : string :=
  match s with
  | EmptyString => EmptyString
  | String c rest => String (tolower c) (lowercase rest)
  end.

(** ** Validation of scanned images ([validate_image_file]) *)

Inductive image_format_t :=
| IMAGE_FORMAT_JPEG
| IMAGE_FORMAT_PNG
| IMAGE_FORMAT_UNKNOWN.

Definition MAX_DECODE_WIDTH : Z := 1920.
Definition MAX_DECODE_HEIGHT : Z := 1080.
Definition JPEG_ALIGNMENT : Z := 8.
Definition PRACTICAL_DECODE_BUFFER_LIMIT : Z := 4 * 1024 * 1024.

(** What the file system and the JPEG engine answer for one file:
    whether [open] succeeds, what [read] returns (the count, negative on
    error, and the bytes now in [header_buf]), and what
    [jpeg_decoder_get_info] makes of the header (result, width, height). *)
Record file_probe := mk_probe {
  open_ok : bool;
  bytes_read : Z;
  header_buf : list Z;
  jpeg_header : esp_err_t * (Z * Z)
}.

Definition byte_at (p : file_probe) (i : nat) : Z := nth i (header_buf p) 0.

(** The JPEG engine reports [uint32_t] sizes. *)
Definition probe_well_formed (p : file_probe) : Prop :=
  0 <= fst (snd (jpeg_header p)) < 2 ^ 32
  /\ 0 <= snd (snd (jpeg_header p)) < 2 ^ 32.

Definition jpeg_magic (p : file_probe) : bool :=
  (3 <=? bytes_read p) && (byte_at p 0 =? 255) && (byte_at p 1 =? 216)
  && (byte_at p 2 =? 255).

Definition png_magic_short (p : file_probe) : bool :=
  (8 <=? bytes_read p) && (byte_at p 0 =? 137) && (byte_at p 1 =? 80)
  && (byte_at p 2 =? 78) && (byte_at p 3 =? 71).

Definition png_magic (p : file_probe) : bool :=
  png_magic_short p && (byte_at p 4 =? 13) && (byte_at p 5 =? 10)
  && (byte_at p 6 =? 26) && (byte_at p 7 =? 10).

(** "GIF87a", "GIF89a" or "BM" *)
Definition gif_or_bmp_magic (p : file_probe) : bool :=
  (6 <=? bytes_read p)
  && (((byte_at p 0 =? 71) && (byte_at p 1 =? 73) && (byte_at p 2 =? 70)
       && (byte_at p 3 =? 56)
       && ((byte_at p 4 =? 55) || (byte_at p 4 =? 57)) && (byte_at p 5 =? 97))
      || ((byte_at p 0 =? 66) && (byte_at p 1 =? 77))).

(** The big-endian [uint32_t] at offset [i] of the header. *)
Definition be32 (p : file_probe) (i : nat) : Z :=
  u32 (Z.lor (Z.lor (Z.lor (Z.shiftl (byte_at p i) 24)
                           (Z.shiftl (byte_at p (i + 1)) 16))
                    (Z.shiftl (byte_at p (i + 2)) 8))
             (byte_at p (i + 3))).

(** The pixel budget applied to images larger than 1920 x 1080. *)
Definition within_pixel_budget (width height : Z) : bool :=
  if (MAX_DECODE_WIDTH <? width) || (MAX_DECODE_HEIGHT <? height)
  then negb (MAX_DECODE_WIDTH * MAX_DECODE_HEIGHT <? width * height)
  else true.

Definition validate_image_file (p : file_probe) (format : image_format_t)
           (file_size : Z) : bool :=
  if file_size <? 100 then false
  else if 10 * 1024 * 1024 <? file_size then false
  else if negb (open_ok p) then false
  else if bytes_read p <? 16 then false
  else
    (** the format after the magic number check; [None] when the check
        fails or returns at once *)
    let checked : option image_format_t :=
      match format with
      | IMAGE_FORMAT_JPEG => if jpeg_magic p then Some format else None
      | IMAGE_FORMAT_PNG => if png_magic p then Some format else None
      | IMAGE_FORMAT_UNKNOWN =>
          if png_magic_short p then Some IMAGE_FORMAT_PNG
          else if jpeg_magic p then Some IMAGE_FORMAT_JPEG
          else if gif_or_bmp_magic p then None
          else None
      end in
    match checked with
    | None => false
    | Some IMAGE_FORMAT_JPEG =>
        let '(ret, (width, height)) := jpeg_header p in
        if negb (is_ok ret) then false
        else if (width =? 0) || (height =? 0) || (8192 <? width) || (8192 <? height)
        then false
        else if negb (width mod JPEG_ALIGNMENT =? 0)
                || negb (height mod JPEG_ALIGNMENT =? 0)
        then false
        else if PRACTICAL_DECODE_BUFFER_LIMIT <? width * height * 2 then false
        else within_pixel_budget width height
    | Some IMAGE_FORMAT_PNG =>
        if bytes_read p <? 33 then false
        else
          let width := be32 p 16 in
          let height := be32 p 20 in
          if (width =? 0) || (height =? 0) || (8192 <? width) || (8192 <? height)
          then false
          else if PRACTICAL_DECODE_BUFFER_LIMIT <? width * height * 2 then false
          else within_pixel_budget width height
    | Some IMAGE_FORMAT_UNKNOWN => true
    end.

(** The format [scan_directory_recursive] derives from a name. *)
Definition format_of_name (d_name : string) : image_format_t :=
  match strrchr_dot d_name with
  | Some ext =>
      if strcasecmp_eq ext ".jpg" || strcasecmp_eq ext ".jpeg"
      then IMAGE_FORMAT_JPEG
      else if strcasecmp_eq ext ".png" then IMAGE_FORMAT_PNG
      else IMAGE_FORMAT_UNKNOWN
  | None => IMAGE_FORMAT_UNKNOWN
  end.

Definition is_hidden (d_name : string) : bool :=
  match d_name with
  | String c _ => Ascii.eqb c "."
  | EmptyString => false
  end.

(** The decision of [scan_directory_recursive] for one regular file:
    whether it is stored in the collection. *)
Definition scan_accepts (d_name : string) (p : file_probe) (file_size : Z) : bool :=
  if is_hidden d_name then false
  else if negb (file_manager_is_supported_media d_name) then false
  else
    match format_of_name d_name with
    | IMAGE_FORMAT_UNKNOWN => true
    | fmt => validate_image_file p fmt file_size
    end.

(** The entry stored for an accepted file of directory [dir]:
    [snprintf] into the 256 bytes of each name field. *)
Definition scanned_entry (dir d_name : string) (file_size : Z) : image_file_info_t :=
  mk_info (substring 0 255 d_name) (substring 0 255 (dir ++ "/" ++ d_name))
    file_size.

(** The dimensions the validation has checked. *)
Definition checked_dimensions (p : file_probe) (format : image_format_t) : Z * Z :=
  match format with
  | IMAGE_FORMAT_PNG => (be32 p 16, be32 p 20)
  | _ => snd (jpeg_header p)
  end.

(** A 1920 x 1080 JPEG of which 4096 bytes were read. *)
Definition jpeg_1080p_probe : file_probe :=
  mk_probe true 4096 [255; 216; 255; 224] (ESP_OK, (1920, 1080)).

(** ** Rescans *)




(** ** Shared JPEG decoder ([shared_jpeg_decoder_*] in [media/app_stream_adapter.c]) *)

Module SharedJpeg.

(** The static [g_shared_jpeg]: the engine handle (0 is NULL), whether
    the mutex exists, the flag and the count. *)
Record t := mk {
  handle : Z;
  mutex : bool;
  initialized : bool;
  reference_count : Z
}.

Definition zero : t := mk 0 false false 0.

(** [shared_jpeg_decoder_init]; [mutex_created] is whether
    [xSemaphoreCreateMutex] returns a mutex, [engine] is the result of
    [jpeg_new_decoder_engine] and the handle it stores on success. *)
Definition shared_jpeg_decoder_init (mutex_created : bool)
           (engine : esp_err_t * Z) (g : t) : esp_err_t * t :=
  if initialized g then (ESP_OK, g)
  else if negb mutex_created
       then (ESP_ERR_NO_MEM, mk (handle g) false (initialized g) (reference_count g))
  else
    let '(ret, h) := engine in
    if negb (is_ok ret)
    then (ret, mk (handle g) false (initialized g) (reference_count g))
    else (ESP_OK, mk h true true 0).

(** [shared_jpeg_decoder_acquire]; [taken] is whether the mutex was
    obtained within its timeout.  The third component is the handle
    written to [*ret_handle]. *)
Definition shared_jpeg_decoder_acquire (ret_handle_null : bool) (taken : bool)
           (g : t) : esp_err_t * t * option Z :=
  if negb (initialized g) || ret_handle_null then (ESP_ERR_INVALID_STATE, g, None)
  else if negb taken then (ESP_ERR_TIMEOUT, g, None)
  else (ESP_OK,
        mk (handle g) (mutex g) (initialized g) (reference_count g + 1),
        Some (handle g)).

Definition shared_jpeg_decoder_release (taken : bool) (g : t) : esp_err_t * t :=
  if negb (initialized g) then (ESP_ERR_INVALID_STATE, g)
  else if negb taken then (ESP_ERR_TIMEOUT, g)
  else
    (ESP_OK,
     if 0 <? reference_count g
     then mk (handle g) (mutex g) (initialized g) (reference_count g - 1)
     else g).

Definition shared_jpeg_decoder_deinit (taken : bool) (g : t) : esp_err_t * t :=
  if negb (initialized g) then (ESP_OK, g)
  else if negb taken then (ESP_ERR_TIMEOUT, g)
  else (ESP_OK, mk 0 false false 0).

Inductive op :=
| Init (mutex_created : bool) (engine : esp_err_t * Z)
| Acquire (ret_handle_null : bool) (taken : bool)
| Release (taken : bool)
| Deinit (taken : bool).

Definition run_op (o : op) (g : t) : t :=
  match o with
  | Init mutex_created engine => snd (shared_jpeg_decoder_init mutex_created engine g)
  | Acquire ret_handle_null taken =>
      snd (fst (shared_jpeg_decoder_acquire ret_handle_null taken g))
  | Release taken => snd (shared_jpeg_decoder_release taken g)
  | Deinit taken => snd (shared_jpeg_decoder_deinit taken g)
  end.

Definition run_ops (ops : list op) (g : t) : t := fold_left (fun g o => run_op o g) ops g.

End SharedJpeg.

(** ** Fitting a decoded image to the screen
    ([process_image_for_display], [image_processor_calculate_params]) *)

Inductive scale_mode_t :=
| SCALE_MODE_FIT
| SCALE_MODE_FILL
| SCALE_MODE_CENTER
| SCALE_MODE_CROP_ONLY.

(** The mode [process_image_for_display] selects for a decoded image. *)
Definition select_scale_mode (E : env) (width height : Z) : scale_mode_t :=
  if height <=? width then
    if (width <=? SCREEN_WIDTH E) && (height <=? SCREEN_HEIGHT E)
    then SCALE_MODE_CENTER else SCALE_MODE_CROP_ONLY
  else
    if (width <=? SCREEN_WIDTH E) && (height <=? SCREEN_HEIGHT E)
    then SCALE_MODE_CENTER else SCALE_MODE_FIT.

(** The integer fields of [process_params_t]. *)
Record crop_params := mk_crop {
  target_width : Z;
  target_height : Z;
  crop_width : Z;
  crop_height : Z;
  crop_offset_x : Z;
  crop_offset_y : Z
}.

(** The [SCALE_MODE_CROP_ONLY] case of [image_processor_calculate_params],
    the one case of the switch that is computed in integers only. *)
Definition calculate_params_crop_only (src_width src_height dst_width dst_height : Z)
  : crop_params :=
  mk_crop dst_width dst_height dst_width dst_height
    (if dst_width <? src_width then (src_width - dst_width) / 2 else 0)
    (if dst_height <? src_height then (src_height - dst_height) / 2 else 0).

(** ** USB connection manager ([usb/usb_manager.c]) *)

Module Usb.

Inductive usb_msc_status_t :=
| USB_MSC_DISCONNECTED
| USB_MSC_CONNECTED
| USB_MSC_MOUNTED
| USB_MSC_EJECTED
| USB_MSC_ERROR.

Inductive usb_ui_state_t :=
| USB_UI_STATE_HIDDEN
| USB_UI_STATE_CONNECTED
| USB_UI_STATE_TRANSFERRING
| USB_UI_STATE_WIFI_HOTSPOT
| USB_UI_STATE_DUAL_MODE
| USB_UI_STATE_ERROR.

(** The static [s_usb_state], and what the last call of
    [usb_status_ui_show] or [usb_status_ui_hide] left on screen. *)
Record t := mk {
  usb_active : bool;
  photo_album_paused : bool;
  video_was_playing : bool;
  current_media_type : media_type_t;
  status_ui : usb_ui_state_t
}.

Definition zero : t :=
  mk false false false MEDIA_TYPE_UNKNOWN USB_UI_STATE_HIDDEN.

Definition usb_status_ui_show (state : usb_ui_state_t) (u : t) : t :=
  mk (usb_active u) (photo_album_paused u) (video_was_playing u)
     (current_media_type u) state.

Section WithEnv.
Variable E : env.

(** The USB_MSC_CONNECTED case of [usb_status_changed_cb]. *)
Definition on_connected (u : t) (w : world) : t * world :=
  let media :=
    match photo_album_get_current_info w with
    | Some current_info => file_manager_get_media_type (full_path current_info)
    | None => MEDIA_TYPE_UNKNOWN
    end in
  let '(was_playing, w) :=
    if media_type_eqb media MEDIA_TYPE_VIDEO then
      let '(was_playing, w) :=
        match video_player_get_state w with
        | VIDEO_STATE_PLAYING => (true, snd (on_vid video_player_pause w))
        | _ => (false, w)
        end in
      (was_playing, emit (SwitchMode UI_MODE_IMAGE) w)
    else (false, w) in
  let w := snd (photo_album_pause_for_usb w) in
  (mk true true was_playing media USB_UI_STATE_CONNECTED, w).

(** [video_player_restart_current], then [photo_album_next] when it
    fails. *)
Definition restart_or_next (w : world) : world :=
  let '(ret, w) := on_vid (video_player_restart_current E (now w)) w in
  if negb (is_ok ret) then snd (photo_album_next E w) else w.

(** The USB_MSC_DISCONNECTED and USB_MSC_EJECTED case; [ans] is what the
    rescan finds. *)
Definition on_disconnected (ans : scan_answer) (u : t) (w : world) : t * world :=
  let w := snd (photo_album_refresh E ans w) in
  let u := mk false (photo_album_paused u) (video_was_playing u)
              (current_media_type u) (status_ui u) in
  if photo_album_paused u then
    let u := usb_status_ui_show USB_UI_STATE_HIDDEN u in
    let w :=
      if video_was_playing u
         && media_type_eqb (current_media_type u) MEDIA_TYPE_VIDEO then
        let w := emit (SwitchMode UI_MODE_VIDEO) w in
        if video_player_has_error (vid w) then restart_or_next w
        else
          let '(ret, w) := on_vid video_player_resume w in
          if negb (is_ok ret) then restart_or_next w else w
      else if media_type_eqb (current_media_type u) MEDIA_TYPE_VIDEO
              && negb (video_was_playing u) then
        let w := emit (SwitchMode UI_MODE_VIDEO) w in
        if video_player_has_error (vid w) then
          let '(ret, w) := on_vid (video_player_restart_current E (now w)) w in
          if is_ok ret then snd (on_vid video_player_pause w)
          else snd (photo_album_next E w)
        else w
      else snd (photo_album_resume w) in
    (mk (usb_active u) false false MEDIA_TYPE_UNKNOWN (status_ui u), w)
  else (u, w).

Definition usb_status_changed_cb (ans : scan_answer) (status : usb_msc_status_t)
           (u : t) (w : world) : t * world :=
  match status with
  | USB_MSC_CONNECTED => on_connected u w
  | USB_MSC_MOUNTED => (usb_status_ui_show USB_UI_STATE_CONNECTED u, w)
  | USB_MSC_DISCONNECTED | USB_MSC_EJECTED => on_disconnected ans u w
  | USB_MSC_ERROR => (usb_status_ui_show USB_UI_STATE_ERROR u, w)
  end.

End WithEnv.

End Usb.

(** ** Images that load *)

(** Every step of the image pipeline succeeds for this file. *)
Definition image_loads (E : env) (info : image_file_info_t) : Prop :=
  file_manager_get_media_type (full_path info) = MEDIA_TYPE_IMAGE
  /\ validate_file_for_decoding info = true
  /\ file_manager_load_image E (full_path info) = ESP_OK
  /\ fst (image_decoder_decode E (full_path info)) = ESP_OK
  /\ process_image_for_display E (full_path info) = ESP_OK
  /\ ui_manager_display_image E (full_path info) = ESP_OK.

(** * Properties *)

(** ** Navigation to an index *)

(** C7: [photo_album_goto] with an index outside [0, count) returns
    [ESP_ERR_INVALID_ARG] and the whole state, [current_index] included,
    is as before. *)
Theorem goto_out_of_range_rejected :
  forall (E : env) (w : world) (i : Z),
    i < 0 \/ photo_album_get_total_count w <= i ->
    photo_album_goto E i w = (ESP_ERR_INVALID_ARG, w).
Proof.
  intros E w i Hout.
  unfold photo_album_goto, photo_album_get_total_count in *.
  destruct (Album.initialized (alb w)); simpl in *; [|reflexivity].
  destruct (Album.collection (alb w)) as [c|]; [|reflexivity].
  assert (Hguard : (i <? 0) || (total_count c <=? i) = true).
  { apply orb_true_iff. destruct Hout as [H|H]; [left; apply Z.ltb_lt | right; apply Z.leb_le]; exact H. }
  rewrite Hguard. reflexivity.
Qed.

Lemma goto_out_of_range_rejected_witness :
  photo_album_get_total_count Scenario.showing_A = 3
  /\ photo_album_goto Scenario.E_spec 3 Scenario.showing_A
     = (ESP_ERR_INVALID_ARG, Scenario.showing_A)
  /\ photo_album_goto Scenario.E_spec (-1) Scenario.showing_A
     = (ESP_ERR_INVALID_ARG, Scenario.showing_A).
Proof.
  split; [reflexivity|]. split.
  - apply (goto_out_of_range_rejected Scenario.E_spec Scenario.showing_A 3).
    right. vm_compute. discriminate.
  - apply (goto_out_of_range_rejected Scenario.E_spec Scenario.showing_A (-1)).
    left. lia.
Defined.

(** ** Proof automation *)

(** Case analysis on the innermost scrutinee of a hypothesis. *)
Ltac break_hyp H :=
  match type of H with
  | context [match ?c with _ => _ end] =>
      lazymatch c with
      | context [match _ with _ => _ end] => fail
      | _ => destruct c eqn:?
      end
  end.

(** The same on the goal. *)
Ltac break_goal :=
  match goal with
  | |- context [match ?c with _ => _ end] =>
      lazymatch c with
      | context [match _ with _ => _ end] => fail
      | _ => destruct c eqn:?
      end
  end.

(** ** Buffer handoff of the frame pipeline *)

(** What one delivered frame does to the adapter: the buffer index moved
    one step round the ring before the decode, and the frame was decoded
    into the buffer at that index. *)
Lemma delivered_frame_step :
  forall (f : Adapter.frame) (a a' : Adapter.t) (d : Adapter.delivery),
    Adapter.extractor_frame_callback f a = (ESP_OK, a', Some d) ->
    Adapter.buffer_count a' = Adapter.buffer_count a
    /\ Adapter.current_buffer a'
       = u32 (Adapter.current_buffer a + 1) mod Adapter.buffer_count a
    /\ Adapter.d_slot d = Adapter.current_buffer a'
    /\ Adapter.d_frame_index d = u32 (u32 (Adapter.frame_count a + 1) - 1).
Proof.
  intros f a a' d H.
  unfold Adapter.extractor_frame_callback, Adapter.decode_jpeg_frame in H.
  repeat (break_hyp H; simpl in H; try discriminate).
  all: inversion H; subst; simpl; auto.
Qed.

Lemma ring_of_two_advances (s : Z) :
  0 <= s < 2 -> u32 (s + 1) mod 2 = (s + 1) mod 2 /\ (s + 1) mod 2 <> s.
Proof.
  intros Hs. unfold u32.
  assert (Hcases : s = 0 \/ s = 1) by lia.
  destruct Hcases; subst; split; vm_compute; congruence.
Qed.

Lemma deliveries_walk_the_ring :
  forall (fs : list Adapter.frame) (a : Adapter.t) (ds : list Adapter.delivery),
    Adapter.buffer_count a = 2 ->
    consecutive_deliveries fs a = Some ds ->
    forall (k : nat) (d : Adapter.delivery),
      nth_error ds k = Some d ->
      0 <= Adapter.d_slot d < 2
      /\ (k = 0%nat ->
          Adapter.d_slot d = u32 (Adapter.current_buffer a + 1) mod 2)
      /\ forall d', nth_error ds (S k) = Some d' ->
                    Adapter.d_slot d' = u32 (Adapter.d_slot d + 1) mod 2.
Proof.
  induction fs as [|f rest IH]; intros a ds Hcount Hrun k d Hk.
  - simpl in Hrun. inversion Hrun; subst. destruct k; discriminate.
  - simpl in Hrun.
    destruct (Adapter.extractor_frame_callback f a) as [[ret a'] od] eqn:Hstep.
    destruct ret; try discriminate.
    destruct od as [d0|]; [|discriminate].
    destruct (consecutive_deliveries rest a') as [ds'|] eqn:Hrest; [|discriminate].
    inversion Hrun; subst ds.
    destruct (delivered_frame_step _ _ _ _ Hstep) as (Hbc & Hcb & Hslot & _).
    rewrite Hcount in *.
    assert (Hrange0 : 0 <= Adapter.d_slot d0 < 2).
    { rewrite Hslot, Hcb. apply Z.mod_pos_bound. lia. }
    destruct k as [|k]; simpl in Hk.
    + inversion Hk; subst d0. split; [exact Hrange0|]. split.
      * intros _. rewrite Hslot, Hcb. reflexivity.
      * intros d' Hd'. simpl in Hd'.
        destruct (IH a' ds' Hbc Hrest 0%nat d' Hd') as (_ & Hfirst & _).
        rewrite (Hfirst eq_refl), <- Hslot. reflexivity.
    + destruct (IH a' ds' Hbc Hrest k d Hk) as (Hr & _ & Hnext).
      split; [exact Hr|]. split; [discriminate|].
      intros d' Hd'. apply Hnext. exact Hd'.
Qed.

(** C2: in any run of consecutive frames that are all decoded and delivered
    to the frame callback, with the two buffers [video_player_init]
    configures, frame k+1 is decoded into the buffer whose index is one
    past frame k's modulo the buffer count, so never into the same buffer. *)
Theorem consecutive_frames_use_different_buffers :
  forall (a : Adapter.t) (fs : list Adapter.frame) (ds : list Adapter.delivery),
    Adapter.buffer_count a = 2 ->
    consecutive_deliveries fs a = Some ds ->
    forall (k : nat) (d d' : Adapter.delivery),
      nth_error ds k = Some d ->
      nth_error ds (S k) = Some d' ->
      Adapter.d_slot d' = (Adapter.d_slot d + 1) mod Adapter.buffer_count a
      /\ Adapter.d_slot d' <> Adapter.d_slot d.
Proof.
  intros a fs ds Hcount Hrun k d d' Hk Hk'.
  destruct (deliveries_walk_the_ring fs a ds Hcount Hrun k d Hk) as (Hr & _ & Hnext).
  specialize (Hnext d' Hk').
  destruct (ring_of_two_advances (Adapter.d_slot d) Hr) as (Hu & Hne).
  rewrite Hcount, Hnext, Hu. split; [reflexivity|exact Hne].
Qed.

Lemma consecutive_frames_use_different_buffers_witness :
  Adapter.d_slot Scenario.delivery1
  = (Adapter.d_slot Scenario.delivery0 + 1)
      mod Adapter.buffer_count Scenario.started_adapter
  /\ Adapter.d_slot Scenario.delivery1 <> Adapter.d_slot Scenario.delivery0.
Proof.
  refine (consecutive_frames_use_different_buffers
            Scenario.started_adapter
            [Scenario.good_frame; Scenario.good_frame; Scenario.good_frame]
            [Scenario.delivery0; Scenario.delivery1; Scenario.delivery2]
            _ _ 0%nat Scenario.delivery0 Scenario.delivery1 _ _).
  - reflexivity.
  - vm_compute. reflexivity.
  - reflexivity.
  - reflexivity.
Defined.

(** Stopping or starting the extraction task touches the task handle, the
    event bits and the frame mutex only. *)
Definition same_stream (a a' : Adapter.t) : Prop :=
  Adapter.frame_cb a' = Adapter.frame_cb a
  /\ Adapter.decode_buffers a' = Adapter.decode_buffers a
  /\ Adapter.buffer_count a' = Adapter.buffer_count a
  /\ Adapter.filename a' = Adapter.filename a
  /\ Adapter.running a' = Adapter.running a
  /\ Adapter.current_buffer a' = Adapter.current_buffer a
  /\ Adapter.frame_count a' = Adapter.frame_count a
  /\ Adapter.has_info a' = Adapter.has_info a
  /\ Adapter.duration a' = Adapter.duration a
  /\ Adapter.audio_dev a' = Adapter.audio_dev a.

Lemma stop_extract_task_same_stream (E : env) (a : Adapter.t) :
  same_stream a (Adapter.stop_extract_task E a).
Proof.
  unfold same_stream, Adapter.stop_extract_task.
  destruct (Adapter.extract_task_handle a); simpl;
    destruct (stop_acknowledged E); simpl;
    destruct (Adapter.frame_mutex a); simpl; repeat split; reflexivity.
Qed.

Lemma start_extract_task_same_stream (E : env) (a : Adapter.t) :
  same_stream a (snd (Adapter.start_extract_task E a)).
Proof.
  unfold Adapter.start_extract_task.
  pose proof (stop_extract_task_same_stream E a) as Hstop.
  destruct (Adapter.extract_task_handle a); simpl;
    repeat (break_goal; simpl); try exact Hstop;
    unfold same_stream in *; simpl; try tauto; repeat split; reflexivity.
Qed.

(** After a start the ring begins at buffer 0: frame k of the run is
    decoded into buffer [k mod 2]. *)
Lemma frames_after_start_fill_slots_in_turn :
  forall (E : env) (a0 a : Adapter.t) (fs : list Adapter.frame)
         (ds : list Adapter.delivery),
    Adapter.buffer_count a0 = 2 ->
    Adapter.running a0 = false ->
    Adapter.app_stream_adapter_start E a0 = (ESP_OK, a) ->
    consecutive_deliveries fs a = Some ds ->
    forall (k : nat) (d : Adapter.delivery),
      nth_error ds k = Some d -> Adapter.d_slot d = Z.of_nat k mod 2.
Proof.
  intros E a0 a fs ds Hcount Hrun Hstart Hds.
  assert (Ha : Adapter.buffer_count a = 2 /\ Adapter.current_buffer a = 1).
  { unfold Adapter.app_stream_adapter_start in Hstart.
    rewrite Hrun in Hstart.
    destruct (Adapter.filename a0) as [name|]; [|discriminate].
    destruct (is_ok (app_extractor_start E name)) eqn:Hs; simpl in Hstart;
      [|inversion Hstart as [[Hr Ha]]; rewrite Hr in Hs; discriminate].
    destruct (app_extractor_get_video_info E name) as [iret [[[w h] f] d]].
    match type of Hstart with
    | context [Adapter.start_extract_task E ?x] =>
        pose proof (start_extract_task_same_stream E x) as Hsame;
        destruct (Adapter.start_extract_task E x) as [ret a1]
    end.
    destruct (is_ok ret) eqn:Hr; simpl in Hstart;
      [|inversion Hstart as [[Hr' Ha]]; rewrite Hr' in Hr; discriminate].
    inversion Hstart; subst a; simpl in *.
    destruct Hsame as (_ & _ & Hb & _ & _ & Hc & _).
    rewrite Hb, Hc.
    destruct (is_ok iret); simpl; rewrite Hcount; split; reflexivity. }
  destruct Ha as [Hbc Hcb].
  induction k as [|k IHk]; intros d Hk.
  - destruct (deliveries_walk_the_ring fs a ds Hbc Hds 0%nat d Hk) as (_ & H0 & _).
    rewrite (H0 eq_refl), Hcb. reflexivity.
  - destruct (nth_error ds k) as [dk|] eqn:Hdk.
    + destruct (deliveries_walk_the_ring fs a ds Hbc Hds k dk Hdk) as (Hr & _ & Hn).
      rewrite (Hn d Hk), (IHk dk eq_refl).
      destruct (ring_of_two_advances (Z.of_nat k mod 2)) as [Hu _].
      { apply Z.mod_pos_bound. lia. }
      rewrite Hu. rewrite Nat2Z.inj_succ. unfold Z.succ.
      rewrite Zplus_mod_idemp_l. reflexivity.
    + exfalso. apply nth_error_None in Hdk.
      assert (Hlt : (S k < List.length ds)%nat).
      { apply nth_error_Some. rewrite Hk. discriminate. }
      lia.
Qed.

(** ** Slideshow timer *)

Ltac slideshow_cases s :=
  let cb := fresh "cb" in
  let iv := fresh "iv" in
  destruct s as [[[| ? | ? ?]|] [[| ? | ? ?]|] cb iv [|] [|]].

Lemma slideshow_init_stopped (interval : Z) (s : Slideshow.t) :
  Slideshow.phase_of (snd (Slideshow.slideshow_ctrl_init interval s))
  = Some Slideshow.Stopped.
Proof. reflexivity. Qed.

Lemma slideshow_start_phase (now : Z) (s : Slideshow.t) :
  Slideshow.consistent s ->
  fst (Slideshow.slideshow_ctrl_start now s) = ESP_OK
  /\ Slideshow.is_running (snd (Slideshow.slideshow_ctrl_start now s)) = true
  /\ Slideshow.phase_of (snd (Slideshow.slideshow_ctrl_start now s))
     = match Slideshow.phase_of s with
       | Some Slideshow.Stopped => Some Slideshow.Running
       | p => p
       end.
Proof.
  unfold Slideshow.consistent. slideshow_cases s; simpl; intros H;
    try (exfalso; apply H; reflexivity); repeat split; reflexivity.
Qed.

Lemma slideshow_stop_phase (s : Slideshow.t) :
  Slideshow.consistent s ->
  fst (Slideshow.slideshow_ctrl_stop s) = ESP_OK
  /\ Slideshow.phase_of (snd (Slideshow.slideshow_ctrl_stop s))
     = Some Slideshow.Stopped.
Proof.
  unfold Slideshow.consistent. slideshow_cases s; simpl; intros H;
    try (exfalso; apply H; reflexivity); repeat split; reflexivity.
Qed.

Lemma slideshow_pause_phase (now : Z) (s : Slideshow.t) :
  Slideshow.consistent s ->
  fst (Slideshow.slideshow_ctrl_pause now s) = ESP_OK
  /\ Slideshow.phase_of (snd (Slideshow.slideshow_ctrl_pause now s))
     = match Slideshow.phase_of s with
       | Some Slideshow.Running => Some Slideshow.ManuallyPaused
       | p => p
       end
  /\ (Slideshow.phase_of s = Some Slideshow.Running ->
      Slideshow.idle_timer (snd (Slideshow.slideshow_ctrl_pause now s))
      = Some (Once (now + Slideshow.IDLE_TIMEOUT_MS * 1000))).
Proof.
  unfold Slideshow.consistent. slideshow_cases s; simpl; intros H;
    try (exfalso; apply H; reflexivity); repeat split;
    try reflexivity; intros; discriminate.
Qed.

Lemma slideshow_resume_phase (now : Z) (s : Slideshow.t) :
  Slideshow.consistent s ->
  fst (Slideshow.slideshow_ctrl_resume now s) = ESP_OK
  /\ Slideshow.phase_of (snd (Slideshow.slideshow_ctrl_resume now s))
     = match Slideshow.phase_of s with
       | Some Slideshow.ManuallyPaused => Some Slideshow.Running
       | p => p
       end.
Proof.
  unfold Slideshow.consistent. slideshow_cases s; simpl; intros H;
    try (exfalso; apply H; reflexivity); repeat split; reflexivity.
Qed.

Lemma slideshow_set_interval_phase (now interval : Z) (s : Slideshow.t) :
  Slideshow.consistent s ->
  Slideshow.phase_of (snd (Slideshow.slideshow_ctrl_set_interval now interval s))
  = Slideshow.phase_of s
  /\ Slideshow.is_running (snd (Slideshow.slideshow_ctrl_set_interval now interval s))
     = Slideshow.is_running s.
Proof.
  unfold Slideshow.consistent. slideshow_cases s; simpl; intros H;
    try (exfalso; apply H; reflexivity); repeat split; reflexivity.
Qed.

(** A manual trigger on a started slideshow: the periodic trigger is (or
    stays) disarmed and the idle timer is armed afresh for the full idle
    timeout. *)
Lemma slideshow_manual_trigger_started (now : Z) (s : Slideshow.t) :
  Slideshow.consistent s ->
  Slideshow.is_running s = true ->
  fst (Slideshow.slideshow_ctrl_manual_trigger now s) = ESP_OK
  /\ Slideshow.phase_of (snd (Slideshow.slideshow_ctrl_manual_trigger now s))
     = Some Slideshow.ManuallyPaused
  /\ Slideshow.timer (snd (Slideshow.slideshow_ctrl_manual_trigger now s))
     = Some Disarmed
  /\ Slideshow.idle_timer (snd (Slideshow.slideshow_ctrl_manual_trigger now s))
     = Some (Once (now + Slideshow.IDLE_TIMEOUT_MS * 1000)).
Proof.
  unfold Slideshow.consistent. slideshow_cases s; simpl; intros H Hrun;
    try discriminate; try (exfalso; apply H; reflexivity);
    repeat split; reflexivity.
Qed.

Lemma slideshow_manual_trigger_stopped (now : Z) (s : Slideshow.t) :
  Slideshow.is_running s = false ->
  Slideshow.slideshow_ctrl_manual_trigger now s = (ESP_ERR_INVALID_STATE, s).
Proof.
  intros H. unfold Slideshow.slideshow_ctrl_manual_trigger. rewrite H. reflexivity.
Qed.

(** The idle timer comes due: it is disarmed, then [idle_timer_callback]
    runs; a manual pause ends in the running state with the periodic
    trigger armed at the stored interval. *)
Lemma slideshow_idle_expiry (now : Z) (s : Slideshow.t) :
  Slideshow.phase_of s = Some Slideshow.ManuallyPaused ->
  let s' := Slideshow.idle_timer_callback now
              (Slideshow.set_idle_timer (after_expiry (Slideshow.idle_timer s)) s) in
  Slideshow.phase_of s' = Some Slideshow.Running
  /\ Slideshow.timer s'
     = Some (Periodic
               (now + Z.max (Slideshow.period_us (Slideshow.interval_ms s)) min_period_us)
               (Z.max (Slideshow.period_us (Slideshow.interval_ms s)) min_period_us)).
Proof.
  slideshow_cases s; simpl; intros H; try discriminate; split; reflexivity.
Qed.

Lemma slideshow_periodic_expiry (s : Slideshow.t) :
  Slideshow.consistent s ->
  Slideshow.phase_of (Slideshow.set_timer (after_expiry (Slideshow.timer s)) s)
  = Slideshow.phase_of s.
Proof.
  unfold Slideshow.consistent. slideshow_cases s; simpl; intros H;
    try (exfalso; apply H; reflexivity); reflexivity.
Qed.

Lemma phase_manually_paused_held (w : world) :
  Slideshow.phase_of (sl w) = Some Slideshow.ManuallyPaused -> held w.
Proof.
  unfold held, Slideshow.periodic_triggers.
  destruct (sl w) as [t i cb iv r m]. slideshow_cases (Slideshow.mk t i cb iv r m);
    simpl; intros H; try discriminate; repeat split; reflexivity.
Qed.

Lemma disarmed_has_no_deadline (h : esp_timer_handle_t) :
  handle_armed h = false -> deadline_of h = None.
Proof. destruct h as [[| |]|]; simpl; intros H; try discriminate; reflexivity. Qed.

(** While only the idle timer is armed and its deadline is ahead, the
    clock runs on and nothing else changes. *)
Lemma quiet_wait :
  forall (E : env) (fuel : nat) (g d : Z) (w : world),
    Slideshow.timer (sl w) = Some Disarmed ->
    Slideshow.idle_timer (sl w) = Some (Once d) ->
    handle_armed (Video.finish_timer (vid w)) = false ->
    0 <= g -> now w + g < d ->
    elapse E fuel g w = Some (set_now (now w + g) w).
Proof.
  intros E fuel g d w Ht Hi Hf Hg Hd.
  assert (Hnext : next_expiry w = Some (d, IdleTimer)).
  { unfold next_expiry, pending, handle_of.
    rewrite Ht, Hi, (disarmed_has_no_deadline _ Hf). reflexivity. }
  assert (Hlate : (d <=? now w + g) = false) by (apply Z.leb_gt; lia).
  unfold elapse.
  destruct fuel; simpl; rewrite Hnext, Hlate; rewrite Z.max_r by lia; reflexivity.
Qed.

Lemma triggers_inside_idle_window :
  forall (E : env) (fuel : nat) (gaps : list Z) (w : world),
    Slideshow.phase_of (sl w) = Some Slideshow.ManuallyPaused ->
    Slideshow.idle_timer (sl w) = Some (Once (now w + idle_window_us)) ->
    handle_armed (Video.finish_timer (vid w)) = false ->
    Forall (fun g => 0 <= g < idle_window_us) gaps ->
    exists steps : list trigger_step,
      repeated_triggers E fuel gaps w = Some steps
      /\ List.length steps = List.length gaps
      /\ Forall (fun st =>
                   held (after_wait st)
                   /\ call_result st = ESP_OK
                   /\ held (after_call st)
                   /\ Slideshow.idle_timer (sl (after_call st))
                      = Some (Once (now (after_call st) + idle_window_us)))
                steps.
Proof.
  intros E fuel gaps. induction gaps as [|g rest IH]; intros w Hphase Hidle Hfin Hgaps.
  - exists []. simpl. repeat split; constructor.
  - inversion Hgaps as [|? ? Hg Hrest]; subst.
    assert (Htimer : Slideshow.timer (sl w) = Some Disarmed).
    { destruct (sl w) as [t i cb iv r m]; simpl in *.
      unfold Slideshow.phase_of in Hphase; simpl in Hphase.
      destruct t as [[| |]|]; try discriminate; try reflexivity;
        subst i; discriminate. }
    simpl. rewrite (quiet_wait E fuel g (now w + idle_window_us) w Htimer Hidle Hfin)
      by lia.
    set (w1 := set_now (now w + g) w).
    assert (Hcons : Slideshow.consistent (sl w1)).
    { unfold Slideshow.consistent. simpl. rewrite Hphase. discriminate. }
    assert (Hrun : Slideshow.is_running (sl w1) = true).
    { destruct (phase_manually_paused_held w Hphase) as [H _]. exact H. }
    destruct (slideshow_manual_trigger_started (now w1) (sl w1) Hcons Hrun)
      as (Hret & Hph & Ht & Hi).
    unfold on_sl.
    destruct (Slideshow.slideshow_ctrl_manual_trigger (now w1) (sl w1))
      as [ret s2] eqn:Hcall.
    simpl in Hret, Hph, Ht, Hi. subst ret.
    set (w2 := set_sl s2 w1).
    destruct (IH w2 Hph Hi Hfin Hrest) as (steps & Hsteps & Hlen & Hall).
    rewrite Hsteps. exists (mk_step w1 ESP_OK w2 :: steps).
    split; [reflexivity|]. split; [simpl; rewrite Hlen; reflexivity|].
    constructor; [|exact Hall]. simpl.
    split; [apply phase_manually_paused_held; exact Hphase|].
    split; [reflexivity|].
    split; [apply phase_manually_paused_held; exact Hph|].
    exact Hi.
Qed.

(** C5: a manual trigger on a started slideshow, followed by any number of
    further manual triggers that each come before the idle timeout of the
    one before has run out: every call returns [ESP_OK] and re-arms the
    idle timer for the full timeout, and in every state of the run (after
    each wait and after each call) the slideshow is held under manual
    control with no periodic trigger armed, so there are never two.  No
    video completion is pending during the run. *)
Theorem repeated_manual_triggers_keep_slideshow_paused :
  forall (E : env) (fuel : nat) (gaps : list Z) (w0 : world),
    Slideshow.consistent (sl w0) ->
    Slideshow.is_running (sl w0) = true ->
    handle_armed (Video.finish_timer (vid w0)) = false ->
    Forall (fun g => 0 <= g < idle_window_us) gaps ->
    let first := on_sl (Slideshow.slideshow_ctrl_manual_trigger (now w0)) w0 in
    fst first = ESP_OK
    /\ held (snd first)
    /\ Slideshow.idle_timer (sl (snd first)) = Some (Once (now w0 + idle_window_us))
    /\ exists steps : list trigger_step,
        repeated_triggers E fuel gaps (snd first) = Some steps
        /\ List.length steps = List.length gaps
        /\ Forall (fun st =>
                     held (after_wait st)
                     /\ call_result st = ESP_OK
                     /\ held (after_call st)
                     /\ (Slideshow.periodic_triggers (sl (after_wait st)) <= 1)%nat
                     /\ (Slideshow.periodic_triggers (sl (after_call st)) <= 1)%nat
                     /\ Slideshow.idle_timer (sl (after_call st))
                        = Some (Once (now (after_call st) + idle_window_us)))
                  steps.
Proof.
  intros E fuel gaps w0 Hcons Hrun Hfin Hgaps first.
  destruct (slideshow_manual_trigger_started (now w0) (sl w0) Hcons Hrun)
    as (Hret & Hph & Ht & Hi).
  subst first. unfold on_sl.
  destruct (Slideshow.slideshow_ctrl_manual_trigger (now w0) (sl w0)) as [ret s1].
  simpl in *. split; [exact Hret|].
  split; [apply phase_manually_paused_held; exact Hph|].
  split; [exact Hi|].
  destruct (triggers_inside_idle_window E fuel gaps (set_sl s1 w0) Hph Hi Hfin Hgaps)
    as (steps & Hsteps & Hlen & Hall).
  exists steps. split; [exact Hsteps|]. split; [exact Hlen|].
  eapply Forall_impl; [|exact Hall].
  intros st (Hw & Hr & Hc & Hidle).
  repeat split; try apply Hw; try apply Hc; try assumption.
  - destruct Hw as (_ & _ & H0). rewrite H0. lia.
  - destruct Hc as (_ & _ & H0). rewrite H0. lia.
Qed.

Lemma repeated_manual_triggers_keep_slideshow_paused_witness :
  Slideshow.is_running (sl Scenario.showing_A) = true
  /\ held (snd (on_sl (Slideshow.slideshow_ctrl_manual_trigger
                         (now Scenario.showing_A)) Scenario.showing_A))
  /\ exists steps : list trigger_step,
      repeated_triggers Scenario.E_spec 0 [1000000; 2999999; 0]
        (snd (on_sl (Slideshow.slideshow_ctrl_manual_trigger
                       (now Scenario.showing_A)) Scenario.showing_A))
      = Some steps
      /\ Forall (fun st => held (after_wait st) /\ held (after_call st)) steps.
Proof.
  assert (Hcons : Slideshow.consistent (sl Scenario.showing_A))
    by (unfold Slideshow.consistent; vm_compute; discriminate).
  assert (Hrun : Slideshow.is_running (sl Scenario.showing_A) = true)
    by reflexivity.
  assert (Hfin : handle_armed (Video.finish_timer (vid Scenario.showing_A)) = false)
    by reflexivity.
  assert (Hgaps : Forall (fun g => 0 <= g < idle_window_us) [1000000; 2999999; 0])
    by (repeat constructor; vm_compute; congruence).
  destruct (repeated_manual_triggers_keep_slideshow_paused
              Scenario.E_spec 0 [1000000; 2999999; 0] Scenario.showing_A
              Hcons Hrun Hfin Hgaps)
    as (_ & Hheld & _ & steps & Hsteps & _ & Hall).
  split; [exact Hrun|]. split; [exact Hheld|].
  exists steps. split; [exact Hsteps|].
  eapply Forall_impl; [|exact Hall].
  intros st (Hw & _ & Hc & _). split; assumption.
Defined.

(** ** Frame pipeline operations *)

Lemma adapter_stop_spec (E : env) (a : Adapter.t) :
  fst (Adapter.app_stream_adapter_stop E a) = ESP_OK
  /\ Adapter.running (snd (Adapter.app_stream_adapter_stop E a)) = false
  /\ Adapter.buffer_count (snd (Adapter.app_stream_adapter_stop E a))
     = Adapter.buffer_count a
  /\ Adapter.audio_dev (snd (Adapter.app_stream_adapter_stop E a))
     = Adapter.audio_dev a.
Proof.
  unfold Adapter.app_stream_adapter_stop.
  destruct (Adapter.running a) eqn:Hr; simpl; auto.
  destruct (stop_extract_task_same_stream E a) as (_ & _ & Hb & _ & _ & _ & _ & _ & _ & Ha).
  auto.
Qed.

(** The frame mutex survives a stop when the task acknowledges in time or
    the mutex can be created again. *)
Definition mutex_survives (E : env) : bool :=
  stop_acknowledged E || xSemaphoreCreateMutex_ok E.

Lemma stop_extract_task_mutex (E : env) (a : Adapter.t) :
  mutex_survives E = true ->
  Adapter.frame_mutex a = true ->
  Adapter.frame_mutex (Adapter.stop_extract_task E a) = true.
Proof.
  unfold mutex_survives, Adapter.stop_extract_task. intros Hs Hm.
  destruct (Adapter.extract_task_handle a); simpl; [|exact Hm].
  destruct (stop_acknowledged E); simpl in *; [exact Hm|].
  rewrite Hm. simpl. exact Hs.
Qed.

Lemma stop_extract_task_handle (E : env) (a : Adapter.t) :
  Adapter.extract_task_handle a = true ->
  Adapter.extract_task_handle (Adapter.stop_extract_task E a) = false.
Proof.
  unfold Adapter.stop_extract_task. intros Hh. rewrite Hh. simpl.
  destruct (stop_acknowledged E); simpl; [reflexivity|].
  destruct (Adapter.frame_mutex a); reflexivity.
Qed.

Lemma adapter_stop_mutex (E : env) (a : Adapter.t) :
  mutex_survives E = true ->
  Adapter.frame_mutex a = true ->
  Adapter.frame_mutex (snd (Adapter.app_stream_adapter_stop E a)) = true.
Proof.
  intros Hs Hm. unfold Adapter.app_stream_adapter_stop.
  destruct (Adapter.running a); simpl; [|exact Hm].
  apply stop_extract_task_mutex; assumption.
Qed.

Lemma adapter_set_file_spec (E : env) (name : string) (audio : bool) (a : Adapter.t) :
  let a' := snd (Adapter.app_stream_adapter_set_file E name audio a) in
  fst (Adapter.app_stream_adapter_set_file E name audio a) = ESP_OK
  /\ Adapter.running a' = false
  /\ Adapter.filename a' = Some name
  /\ Adapter.buffer_count a' = Adapter.buffer_count a
  /\ Adapter.has_info a' = false
  /\ Adapter.duration a' = 0
  /\ (mutex_survives E = true -> Adapter.frame_mutex a = true ->
      Adapter.frame_mutex a' = true).
Proof.
  unfold Adapter.app_stream_adapter_set_file.
  destruct (adapter_stop_spec E a) as (_ & Hr & Hb & _).
  pose proof (adapter_stop_mutex E a) as Hm.
  destruct (Adapter.running a) eqn:Hrun; simpl; repeat split; auto.
Qed.

(** A start that fails leaves the adapter not marked running. *)
Lemma adapter_start_failure_not_running (E : env) (a : Adapter.t) :
  fst (Adapter.app_stream_adapter_start E a) <> ESP_OK ->
  Adapter.running (snd (Adapter.app_stream_adapter_start E a)) = false.
Proof.
  unfold Adapter.app_stream_adapter_start.
  destruct (Adapter.running a) eqn:Hrun; simpl; [congruence|].
  destruct (Adapter.filename a) as [name|]; simpl; [|auto].
  destruct (is_ok (app_extractor_start E name)); simpl; [|auto].
  destruct (app_extractor_get_video_info E name) as [iret [[[w h] f] d]].
  match goal with
  | |- context [Adapter.start_extract_task E ?x] =>
      pose proof (start_extract_task_same_stream E x) as Hsame;
      destruct (Adapter.start_extract_task E x) as [ret a1]
  end.
  destruct Hsame as (_ & _ & _ & _ & Hr & _). simpl in Hr.
  destruct (is_ok ret) eqn:Hok; simpl; [congruence|].
  intros _. rewrite Hr. destruct (is_ok iret); simpl; exact Hrun.
Qed.

(** When the extractor refuses the file, the start fails. *)
Lemma adapter_start_refused (E : env) (a : Adapter.t) (name : string) :
  Adapter.running a = false ->
  Adapter.filename a = Some name ->
  is_ok (app_extractor_start E name) = false ->
  is_ok (fst (Adapter.app_stream_adapter_start E a)) = false.
Proof.
  intros Hrun Hname Hstart. unfold Adapter.app_stream_adapter_start.
  rewrite Hrun, Hname, Hstart. simpl. exact Hstart.
Qed.

Lemma start_extract_task_ok (E : env) (a : Adapter.t) :
  xTaskCreate_ok E = true ->
  mutex_survives E = true ->
  Adapter.frame_mutex a = true ->
  fst (Adapter.start_extract_task E a) = ESP_OK
  /\ Adapter.extract_task_handle (snd (Adapter.start_extract_task E a)) = true
  /\ Adapter.frame_mutex (snd (Adapter.start_extract_task E a)) = true.
Proof.
  intros Htask Hsurv Hmutex. unfold Adapter.start_extract_task.
  assert (Hm : Adapter.frame_mutex
                 (if Adapter.extract_task_handle a
                  then Adapter.stop_extract_task E a else a) = true).
  { destruct (Adapter.extract_task_handle a); [|exact Hmutex].
    apply stop_extract_task_mutex; assumption. }
  rewrite Hm, Htask. simpl. repeat split; try reflexivity. exact Hm.
Qed.

(** A start on a healthy pipeline: the adapter runs, the task exists, and
    the stream information is what the extractor reports. *)
Lemma adapter_start_ok (E : env) (a : Adapter.t) (name : string) :
  Adapter.running a = false ->
  Adapter.filename a = Some name ->
  app_extractor_start E name = ESP_OK ->
  xTaskCreate_ok E = true ->
  mutex_survives E = true ->
  Adapter.frame_mutex a = true ->
  let a' := snd (Adapter.app_stream_adapter_start E a) in
  fst (Adapter.app_stream_adapter_start E a) = ESP_OK
  /\ Adapter.running a' = true
  /\ Adapter.extract_task_handle a' = true
  /\ Adapter.frame_mutex a' = true
  /\ Adapter.filename a' = Some name
  /\ Adapter.buffer_count a' = Adapter.buffer_count a
  /\ Adapter.app_stream_adapter_get_info a'
     = (if is_ok (fst (app_extractor_get_video_info E name))
        then (ESP_OK, snd (snd (app_extractor_get_video_info E name)))
        else (ESP_ERR_NOT_FOUND, 0)).
Proof.
  intros Hrun Hname Hstart Htask Hsurv Hmutex.
  unfold Adapter.app_stream_adapter_start, Adapter.app_stream_adapter_get_info.
  rewrite Hrun, Hname, Hstart. simpl.
  destruct (app_extractor_get_video_info E name) as [iret [[[w h] f] d]]. simpl.
  match goal with
  | |- context [Adapter.start_extract_task E ?x] =>
      pose proof (start_extract_task_same_stream E x) as Hsame;
      assert (Hmx : Adapter.frame_mutex x = true)
        by (destruct (is_ok iret); simpl; exact Hmutex);
      destruct (start_extract_task_ok E x Htask Hsurv Hmx) as (Hret & Hh & Hm);
      destruct (Adapter.start_extract_task E x) as [ret a1]
  end.
  simpl in Hret, Hh, Hm, Hsame. subst ret. simpl.
  destruct Hsame as (_ & _ & Hb & Hf & _ & _ & _ & Hi & Hd & _).
  rewrite Hi, Hd, Hb, Hf.
  destruct (is_ok iret); simpl; repeat split; auto.
Qed.

Arguments Adapter.app_stream_adapter_stop : simpl never.
Arguments Adapter.app_stream_adapter_set_file : simpl never.
Arguments Adapter.app_stream_adapter_start : simpl never.
Arguments Adapter.app_stream_adapter_get_info : simpl never.
Arguments store_path : simpl never.
Arguments finish_timeout_us : simpl never.

(** ** Video playback controller *)

(** The parts of the world the video controller never writes. *)
Definition outside_video (w w' : world) : Prop :=
  sl w' = sl w /\ alb w' = alb w /\ now w' = now w
  /\ selected_interval w' = selected_interval w.

Lemma on_vid_spec (f : Video.t -> video_result) (w : world) :
  fst (on_vid f w) = fst (f (vid w))
  /\ vid (snd (on_vid f w)) = fst (snd (f (vid w)))
  /\ trace (snd (on_vid f w)) = snd (snd (f (vid w))) ++ trace w
  /\ outside_video w (snd (on_vid f w)).
Proof.
  unfold on_vid, outside_video. destruct (f (vid w)) as [ret [v calls]].
  simpl. repeat split; reflexivity.
Qed.

(** The pipeline can always be started: tasks can be created and the frame
    mutex survives a stop. *)
Definition pipeline_healthy (E : env) : Prop :=
  xTaskCreate_ok E = true /\ mutex_survives E = true.

(** The controller is initialised and its frame mutex exists. *)
Definition player_ready (v : Video.t) : Prop :=
  exists a, Video.adapter v = Some a /\ Adapter.frame_mutex a = true.

(** What the extractor reports as the duration of a file, when it knows a
    nonzero one. *)
Definition known_duration (E : env) (path : string) : option Z :=
  let '(iret, (_, _, _, d)) := app_extractor_get_video_info E path in
  if is_ok iret && (0 <? d) then Some d else None.

Lemma get_info_known_duration (E : env) (path : string) :
  (let '(iret, d) :=
     (if is_ok (fst (app_extractor_get_video_info E path))
      then (ESP_OK, snd (snd (app_extractor_get_video_info E path)))
      else (ESP_ERR_NOT_FOUND, 0)) in
   if is_ok iret && (0 <? d) then Some d else None)
  = known_duration E path.
Proof.
  unfold known_duration.
  destruct (app_extractor_get_video_info E path) as [iret [[[w h] f] d]]. simpl.
  destruct (is_ok iret); reflexivity.
Qed.

(** Arming the completion timer writes the timer and nothing else, and
    what it writes depends on the timer only. *)
Lemma arm_finish_timer_play_spec (E : env) (now d : Z) (v : Video.t) :
  let v' := arm_finish_timer_play E now d v in
  Video.state v' = Video.state v
  /\ Video.adapter v' = Video.adapter v
  /\ Video.current_file v' = Video.current_file v
  /\ Video.has_error v' = Video.has_error v
  /\ Video.finish_timer v'
     = Video.finish_timer
         (arm_finish_timer_play E now d
            (Video.set_finish_timer (Video.finish_timer v) Video.zero)).
Proof.
  destruct v as [a st wd ht pf ad vol cf he ft].
  unfold arm_finish_timer_play, create_finish_timer. simpl.
  destruct ft as [t|]; simpl; [repeat split; reflexivity|].
  destruct (esp_timer_create_ok E); simpl; repeat split; reflexivity.
Qed.

Lemma arm_finish_timer_switch_spec (E : env) (now d : Z) (v : Video.t) :
  let v' := arm_finish_timer_switch E now d v in
  Video.state v' = Video.state v
  /\ Video.adapter v' = Video.adapter v
  /\ Video.current_file v' = Video.current_file v
  /\ Video.has_error v' = Video.has_error v
  /\ Video.finish_timer v'
     = Video.finish_timer
         (arm_finish_timer_switch E now d
            (Video.set_finish_timer (Video.finish_timer v) Video.zero)).
Proof.
  destruct v as [a st wd ht pf ad vol cf he ft].
  unfold arm_finish_timer_switch, create_finish_timer. simpl.
  destruct ft as [t|]; simpl; [repeat split; reflexivity|].
  destruct (esp_timer_create_ok E); simpl; repeat split; reflexivity.
Qed.

Lemma cancel_finish_timer_spec (v : Video.t) :
  let v' := cancel_finish_timer v in
  Video.state v' = Video.state v
  /\ Video.adapter v' = Video.adapter v
  /\ Video.current_file v' = Video.current_file v
  /\ Video.audio_dev v' = Video.audio_dev v
  /\ handle_armed (Video.finish_timer v') = false
  /\ (Video.finish_timer v' = None <-> Video.finish_timer v = None).
Proof.
  destruct v as [a st wd ht pf ad vol cf he ft].
  unfold cancel_finish_timer. simpl.
  destruct ft as [[| |]|]; simpl; repeat split; intros; congruence.
Qed.

Arguments arm_finish_timer_play : simpl never.
Arguments arm_finish_timer_switch : simpl never.
Arguments cancel_finish_timer : simpl never.

(** [video_player_play] on a file the extractor accepts, with a healthy
    pipeline: the controller plays, the pipeline runs, the mode was
    switched to video, and the completion timer is armed exactly when a
    nonzero duration is known. *)
Lemma video_player_play_ok :
  forall (E : env) (now : Z) (path : string) (v : Video.t),
    pipeline_healthy E ->
    player_ready v ->
    app_extractor_start E path = ESP_OK ->
    exists v' a',
      video_player_play E now path v
      = (ESP_OK, (v', [SwitchMode UI_MODE_VIDEO; VideoPlay path]))
      /\ Video.state v' = VIDEO_STATE_PLAYING
      /\ Video.adapter v' = Some a'
      /\ Adapter.running a' = true
      /\ Adapter.extract_task_handle a' = true
      /\ Adapter.frame_mutex a' = true
      /\ Video.current_file v' = store_path path
      /\ Video.finish_timer v'
         = match known_duration E path with
           | Some d =>
               Video.finish_timer
                 (arm_finish_timer_play E now d
                    (Video.set_finish_timer (Video.finish_timer v) Video.zero))
           | None => Video.finish_timer v
           end.
Proof.
  intros E now path v [Htask Hsurv] (a & Ha & Hm) Hstart.
  unfold video_player_play. rewrite Ha.
  destruct (adapter_set_file_spec E path (Video.audio_dev v) a)
    as (Hr1 & Hrun1 & Hname1 & _ & _ & _ & Hm1).
  cbv beta iota zeta.
  change (Video.audio_dev
            (Video.set_has_error false
               (Video.set_current_file (store_path path) v)))
    with (Video.audio_dev v).
  destruct (Adapter.app_stream_adapter_set_file E path (Video.audio_dev v) a)
    as [r1 a1].
  cbv beta iota zeta in Hr1, Hrun1, Hname1, Hm1. simpl fst in Hr1.
  simpl snd in Hrun1, Hname1, Hm1. subst r1.
  change (negb (is_ok ESP_OK)) with false. cbv beta iota zeta.
  destruct (adapter_start_ok E a1 path Hrun1 Hname1 Hstart Htask Hsurv (Hm1 Hsurv Hm))
    as (Hr2 & Hrun2 & Hh2 & Hm2 & _ & _ & Hinfo).
  destruct (Adapter.app_stream_adapter_start E a1) as [r2 a2].
  simpl fst in Hr2. simpl snd in Hrun2, Hh2, Hm2, Hinfo. subst r2.
  change (is_ok ESP_OK) with true. cbv beta iota zeta.
  pose proof (get_info_known_duration E path) as Hk.
  rewrite <- Hinfo in Hk.
  destruct (Adapter.app_stream_adapter_get_info a2) as [iret d].
  destruct (is_ok iret && (0 <? d)) eqn:Hcond; rewrite <- Hk.
  - eexists. exists a2. split; [reflexivity|].
    match goal with
    | |- context [arm_finish_timer_play E now d ?x] =>
        destruct (arm_finish_timer_play_spec E now d x) as (Hs & Had & Hcf & _ & Hft)
    end.
    rewrite Hs, Had, Hcf, Hft. repeat split; assumption || reflexivity.
  - eexists. exists a2. split; [reflexivity|].
    repeat split; assumption || reflexivity.
Qed.

Lemma start_extract_task_success (E : env) (a : Adapter.t) :
  fst (Adapter.start_extract_task E a) = ESP_OK ->
  Adapter.extract_task_handle (snd (Adapter.start_extract_task E a)) = true.
Proof.
  unfold Adapter.start_extract_task.
  repeat (break_goal; simpl); intros H; try discriminate; reflexivity.
Qed.

(** A start that succeeds from a stopped adapter leaves it running with
    its extraction task created. *)
Lemma adapter_start_success (E : env) (a : Adapter.t) :
  Adapter.running a = false ->
  fst (Adapter.app_stream_adapter_start E a) = ESP_OK ->
  Adapter.running (snd (Adapter.app_stream_adapter_start E a)) = true
  /\ Adapter.extract_task_handle (snd (Adapter.app_stream_adapter_start E a)) = true.
Proof.
  intros Hrun. unfold Adapter.app_stream_adapter_start. rewrite Hrun.
  destruct (Adapter.filename a) as [name|]; simpl; [|discriminate].
  destruct (is_ok (app_extractor_start E name)) eqn:Hs; simpl.
  - destruct (app_extractor_get_video_info E name) as [iret [[[w h] f] d]].
    match goal with
    | |- context [Adapter.start_extract_task E ?x] =>
        pose proof (start_extract_task_success E x) as Hh;
        destruct (Adapter.start_extract_task E x) as [ret a1]
    end.
    simpl in Hh. destruct (is_ok ret) eqn:Hok; simpl.
    + intros _. apply is_ok_true in Hok. auto.
    + intros H. rewrite H in Hok. discriminate.
  - intros H. rewrite H in Hs. discriminate.
Qed.

(** The controller and its pipeline agree: the adapter is marked running
    exactly in the playing and paused states, and then its extraction task
    exists; without an adapter the controller is stopped. *)
Definition coherent (v : Video.t) : Prop :=
  match Video.adapter v with
  | None => Video.state v = VIDEO_STATE_STOPPED
  | Some a =>
      (Adapter.running a = true <-> is_playing_or_paused (Video.state v) = true)
      /\ (Adapter.running a = true -> Adapter.extract_task_handle a = true)
  end.

Definition stopped_or_error (s : video_state_t) : Prop :=
  s = VIDEO_STATE_STOPPED \/ s = VIDEO_STATE_ERROR.

(** Every way [video_player_play] can end. *)
Lemma video_player_play_cases :
  forall (E : env) (now : Z) (path : string) (v : Video.t),
    let '(ret, (v', calls)) := video_player_play E now path v in
    (Video.adapter v = None /\ ret = ESP_ERR_INVALID_STATE /\ v' = v
     /\ calls = [VideoPlay path])
    \/ (ret <> ESP_OK /\ Video.state v' = VIDEO_STATE_ERROR
        /\ Video.has_error v' = true /\ calls = [VideoPlay path]
        /\ exists a', Video.adapter v' = Some a' /\ Adapter.running a' = false)
    \/ (ret = ESP_OK /\ Video.state v' = VIDEO_STATE_PLAYING
        /\ calls = [SwitchMode UI_MODE_VIDEO; VideoPlay path]
        /\ exists a', Video.adapter v' = Some a' /\ Adapter.running a' = true
                      /\ Adapter.extract_task_handle a' = true).
Proof.
  intros E now path v. unfold video_player_play.
  destruct (Video.adapter v) as [a|] eqn:Ha; [|left; auto].
  cbv beta iota zeta.
  change (Video.audio_dev
            (Video.set_has_error false
               (Video.set_current_file (store_path path) v)))
    with (Video.audio_dev v).
  destruct (adapter_set_file_spec E path (Video.audio_dev v) a)
    as (Hr1 & Hrun1 & _).
  destruct (Adapter.app_stream_adapter_set_file E path (Video.audio_dev v) a)
    as [r1 a1].
  simpl fst in Hr1. simpl snd in Hrun1. subst r1.
  change (negb (is_ok ESP_OK)) with false. cbv beta iota zeta.
  pose proof (adapter_start_success E a1 Hrun1) as Hok.
  pose proof (adapter_start_failure_not_running E a1) as Hfail.
  destruct (Adapter.app_stream_adapter_start E a1) as [r2 a2].
  simpl fst in Hok, Hfail. simpl snd in Hok, Hfail.
  destruct (is_ok r2) eqn:Hr2.
  - apply is_ok_true in Hr2. subst r2. destruct (Hok eq_refl) as [Hrun2 Hh2].
    destruct (Adapter.app_stream_adapter_get_info a2) as [iret d].
    right; right.
    destruct (is_ok iret && (0 <? d)).
    + match goal with
      | |- context [arm_finish_timer_play E now d ?x] =>
          destruct (arm_finish_timer_play_spec E now d x) as (Hs & Had & _)
      end.
      rewrite Hs, Had. repeat split; try reflexivity. exists a2. auto.
    + repeat split; try reflexivity. exists a2. auto.
  - apply is_ok_false in Hr2. right; left.
    repeat split; try assumption; try reflexivity.
    exists a2. split; [reflexivity|]. apply Hfail. exact Hr2.
Qed.

(** Every way [video_player_switch_file] can end. *)
Lemma video_player_switch_file_cases :
  forall (E : env) (now : Z) (path : option string) (v : Video.t),
    let '(ret, (v', calls)) := video_player_switch_file E now path v in
    calls = [VideoSwitch path]
    /\ ((Video.adapter v = None /\ ret = ESP_ERR_INVALID_STATE /\ v' = v)
        \/ (path = None /\ ret = ESP_ERR_INVALID_ARG /\ v' = v)
        \/ (ret <> ESP_OK /\ Video.state v' = VIDEO_STATE_ERROR
            /\ Video.has_error v' = true
            /\ exists a', Video.adapter v' = Some a' /\ Adapter.running a' = false)
        \/ (ret = ESP_OK /\ Video.state v' = VIDEO_STATE_PLAYING
            /\ exists a', Video.adapter v' = Some a' /\ Adapter.running a' = true
                          /\ Adapter.extract_task_handle a' = true)).
Proof.
  intros E now path v. unfold video_player_switch_file.
  destruct (Video.adapter v) as [a|] eqn:Ha; [|split; [reflexivity|left; auto]].
  destruct path as [path|]; [|split; [reflexivity|right; left; auto]].
  cbv beta iota zeta.
  set (v1 := cancel_finish_timer (Video.set_current_file (store_path path) v)).
  set (a0 := if negb (video_state_eqb (Video.state v1) VIDEO_STATE_STOPPED)
             then snd (Adapter.app_stream_adapter_stop E a) else a).
  set (audio := Video.audio_dev
                  (Video.set_playback_finished false (Video.set_has_error false v1))).
  destruct (adapter_set_file_spec E path audio a0) as (Hr1 & Hrun1 & _).
  destruct (Adapter.app_stream_adapter_set_file E path audio a0) as [r1 a1].
  simpl fst in Hr1. simpl snd in Hrun1. subst r1.
  change (negb (is_ok ESP_OK)) with false. cbv beta iota zeta.
  pose proof (adapter_start_success E a1 Hrun1) as Hok.
  pose proof (adapter_start_failure_not_running E a1) as Hfail.
  destruct (Adapter.app_stream_adapter_start E a1) as [r2 a2].
  simpl fst in Hok, Hfail. simpl snd in Hok, Hfail.
  destruct (is_ok r2) eqn:Hr2.
  - apply is_ok_true in Hr2. subst r2. destruct (Hok eq_refl) as [Hrun2 Hh2].
    destruct (Adapter.app_stream_adapter_get_info a2) as [iret d].
    split; [reflexivity|].
    right; right; right.
    destruct (is_ok iret && (0 <? d)).
    + match goal with
      | |- context [arm_finish_timer_switch E now d ?x] =>
          destruct (arm_finish_timer_switch_spec E now d x) as (Hs & Had & _)
      end.
      rewrite Hs, Had. repeat split; try reflexivity. exists a2. auto.
    + repeat split; try reflexivity. exists a2. auto.
  - apply is_ok_false in Hr2. split; [reflexivity|]. right; right; left.
    repeat split; try assumption; try reflexivity.
    exists a2. split; [reflexivity|]. apply Hfail. exact Hr2.
Qed.

(** Every way [video_player_pause] can end. *)
Lemma video_player_pause_cases :
  forall (v : Video.t),
    coherent v ->
    let '(ret, (v', calls)) := video_player_pause v in
    calls = [] /\ coherent v'
    /\ (ret <> ESP_OK -> Video.state v' = VIDEO_STATE_ERROR)
    /\ (ret = ESP_OK ->
        Video.state v'
        = match Video.state v with
          | VIDEO_STATE_PLAYING => VIDEO_STATE_PAUSED
          | s => s
          end).
Proof.
  intros v. unfold coherent, video_player_pause, Adapter.app_stream_adapter_pause.
  destruct v as [[a|] st wd ht pf ad vol cf he ft]; simpl.
  - destruct st; simpl; intros [Hiff Hh];
      try (split; [reflexivity|];
           split; [exact (conj Hiff Hh)|];
           split; [congruence|reflexivity]).
    destruct (Adapter.running a) eqn:Hr; simpl.
    + split; [reflexivity|]. split; [|split; [congruence|reflexivity]].
      simpl. rewrite Hr. split; [split; reflexivity|exact Hh].
    + destruct Hiff as [_ Hback]. specialize (Hback eq_refl). discriminate.
  - intros Hst. subst st. simpl.
    split; [reflexivity|]. split; [reflexivity|]. split; [congruence|reflexivity].
Qed.

(** Every way [video_player_resume] can end. *)
Lemma video_player_resume_cases :
  forall (v : Video.t),
    coherent v ->
    let '(ret, (v', calls)) := video_player_resume v in
    calls = [] /\ coherent v'
    /\ (ret <> ESP_OK -> Video.state v' = VIDEO_STATE_ERROR)
    /\ (ret = ESP_OK ->
        Video.state v'
        = match Video.state v with
          | VIDEO_STATE_PAUSED => VIDEO_STATE_PLAYING
          | s => s
          end).
Proof.
  intros v. unfold coherent, video_player_resume, Adapter.app_stream_adapter_resume.
  destruct v as [[a|] st wd ht pf ad vol cf he ft]; simpl.
  - destruct st; simpl; intros [Hiff Hh];
      try (split; [reflexivity|];
           split; [exact (conj Hiff Hh)|];
           split; [congruence|reflexivity]).
    destruct (Adapter.running a) eqn:Hr; simpl.
    + split; [reflexivity|]. split; [|split; [congruence|reflexivity]].
      simpl. rewrite Hr. split; [split; reflexivity|exact Hh].
    + destruct Hiff as [_ Hback]. specialize (Hback eq_refl). discriminate.
  - intros Hst. subst st. simpl.
    split; [reflexivity|]. split; [reflexivity|]. split; [congruence|reflexivity].
Qed.

(** [video_player_stop] always ends stopped, with the pipeline stopped and
    the completion timer cancelled. *)
Lemma video_player_stop_spec :
  forall (E : env) (v : Video.t),
    coherent v ->
    let '(ret, (v', calls)) := video_player_stop E v in
    ret = ESP_OK /\ calls = [] /\ coherent v'
    /\ Video.state v' = VIDEO_STATE_STOPPED
    /\ (Video.state v <> VIDEO_STATE_STOPPED ->
        handle_armed (Video.finish_timer v') = false)
    /\ (Video.state v = VIDEO_STATE_STOPPED -> v' = v)
    /\ (forall a, Video.adapter v = Some a -> Adapter.frame_mutex a = true ->
                  mutex_survives E = true -> player_ready v').
Proof.
  intros E v Hc. unfold video_player_stop.
  destruct (Video.adapter v) as [a|] eqn:Ha.
  - destruct (video_state_eqb (Video.state v) VIDEO_STATE_STOPPED) eqn:Hs; simpl.
    + assert (Hst : Video.state v = VIDEO_STATE_STOPPED)
        by (destruct (Video.state v); simpl in Hs; congruence).
      repeat split; auto; try congruence.
      intros a0 Ha0 Hm _. exists a0. split; [congruence|exact Hm].
    + destruct (adapter_stop_spec E a) as (_ & Hrun & _).
      pose proof (adapter_stop_mutex E a) as Hmx.
      destruct (Adapter.app_stream_adapter_stop E a) as [r a1].
      simpl snd in Hrun, Hmx.
      match goal with
      | |- context [cancel_finish_timer ?x] =>
          destruct (cancel_finish_timer_spec x) as (Hst & Had & _ & _ & Harm & _)
      end.
      repeat split; try reflexivity.
      * unfold coherent. rewrite Had, Hst. simpl. rewrite Hrun.
        split; [split; discriminate|discriminate].
      * rewrite Hst. reflexivity.
      * intros _. exact Harm.
      * intros Hst'. rewrite Hst' in Hs. discriminate.
      * intros a0 Ha0 Hm Hsurv. exists a1. rewrite Had. simpl.
        assert (a0 = a) by congruence. subst a0. auto.
  - assert (Hst : Video.state v = VIDEO_STATE_STOPPED)
      by (unfold coherent in Hc; rewrite Ha in Hc; exact Hc).
    repeat split; auto; congruence.
Qed.

Lemma coherent_after_failure (v : Video.t) (a : Adapter.t) :
  Video.state v = VIDEO_STATE_ERROR ->
  Video.adapter v = Some a ->
  Adapter.running a = false ->
  coherent v.
Proof.
  intros Hs Ha Hr. unfold coherent. rewrite Ha, Hs, Hr. simpl.
  split; [split; discriminate|discriminate].
Qed.

Lemma coherent_after_start (v : Video.t) (a : Adapter.t) :
  Video.state v = VIDEO_STATE_PLAYING ->
  Video.adapter v = Some a ->
  Adapter.running a = true ->
  Adapter.extract_task_handle a = true ->
  coherent v.
Proof.
  intros Hs Ha Hr Hh. unfold coherent. rewrite Ha, Hs, Hr. simpl.
  split; [split; reflexivity|intros _; exact Hh].
Qed.

Lemma coherent_without_adapter (v : Video.t) :
  coherent v -> Video.adapter v = None -> Video.state v = VIDEO_STATE_STOPPED.
Proof. unfold coherent. intros H Ha. rewrite Ha in H. exact H. Qed.

(** C8, as the code has it: after [play], [switch], [pause] or [resume] on
    a coherent controller the controller is coherent again, so the adapter
    is marked running exactly in the playing and paused states and its task
    then exists; an error return leaves the state stopped or in error,
    except that [switch] with a NULL path returns before it has touched
    anything and leaves the controller as it was; and a failed
    [app_stream_adapter_start] leaves the adapter not marked running. *)
Theorem pipeline_failures_leave_no_half_start :
  forall (E : env) (now : Z) (op : pipeline_op) (v : Video.t),
    coherent v ->
    (let '(ret, (v', _)) := run_op E now op v in
     coherent v'
     /\ (ret <> ESP_OK ->
         stopped_or_error (Video.state v') \/ (op = OpSwitch None /\ v' = v)))
    /\ (forall a : Adapter.t,
           fst (Adapter.app_stream_adapter_start E a) <> ESP_OK ->
           Adapter.running (snd (Adapter.app_stream_adapter_start E a)) = false).
Proof.
  intros E now op v Hc. split; [|intros a; apply adapter_start_failure_not_running].
  destruct op as [path|path| |]; unfold run_op.
  - pose proof (video_player_play_cases E now path v) as H.
    destruct (video_player_play E now path v) as [ret [v' calls]].
    destruct H as [(Ha & Hr & Hv & _) | [(Hr & Hs & _ & _ & a' & Ha' & Hrun)
                                        | (Hr & Hs & _ & a' & Ha' & Hrun & Hh)]].
    + subst v'. split; [exact Hc|]. intros _. left. left.
      apply coherent_without_adapter; assumption.
    + split; [eapply coherent_after_failure; eassumption|].
      intros _. left. right. exact Hs.
    + split; [eapply coherent_after_start; eassumption|]. congruence.
  - pose proof (video_player_switch_file_cases E now path v) as H.
    destruct (video_player_switch_file E now path v) as [ret [v' calls]].
    destruct H as (_ & [(Ha & Hr & Hv) | [(Hp & Hr & Hv)
                      | [(Hr & Hs & _ & a' & Ha' & Hrun)
                        | (Hr & Hs & a' & Ha' & Hrun & Hh)]]]).
    + subst v'. split; [exact Hc|]. intros _. left. left.
      apply coherent_without_adapter; assumption.
    + subst v' path. split; [exact Hc|]. intros _. right. split; reflexivity.
    + split; [eapply coherent_after_failure; eassumption|].
      intros _. left. right. exact Hs.
    + split; [eapply coherent_after_start; eassumption|]. congruence.
  - pose proof (video_player_pause_cases v Hc) as H.
    destruct (video_player_pause v) as [ret [v' calls]].
    destruct H as (_ & Hc' & Herr & _). split; [exact Hc'|].
    intros Hr. left. right. apply Herr. exact Hr.
  - pose proof (video_player_resume_cases v Hc) as H.
    destruct (video_player_resume v) as [ret [v' calls]].
    destruct H as (_ & Hc' & Herr & _). split; [exact Hc'|].
    intros Hr. left. right. apply Herr. exact Hr.
Qed.

(** C8 as stated fails: [switch] with a NULL path while C.mp4 plays returns
    [ESP_ERR_INVALID_ARG] and the state is still playing. *)
Lemma switch_null_path_error_keeps_playing :
  let '(ret, (v', _)) :=
    run_op Scenario.E_spec 0 (OpSwitch None) (vid Scenario.playing_C) in
  ret = ESP_ERR_INVALID_ARG
  /\ Video.state v' = VIDEO_STATE_PLAYING
  /\ ~ stopped_or_error (Video.state v').
Proof.
  vm_compute. split; [reflexivity|]. split; [reflexivity|].
  intros [H|H]; discriminate.
Qed.

Lemma pipeline_failures_leave_no_half_start_witness :
  coherent (vid Scenario.playing_C)
  /\ (let '(ret, (v', _)) :=
        run_op Scenario.E_spec 0 (OpPlay (full_path Scenario.X_mp4))
          (vid Scenario.playing_C) in
      coherent v'
      /\ (ret <> ESP_OK ->
          stopped_or_error (Video.state v')
          \/ (OpPlay (full_path Scenario.X_mp4) = OpSwitch None
              /\ v' = vid Scenario.playing_C))).
Proof.
  assert (Hc : coherent (vid Scenario.playing_C)).
  { unfold coherent. vm_compute. split; [split; reflexivity|reflexivity]. }
  split; [exact Hc|].
  pose proof (pipeline_failures_leave_no_half_start Scenario.E_spec 0
                  (OpPlay (full_path Scenario.X_mp4))
                  (vid Scenario.playing_C) Hc) as H.
  destruct H as [H _].
  exact H.
Defined.
(** ** Completion timer *)

(** The completion timer can be used: it exists or can be created. *)
Definition finish_timer_available (E : env) (v : Video.t) : Prop :=
  Video.finish_timer v <> None \/ esp_timer_create_ok E = true.

Lemma arm_finish_timer_play_armed (E : env) (now d : Z) (v : Video.t) :
  finish_timer_available E v ->
  Video.finish_timer (arm_finish_timer_play E now d v)
  = Some (Once (now + finish_timeout_us d)).
Proof.
  unfold finish_timer_available, arm_finish_timer_play, create_finish_timer.
  destruct v as [a st wd ht pf ad vol cf he ft]. simpl.
  destruct ft as [[| |]|]; simpl; intros [H|H]; try congruence; try reflexivity;
    rewrite H; reflexivity.
Qed.

Lemma arm_finish_timer_switch_armed (E : env) (now d : Z) (v : Video.t) :
  finish_timer_available E v ->
  handle_armed (Video.finish_timer v) = false ->
  Video.finish_timer (arm_finish_timer_switch E now d v)
  = Some (Once (now + finish_timeout_us d)).
Proof.
  unfold finish_timer_available, arm_finish_timer_switch, create_finish_timer.
  destruct v as [a st wd ht pf ad vol cf he ft]. simpl.
  destruct ft as [[| |]|]; simpl; intros [H|H] Harm; try congruence;
    try reflexivity; rewrite H; reflexivity.
Qed.

(** [video_player_switch_file] on a file the extractor accepts, with a
    healthy pipeline, whatever the state before. *)
Lemma video_player_switch_file_ok :
  forall (E : env) (now : Z) (path : string) (v : Video.t),
    pipeline_healthy E ->
    player_ready v ->
    app_extractor_start E path = ESP_OK ->
    exists v' a',
      video_player_switch_file E now (Some path) v
      = (ESP_OK, (v', [VideoSwitch (Some path)]))
      /\ Video.state v' = VIDEO_STATE_PLAYING
      /\ Video.adapter v' = Some a'
      /\ Adapter.running a' = true
      /\ Adapter.extract_task_handle a' = true
      /\ Adapter.frame_mutex a' = true
      /\ Adapter.filename a' = Some path
      /\ Video.current_file v' = store_path path
      /\ Video.finish_timer v'
         = match known_duration E path with
           | Some d =>
               Video.finish_timer
                 (arm_finish_timer_switch E now d
                    (Video.set_finish_timer
                       (Video.finish_timer (cancel_finish_timer v)) Video.zero))
           | None => Video.finish_timer (cancel_finish_timer v)
           end.
Proof.
  intros E now path v [Htask Hsurv] (a & Ha & Hm) Hstart.
  unfold video_player_switch_file. rewrite Ha.
  cbv beta iota zeta.
  set (v1 := cancel_finish_timer (Video.set_current_file (store_path path) v)).
  set (a0 := if negb (video_state_eqb (Video.state v1) VIDEO_STATE_STOPPED)
             then snd (Adapter.app_stream_adapter_stop E a) else a).
  set (audio := Video.audio_dev
                  (Video.set_playback_finished false (Video.set_has_error false v1))).
  assert (Hm0 : Adapter.frame_mutex a0 = true).
  { subst a0. destruct (negb _); [apply adapter_stop_mutex; assumption|exact Hm]. }
  destruct (adapter_set_file_spec E path audio a0)
    as (Hr1 & Hrun1 & Hname1 & _ & _ & _ & Hm1).
  destruct (Adapter.app_stream_adapter_set_file E path audio a0) as [r1 a1].
  simpl fst in Hr1. simpl snd in Hrun1, Hname1, Hm1. subst r1.
  change (negb (is_ok ESP_OK)) with false. cbv beta iota zeta.
  destruct (adapter_start_ok E a1 path Hrun1 Hname1 Hstart Htask Hsurv (Hm1 Hsurv Hm0))
    as (Hr2 & Hrun2 & Hh2 & Hm2 & Hname2 & _ & Hinfo).
  destruct (Adapter.app_stream_adapter_start E a1) as [r2 a2].
  simpl fst in Hr2. simpl snd in Hrun2, Hh2, Hm2, Hname2, Hinfo. subst r2.
  change (is_ok ESP_OK) with true. cbv beta iota zeta.
  pose proof (get_info_known_duration E path) as Hk.
  rewrite <- Hinfo in Hk.
  destruct (Adapter.app_stream_adapter_get_info a2) as [iret d].
  assert (Hft1 : Video.finish_timer v1 = Video.finish_timer (cancel_finish_timer v)).
  { subst v1. unfold cancel_finish_timer. destruct v as [x st wd ht pf ad vol cf he ft].
    simpl. destruct ft; reflexivity. }
  assert (Hcf1 : Video.current_file v1 = store_path path).
  { subst v1.
    destruct (cancel_finish_timer_spec (Video.set_current_file (store_path path) v))
      as (_ & _ & Hcf & _). rewrite Hcf. reflexivity. }
  destruct (is_ok iret && (0 <? d)) eqn:Hcond; rewrite <- Hk.
  - eexists. exists a2. split; [reflexivity|].
    match goal with
    | |- context [arm_finish_timer_switch E now d ?x] =>
        destruct (arm_finish_timer_switch_spec E now d x) as (Hs & Had & Hcf & _ & Hft)
    end.
    rewrite Hs, Had, Hcf, Hft. simpl. rewrite Hft1, Hcf1.
    repeat split; assumption || reflexivity.
  - eexists. exists a2. split; [reflexivity|].
    simpl. rewrite Hft1, Hcf1. repeat split; assumption || reflexivity.
Qed.

(** * Further properties of the orchestrator *)

(** ** Slideshow controller: states and timers *)

Lemma slideshow_op_keeps_phase (now : Z) (op : slideshow_op) (s : Slideshow.t) :
  Slideshow.consistent s -> Slideshow.consistent (run_slideshow_op now op s).
Proof.
  unfold Slideshow.consistent.
  destruct op; slideshow_cases s; simpl; intros H;
    try (exfalso; apply H; reflexivity); discriminate.
Qed.

(** X1: From [slideshow_ctrl_init] on, whatever the controller is called with
    and whichever of its timers expire, it is in one of its three states:
    stopped with both timers disarmed, running with only the periodic
    trigger armed, or manually paused with only the idle timer armed.  The
    two timers are never armed together. *)
Theorem slideshow_always_in_one_of_three_states :
  forall (interval : Z) (s0 : Slideshow.t) (steps : list (Z * slideshow_op)),
    let s := run_slideshow_ops steps
               (snd (Slideshow.slideshow_ctrl_init interval s0)) in
    Slideshow.phase_of s <> None
    /\ handle_armed (Slideshow.timer s) && handle_armed (Slideshow.idle_timer s)
       = false.
Proof.
  intros interval s0 steps.
  assert (Hgen : forall st, Slideshow.consistent st ->
                            Slideshow.consistent (run_slideshow_ops steps st)).
  { induction steps as [|[now op] rest IH]; intros st Hst; simpl; [exact Hst|].
    apply IH. apply slideshow_op_keeps_phase. exact Hst. }
  specialize (Hgen (snd (Slideshow.slideshow_ctrl_init interval s0))).
  assert (Hinit : Slideshow.consistent (snd (Slideshow.slideshow_ctrl_init interval s0)))
    by (unfold Slideshow.consistent; simpl; discriminate).
  specialize (Hgen Hinit). cbv zeta.
  split; [exact Hgen|].
  unfold Slideshow.consistent in Hgen.
  destruct (run_slideshow_ops steps (snd (Slideshow.slideshow_ctrl_init interval s0)))
    as [t i cb iv r m].
  unfold Slideshow.phase_of in Hgen. simpl in *.
  destruct t as [[| |]|]; destruct i as [[| |]|]; simpl; try reflexivity;
    exfalso; apply Hgen; destruct r, m; reflexivity.
Qed.

(** X2: [slideshow_ctrl_stop] always returns [ESP_OK], leaves the controller
    not running and not under manual control, and stopping again changes
    nothing. *)
Theorem slideshow_stop_is_idempotent :
  forall (s : Slideshow.t),
    let s1 := snd (Slideshow.slideshow_ctrl_stop s) in
    fst (Slideshow.slideshow_ctrl_stop s) = ESP_OK
    /\ Slideshow.is_running s1 = false
    /\ Slideshow.slideshow_ctrl_stop s1 = (ESP_OK, s1).
Proof.
  intros s. unfold Slideshow.slideshow_ctrl_stop.
  destruct (Slideshow.is_running s) eqn:Hr; simpl; rewrite ?Hr; simpl;
    repeat split; reflexivity.
Qed.

(** X3: A pause of the running slideshow followed by a resume: the slideshow
    runs again, the idle timer is cancelled, and the periodic trigger is
    armed afresh from the moment of the resume with the stored interval. *)
Theorem slideshow_pause_resume_round_trip :
  forall (t_pause t_resume : Z) (s : Slideshow.t),
    Slideshow.phase_of s = Some Slideshow.Running ->
    let s1 := snd (Slideshow.slideshow_ctrl_pause t_pause s) in
    let s2 := snd (Slideshow.slideshow_ctrl_resume t_resume s1) in
    Slideshow.phase_of s1 = Some Slideshow.ManuallyPaused
    /\ Slideshow.phase_of s2 = Some Slideshow.Running
    /\ Slideshow.timer s2
       = Some (Periodic (t_resume + armed_period (Slideshow.interval_ms s))
                 (armed_period (Slideshow.interval_ms s)))
    /\ Slideshow.idle_timer s2 = Some Disarmed
    /\ Slideshow.interval_ms s2 = Slideshow.interval_ms s.
Proof.
  intros t1 t2 s. slideshow_cases s; simpl; intros H; try discriminate.
  repeat split; reflexivity.
Qed.

Lemma slideshow_pause_resume_round_trip_witness :
  Slideshow.phase_of (sl Scenario.showing_A) = Some Slideshow.Running
  /\ Slideshow.timer
       (snd (Slideshow.slideshow_ctrl_resume 2000000
               (snd (Slideshow.slideshow_ctrl_pause 1000000 (sl Scenario.showing_A)))))
     = Some (Periodic 7000000 5000000).
Proof.
  split; [reflexivity|].
  pose proof (slideshow_pause_resume_round_trip 1000000 2000000
                (sl Scenario.showing_A) eq_refl) as H.
  destruct H as (_ & _ & Ht & _). exact Ht.
Defined.

(** X4: [slideshow_ctrl_set_interval] stores the interval and keeps the state.
    While the slideshow runs, the periodic trigger is restarted at once
    with the new period; while it is stopped or manually paused, neither
    timer is touched. *)
Theorem slideshow_set_interval_effect :
  forall (now interval : Z) (s : Slideshow.t),
    Slideshow.consistent s ->
    let s' := snd (Slideshow.slideshow_ctrl_set_interval now interval s) in
    fst (Slideshow.slideshow_ctrl_set_interval now interval s) = ESP_OK
    /\ Slideshow.interval_ms s' = interval
    /\ Slideshow.phase_of s' = Slideshow.phase_of s
    /\ (Slideshow.phase_of s = Some Slideshow.Running ->
        Slideshow.timer s'
        = Some (Periodic (now + armed_period interval) (armed_period interval)))
    /\ (Slideshow.phase_of s <> Some Slideshow.Running ->
        Slideshow.timer s' = Slideshow.timer s
        /\ Slideshow.idle_timer s' = Slideshow.idle_timer s).
Proof.
  intros now interval s. unfold Slideshow.consistent.
  slideshow_cases s; simpl; intros H; try (exfalso; apply H; reflexivity);
    repeat (split || intro); try reflexivity; try discriminate;
    exfalso; match goal with H' : _ <> _ |- _ => apply H'; reflexivity end.
Qed.

Lemma slideshow_set_interval_effect_witness :
  Slideshow.consistent (sl Scenario.showing_A)
  /\ Slideshow.timer
       (snd (Slideshow.slideshow_ctrl_set_interval 1000000 2000
               (sl Scenario.showing_A)))
     = Some (Periodic 3000000 2000000).
Proof.
  assert (Hc : Slideshow.consistent (sl Scenario.showing_A))
    by (unfold Slideshow.consistent; vm_compute; discriminate).
  split; [exact Hc|].
  pose proof (slideshow_set_interval_effect 1000000 2000 (sl Scenario.showing_A) Hc)
    as H.
  destruct H as (_ & _ & _ & Ht & _). exact (Ht eq_refl).
Defined.

(** X5: The period is computed as [interval_ms * 1000] in 32 bits: intervals up
    to 4294967 ms give the period asked for, and the first larger one
    wraps round to 704 microseconds. *)
Theorem slideshow_period_wraps_at_32_bits :
  forall (interval : Z),
    0 <= interval <= 4294967 ->
    Slideshow.period_us interval = interval * 1000
    /\ Slideshow.period_us 4294968 = 704.
Proof.
  intros interval H. unfold Slideshow.period_us, u32. split; [|reflexivity].
  apply Z.mod_small. lia.
Qed.

Lemma slideshow_period_wraps_at_32_bits_witness :
  Slideshow.period_us 5000 = 5000 * 1000 /\ Slideshow.period_us 4294968 = 704.
Proof.
  apply (slideshow_period_wraps_at_32_bits 5000). lia.
Defined.

(** ** Pauses and the passing of time *)

Lemma running_phase_fields (s : Slideshow.t) :
  Slideshow.phase_of s = Some Slideshow.Running ->
  Slideshow.is_running s = true /\ Slideshow.manual_control s = false
  /\ Slideshow.idle_timer s = Some Disarmed
  /\ exists d p, Slideshow.timer s = Some (Periodic d p).
Proof.
  slideshow_cases s; simpl; intros H; try discriminate.
  repeat split; eauto.
Qed.


Lemma elapse_until_fires (E : env) (fuel : nat) (target d : Z) (id : timer_id)
      (w : world) :
  next_expiry w = Some (d, id) ->
  d <= target ->
  elapse_until E (S fuel) target w
  = elapse_until E fuel target (fire E id (set_now (Z.max (now w) d) w)).
Proof.
  intros Hn Hd. simpl. rewrite Hn.
  assert (Hle : (d <=? target) = true) by (apply Z.leb_le; exact Hd).
  rewrite Hle. reflexivity.
Qed.

Lemma elapse_until_rests (E : env) (fuel : nat) (target d : Z) (id : timer_id)
      (w : world) :
  next_expiry w = Some (d, id) ->
  target < d ->
  elapse_until E fuel target w = Some (set_now (Z.max (now w) target) w).
Proof.
  intros Hn Hd.
  assert (Hgt : (d <=? target) = false) by (apply Z.leb_gt; exact Hd).
  destruct fuel; simpl; rewrite Hn, Hgt; reflexivity.
Qed.

Lemma elapse_until_idle (E : env) (fuel : nat) (target : Z) (w : world) :
  next_expiry w = None ->
  elapse_until E fuel target w = Some (set_now (Z.max (now w) target) w).
Proof.
  intros Hn. destruct fuel; simpl; rewrite Hn; reflexivity.
Qed.

Lemma next_expiry_idle_only (w : world) (d : Z) :
  Slideshow.timer (sl w) = Some Disarmed ->
  Slideshow.idle_timer (sl w) = Some (Once d) ->
  handle_armed (Video.finish_timer (vid w)) = false ->
  next_expiry w = Some (d, IdleTimer).
Proof.
  intros Ht Hi Hf. unfold next_expiry, pending, handle_of.
  rewrite Ht, Hi, (disarmed_has_no_deadline _ Hf). reflexivity.
Qed.

Lemma next_expiry_periodic_only (w : world) (d p : Z) :
  Slideshow.timer (sl w) = Some (Periodic d p) ->
  Slideshow.idle_timer (sl w) = Some Disarmed ->
  handle_armed (Video.finish_timer (vid w)) = false ->
  next_expiry w = Some (d, SlideshowTimer).
Proof.
  intros Ht Hi Hf. unfold next_expiry, pending, handle_of.
  rewrite Ht, Hi, (disarmed_has_no_deadline _ Hf). reflexivity.
Qed.

Lemma next_expiry_none (w : world) :
  Slideshow.timer (sl w) = Some Disarmed ->
  Slideshow.idle_timer (sl w) = Some Disarmed ->
  handle_armed (Video.finish_timer (vid w)) = false ->
  next_expiry w = None.
Proof.
  intros Ht Hi Hf. unfold next_expiry, pending, handle_of.
  rewrite Ht, Hi, (disarmed_has_no_deadline _ Hf). reflexivity.
Qed.

Lemma armed_period_positive (interval : Z) : 0 < armed_period interval.
Proof. unfold armed_period, min_period_us. lia. Qed.

Lemma slideshow_pause_keeps_interval (now : Z) (s : Slideshow.t) :
  Slideshow.interval_ms (snd (Slideshow.slideshow_ctrl_pause now s))
  = Slideshow.interval_ms s.
Proof.
  unfold Slideshow.slideshow_ctrl_pause.
  destruct (negb (Slideshow.is_running s) || Slideshow.manual_control s);
    reflexivity.
Qed.

(** X6: [photo_album_pause] on the running slideshow, then the idle timeout
    with no call in between and no video completion pending: the idle
    timer fires once, the slideshow runs again with its periodic trigger
    armed from that moment, and the stored pause reason is still the user
    pause, which only [photo_album_resume] clears. *)
Theorem user_pause_ends_after_idle_timeout :
  forall (E : env) (fuel : nat) (w : world),
    Album.initialized (alb w) = true ->
    Slideshow.phase_of (sl w) = Some Slideshow.Running ->
    handle_armed (Video.finish_timer (vid w)) = false ->
    let w1 := snd (photo_album_pause w) in
    fst (photo_album_pause w) = ESP_OK
    /\ Slideshow.phase_of (sl w1) = Some Slideshow.ManuallyPaused
    /\ exists w2,
        elapse E (S fuel) idle_window_us w1 = Some w2
        /\ now w2 = now w + idle_window_us
        /\ Slideshow.phase_of (sl w2) = Some Slideshow.Running
        /\ Slideshow.timer (sl w2)
           = Some (Periodic
                     (now w + idle_window_us
                      + armed_period (Slideshow.interval_ms (sl w)))
                     (armed_period (Slideshow.interval_ms (sl w))))
        /\ Album.pause_reason (alb w2) = PAUSE_REASON_USER.
Proof.
  intros E fuel w Hinit Hphase Hfin.
  pose proof (slideshow_pause_phase (now w) (sl w)) as Hp.
  assert (Hcons : Slideshow.consistent (sl w))
    by (unfold Slideshow.consistent; rewrite Hphase; discriminate).
  destruct (Hp Hcons) as (Hret & Hph1 & Hidle1). rewrite Hphase in Hph1.
  specialize (Hidle1 Hphase).
  pose proof (slideshow_pause_keeps_interval (now w) (sl w)) as Hiv.
  unfold photo_album_pause. rewrite Hinit. simpl negb. cbv iota beta zeta.
  unfold on_sl. simpl now. simpl sl.
  destruct (Slideshow.slideshow_ctrl_pause (now w) (sl w)) as [ret s1].
  simpl in Hret, Hph1, Hidle1, Hiv. subst ret. simpl fst. simpl snd.
  split; [reflexivity|]. split; [exact Hph1|].
  set (w1 := set_sl s1 (set_alb (Album.set_pause_reason PAUSE_REASON_USER (alb w)) w)).
  assert (Ht1 : Slideshow.timer s1 = Some Disarmed).
  { destruct s1 as [t i cb iv r m]. unfold Slideshow.phase_of in Hph1. simpl in *.
    destruct t as [[| |]|]; try discriminate; try reflexivity;
      subst i; discriminate. }
  assert (Hn1 : next_expiry w1 = Some (now w + idle_window_us, IdleTimer)).
  { apply next_expiry_idle_only; [exact Ht1|exact Hidle1|exact Hfin]. }
  unfold elapse. change (now w1) with (now w).
  rewrite (elapse_until_fires E fuel _ _ _ w1 Hn1) by lia.
  change (now w1) with (now w).
  assert (Hwin : 0 < idle_window_us) by (vm_compute; reflexivity).
  rewrite Z.max_r by lia.
  destruct (slideshow_idle_expiry (now w + idle_window_us) s1 Hph1) as (Hph2 & Ht2).
  set (w2 := fire E IdleTimer (set_now (now w + idle_window_us) w1)).
  assert (Hsl2 : sl w2
                 = Slideshow.idle_timer_callback (now w + idle_window_us)
                     (Slideshow.set_idle_timer
                        (after_expiry (Slideshow.idle_timer s1)) s1))
    by reflexivity.
  assert (Hidle2 : Slideshow.idle_timer (sl w2) = Some Disarmed).
  { rewrite Hsl2. destruct s1 as [t i cb iv r m].
    unfold Slideshow.phase_of in Hph1. simpl in *.
    destruct t as [[| |]|]; try discriminate;
      destruct i as [[| |]|]; try discriminate;
      destruct r; try discriminate; destruct m; try discriminate. reflexivity. }
  assert (Hn2 : next_expiry w2
                = Some (now w + idle_window_us
                        + armed_period (Slideshow.interval_ms s1), SlideshowTimer)).
  { eapply next_expiry_periodic_only.
    - rewrite Hsl2. exact Ht2.
    - exact Hidle2.
    - exact Hfin. }
  pose proof (armed_period_positive (Slideshow.interval_ms s1)) as Hpos.
  rewrite (elapse_until_rests E fuel _ _ _ w2 Hn2) by lia.
  eexists. split; [reflexivity|].
  change (now w2) with (now w + idle_window_us).
  rewrite Z.max_id.
  split; [reflexivity|].
  change (sl (set_now (now w + idle_window_us) w2)) with (sl w2).
  rewrite Hsl2.
  split; [exact Hph2|]. split; [|reflexivity].
  rewrite Ht2, Hiv. reflexivity.
Qed.

Lemma user_pause_ends_after_idle_timeout_witness :
  Slideshow.phase_of (sl Scenario.showing_A) = Some Slideshow.Running
  /\ exists w2,
      elapse Scenario.E_spec 1 idle_window_us
        (snd (photo_album_pause Scenario.showing_A)) = Some w2
      /\ Slideshow.phase_of (sl w2) = Some Slideshow.Running.
Proof.
  split; [reflexivity|].
  pose proof (user_pause_ends_after_idle_timeout Scenario.E_spec 0
                Scenario.showing_A eq_refl eq_refl eq_refl) as H.
  destruct H as (_ & _ & w2 & He & _ & Hp & _).
  exists w2. split; assumption.
Defined.

(** X7: [photo_album_pause_for_usb] with no video completion pending: both
    timers of the slideshow are disarmed, so however long the clock runs
    with no call from outside, nothing fires and the slideshow stays
    stopped with the USB pause reason stored. *)
Theorem usb_pause_holds_while_no_timer_is_armed :
  forall (E : env) (fuel : nat) (duration_us : Z) (w : world),
    Album.initialized (alb w) = true ->
    Slideshow.consistent (sl w) ->
    handle_armed (Video.finish_timer (vid w)) = false ->
    0 <= duration_us ->
    let w1 := snd (photo_album_pause_for_usb w) in
    fst (photo_album_pause_for_usb w) = ESP_OK
    /\ Slideshow.phase_of (sl w1) = Some Slideshow.Stopped
    /\ Album.pause_reason (alb w1) = PAUSE_REASON_USB
    /\ elapse E fuel duration_us w1 = Some (set_now (now w + duration_us) w1).
Proof.
  intros E fuel d w Hinit Hcons Hfin Hd.
  unfold photo_album_pause_for_usb. rewrite Hinit. simpl negb. cbv iota.
  destruct w as [s v a sel t tr]. simpl in *.
  unfold Slideshow.consistent in Hcons.
  assert (Hnone : deadline_of (Video.finish_timer v) = None)
    by (apply disarmed_has_no_deadline; exact Hfin).
  slideshow_cases s; simpl in Hcons; try (exfalso; apply Hcons; reflexivity);
    unfold on_sl, elapse; simpl;
    (split; [reflexivity|]); (split; [reflexivity|]); (split; [reflexivity|]);
    destruct fuel; simpl; unfold next_expiry, pending, handle_of; simpl;
    rewrite Hnone; simpl; rewrite Z.max_r by lia; reflexivity.
Qed.

Lemma usb_pause_holds_while_no_timer_is_armed_witness :
  Slideshow.consistent (sl Scenario.showing_A)
  /\ elapse Scenario.E_spec 0 3600000000
       (snd (photo_album_pause_for_usb Scenario.showing_A))
     = Some (set_now (now Scenario.showing_A + 3600000000)
               (snd (photo_album_pause_for_usb Scenario.showing_A))).
Proof.
  assert (Hc : Slideshow.consistent (sl Scenario.showing_A))
    by (unfold Slideshow.consistent; vm_compute; discriminate).
  split; [exact Hc|].
  assert (Hd : 0 <= 3600000000) by lia.
  pose proof (usb_pause_holds_while_no_timer_is_armed Scenario.E_spec 0 3600000000
                Scenario.showing_A eq_refl Hc eq_refl Hd) as H.
  destruct H as (_ & _ & _ & He). exact He.
Defined.

(** ** Frame pipeline: frames that are dropped *)

(** X8: A frame that is not video, is larger than the JPEG buffer, or arrives
    while the frame lock cannot be taken within its timeout is dropped
    before the decoder is reached: the adapter's buffer index, frame
    count and stream information are as before and nothing reaches the
    frame callback.  An audio frame counts as success, an oversized frame
    is [ESP_ERR_NO_MEM], a lock timeout is [ESP_ERR_TIMEOUT]. *)
Theorem undecodable_frame_leaves_adapter_untouched :
  forall (f : Adapter.frame) (a : Adapter.t),
    Adapter.is_video f = false
    \/ Adapter.jpeg_buffer_size a < Adapter.frame_size f
    \/ Adapter.mutex_taken f = false ->
    Adapter.extractor_frame_callback f a
    = (if negb (Adapter.is_video f) then ESP_OK
       else if Adapter.jpeg_buffer_size a <? Adapter.frame_size f
            then ESP_ERR_NO_MEM else ESP_ERR_TIMEOUT,
       a, None).
Proof.
  intros f a H. unfold Adapter.extractor_frame_callback.
  destruct (Adapter.is_video f); simpl; [|reflexivity].
  destruct (Adapter.jpeg_buffer_size a <? Adapter.frame_size f) eqn:Hsz;
    [reflexivity|].
  destruct H as [H|[H|H]]; [discriminate| |].
  - apply Z.ltb_ge in Hsz. lia.
  - rewrite H. reflexivity.
Qed.

Lemma undecodable_frame_leaves_adapter_untouched_witness :
  Adapter.extractor_frame_callback
    (Adapter.mk_frame true 4000 (ESP_OK, (640, 480)) (ESP_OK, 614400) false)
    Scenario.started_adapter
  = (ESP_ERR_TIMEOUT, Scenario.started_adapter, None).
Proof.
  apply (undecodable_frame_leaves_adapter_untouched
           (Adapter.mk_frame true 4000 (ESP_OK, (640, 480)) (ESP_OK, 614400) false)
           Scenario.started_adapter).
  right. right. reflexivity.
Defined.

Lemma u32_succ_pred (x : Z) : u32 (u32 (x + 1) - 1) = u32 x.
Proof.
  unfold u32. rewrite Zminus_mod_idemp_l. f_equal. lia.
Qed.

Lemma failed_decode_step :
  forall (f : Adapter.frame) (a : Adapter.t),
    fails_in_decode a f ->
    buffers_allocated a ->
    0 < Adapter.buffer_count a ->
    Adapter.extractor_frame_callback f a
    = (fst (Adapter.jpeg_process f),
       Adapter.set_current_buffer
         (u32 (Adapter.current_buffer a + 1) mod Adapter.buffer_count a) a,
       None).
Proof.
  intros f a (Hv & Hsz & Hm & Hi & Hp) [Hlen Hall] Hpos.
  unfold Adapter.extractor_frame_callback, Adapter.decode_jpeg_frame.
  rewrite Hv, Hm. simpl negb. cbv iota.
  assert (Hsz' : (Adapter.jpeg_buffer_size a <? Adapter.frame_size f) = false)
    by (apply Z.ltb_ge; exact Hsz).
  rewrite Hsz'.
  destruct (Adapter.jpeg_info f) as [iret [w h]]. simpl in Hi. subst iret.
  simpl is_ok. simpl negb. cbv iota beta zeta.
  set (slot := u32 (Adapter.current_buffer a + 1) mod Adapter.buffer_count a).
  assert (Hslot : 0 <= slot < Adapter.buffer_count a)
    by (apply Z.mod_pos_bound; exact Hpos).
  simpl Adapter.current_buffer. simpl Adapter.decode_buffers.
  assert (Hnz : (nth (Z.to_nat slot) (Adapter.decode_buffers a) 0 =? 0) = false).
  { apply Z.eqb_neq. rewrite Forall_forall in Hall. apply Hall.
    apply nth_In. lia. }
  rewrite Hnz.
  destruct (Adapter.jpeg_process f) as [pret size]. simpl in Hp.
  destruct pret; try (exfalso; apply Hp; reflexivity); reflexivity.
Qed.

(** X9: A frame whose header parses but whose decode fails has already taken
    the next buffer of the ring: the buffer index has advanced by one, the
    frame count has not, and nothing is delivered. *)
Theorem failed_decode_still_consumes_a_buffer :
  forall (f : Adapter.frame) (a : Adapter.t),
    fails_in_decode a f ->
    buffers_allocated a ->
    0 < Adapter.buffer_count a ->
    let '(ret, a', d) := Adapter.extractor_frame_callback f a in
    ret = fst (Adapter.jpeg_process f)
    /\ d = None
    /\ Adapter.current_buffer a'
       = u32 (Adapter.current_buffer a + 1) mod Adapter.buffer_count a
    /\ Adapter.frame_count a' = Adapter.frame_count a
    /\ Adapter.buffer_count a' = Adapter.buffer_count a.
Proof.
  intros f a Hf Hb Hpos.
  rewrite (failed_decode_step f a Hf Hb Hpos).
  repeat split; reflexivity.
Qed.

Lemma failed_decode_still_consumes_a_buffer_witness :
  let '(ret, a', d) :=
    Adapter.extractor_frame_callback
      (Adapter.mk_frame true 4000 (ESP_OK, (640, 480)) (ESP_FAIL, 0) true)
      Scenario.started_adapter in
  ret = ESP_FAIL /\ d = None /\ Adapter.current_buffer a' = 0.
Proof.
  assert (Hf : fails_in_decode Scenario.started_adapter
                 (Adapter.mk_frame true 4000 (ESP_OK, (640, 480)) (ESP_FAIL, 0) true)).
  { repeat split; try reflexivity; simpl; [vm_compute; discriminate|discriminate]. }
  assert (Hb : buffers_allocated Scenario.started_adapter).
  { split; [reflexivity|]. repeat constructor; simpl; lia. }
  assert (Hpos : 0 < Adapter.buffer_count Scenario.started_adapter)
    by (vm_compute; reflexivity).
  pose proof (failed_decode_still_consumes_a_buffer _ _ Hf Hb Hpos) as H.
  destruct (Adapter.extractor_frame_callback
              (Adapter.mk_frame true 4000 (ESP_OK, (640, 480)) (ESP_FAIL, 0) true)
              Scenario.started_adapter) as [[ret a'] d].
  destruct H as (Hr & Hd & Hc & _).
  split; [exact Hr|]. split; [exact Hd|]. rewrite Hc. reflexivity.
Defined.

Lemma delivered_frame_buffer :
  forall (f : Adapter.frame) (a a' : Adapter.t) (d : Adapter.delivery),
    Adapter.extractor_frame_callback f a = (ESP_OK, a', Some d) ->
    Adapter.decode_buffers a' = Adapter.decode_buffers a
    /\ Adapter.d_buffer d
       = nth (Z.to_nat (Adapter.d_slot d)) (Adapter.decode_buffers a) 0
    /\ Adapter.d_buffer d <> 0.
Proof.
  intros f a a' d H.
  unfold Adapter.extractor_frame_callback, Adapter.decode_jpeg_frame in H.
  repeat (break_hyp H; simpl in H; try discriminate).
  all: inversion H; subst; simpl; repeat split; auto.
  all: match goal with
       | Hz : (_ =? 0) = false |- _ => apply Z.eqb_neq in Hz; exact Hz
       end.
Qed.

(** X10: With the two decode buffers of the player, a frame that fails in the
    decode between two delivered frames makes the second delivered frame
    land in the very buffer of the first: the ring has advanced twice. *)
Theorem frame_after_failed_decode_reuses_previous_buffer :
  forall (f1 f2 f3 : Adapter.frame) (a a1 a3 : Adapter.t)
         (d1 d3 : Adapter.delivery),
    Adapter.buffer_count a = 2 ->
    buffers_allocated a ->
    Adapter.extractor_frame_callback f1 a = (ESP_OK, a1, Some d1) ->
    fails_in_decode a1 f2 ->
    Adapter.extractor_frame_callback f3
      (snd (fst (Adapter.extractor_frame_callback f2 a1)))
    = (ESP_OK, a3, Some d3) ->
    Adapter.d_slot d3 = Adapter.d_slot d1
    /\ Adapter.d_buffer d3 = Adapter.d_buffer d1
    /\ Adapter.d_frame_index d3 = u32 (Adapter.d_frame_index d1 + 1).
Proof.
  intros f1 f2 f3 a a1 a3 d1 d3 Hcount Halloc H1 Hfail H3.
  destruct (delivered_frame_step _ _ _ _ H1) as (Hc1 & Hs1 & Hd1 & Hi1).
  destruct (delivered_frame_buffer _ _ _ _ H1) as (Hb1 & Hbuf1 & _).
  assert (Halloc1 : buffers_allocated a1).
  { destruct Halloc as [Hl Hf]. split; rewrite Hb1; [rewrite Hc1|]; assumption. }
  assert (Hpos1 : 0 < Adapter.buffer_count a1) by lia.
  rewrite (failed_decode_step f2 a1 Hfail Halloc1 Hpos1) in H3.
  simpl fst in H3. simpl snd in H3.
  destruct (delivered_frame_step _ _ _ _ H3) as (Hc3 & Hs3 & Hd3 & Hi3).
  destruct (delivered_frame_buffer _ _ _ _ H3) as (Hb3 & Hbuf3 & _).
  simpl in Hc3, Hs3, Hi3, Hb3, Hbuf3.
  rewrite Hc1, Hcount in *.
  assert (Hr1 : 0 <= Adapter.current_buffer a1 < 2)
    by (rewrite Hs1; apply Z.mod_pos_bound; lia).
  assert (Hslot : Adapter.d_slot d3 = Adapter.d_slot d1).
  { rewrite Hd3, Hd1, Hs3.
    assert (Hcases : Adapter.current_buffer a1 = 0 \/ Adapter.current_buffer a1 = 1) by lia.
    destruct Hcases as [Hx|Hx]; rewrite Hx; vm_compute; reflexivity. }
  split; [exact Hslot|]. split.
  - rewrite Hbuf3, Hbuf1, Hslot, Hb1. reflexivity.
  - assert (Hfc : Adapter.frame_count a1 = u32 (Adapter.frame_count a + 1)).
    { clear - H1.
      unfold Adapter.extractor_frame_callback, Adapter.decode_jpeg_frame in H1.
      repeat (break_hyp H1; simpl in H1; try discriminate).
      all: inversion H1; subst; simpl; reflexivity. }
    rewrite Hi3, Hi1, Hfc, !u32_succ_pred. unfold u32.
    rewrite Zmod_mod, Zplus_mod_idemp_l. reflexivity.
Qed.

Lemma frame_after_failed_decode_reuses_previous_buffer_witness :
  let a1 := adapter_after Scenario.good_frame Scenario.started_adapter in
  let a3 := adapter_after Scenario.good_frame (adapter_after broken_frame a1) in
  let d3 := Adapter.mk_delivery 0 4096 614400 640 480 1 in
  Adapter.extractor_frame_callback Scenario.good_frame Scenario.started_adapter
  = (ESP_OK, a1, Some Scenario.delivery0)
  /\ fails_in_decode a1 broken_frame
  /\ Adapter.d_slot d3 = Adapter.d_slot Scenario.delivery0
  /\ Adapter.d_buffer d3 = Adapter.d_buffer Scenario.delivery0.
Proof.
  intros a1 a3 d3.
  assert (H1 : Adapter.extractor_frame_callback Scenario.good_frame Scenario.started_adapter
               = (ESP_OK, a1, Some Scenario.delivery0)) by (vm_compute; reflexivity).
  assert (Hf : fails_in_decode a1 broken_frame).
  { repeat split; try reflexivity; [vm_compute; discriminate|discriminate]. }
  assert (Hc : Adapter.buffer_count Scenario.started_adapter = 2) by reflexivity.
  assert (Hb : buffers_allocated Scenario.started_adapter).
  { split; [reflexivity|]. repeat constructor; simpl; lia. }
  assert (H3 : Adapter.extractor_frame_callback Scenario.good_frame
                 (snd (fst (Adapter.extractor_frame_callback broken_frame a1)))
               = (ESP_OK, a3, Some d3)) by (vm_compute; reflexivity).
  pose proof (frame_after_failed_decode_reuses_previous_buffer
                Scenario.good_frame broken_frame Scenario.good_frame
                Scenario.started_adapter a1 a3 Scenario.delivery0 d3
                Hc Hb H1 Hf H3) as H.
  destruct H as (Hs & Hbuf & _).
  split; [exact H1|]. split; [exact Hf|]. split; [exact Hs|exact Hbuf].
Defined.
(** ** Video controller: what holds in every reachable state *)

Lemma frame_keeps_task (f : Adapter.frame) (a : Adapter.t) :
  Adapter.running (snd (fst (Adapter.extractor_frame_callback f a)))
  = Adapter.running a
  /\ Adapter.extract_task_handle (snd (fst (Adapter.extractor_frame_callback f a)))
     = Adapter.extract_task_handle a
  /\ Adapter.frame_mutex (snd (fst (Adapter.extractor_frame_callback f a)))
     = Adapter.frame_mutex a.
Proof.
  unfold Adapter.extractor_frame_callback, Adapter.decode_jpeg_frame.
  repeat (break_goal; simpl; auto).
Qed.

Lemma video_op_keeps_coherent (E : env) (now : Z) (op : video_op) (v : Video.t) :
  coherent v -> coherent (run_video_op E now op v).
Proof.
  intros Hc. destruct op; unfold run_video_op.
  - (* init *)
    unfold video_player_init.
    destruct (Video.adapter v) eqn:Ha; [exact Hc|].
    pose proof (coherent_without_adapter v Hc Ha) as Hs.
    destruct ((buffer_a =? 0) || (buffer_b =? 0)); simpl.
    + unfold coherent. simpl. exact Hs.
    + unfold coherent. simpl. split; [split; discriminate|discriminate].
  - (* play *)
    pose proof (video_player_play_cases E now path v) as H.
    destruct (video_player_play E now path v) as [ret [v' calls]]. simpl.
    destruct H as [(_ & _ & Hv & _)|[(_ & Hs & _ & _ & a' & Ha & Hr)|(_ & Hs & _ & a' & Ha & Hr & Hh)]].
    + subst v'. exact Hc.
    + exact (coherent_after_failure v' a' Hs Ha Hr).
    + exact (coherent_after_start v' a' Hs Ha Hr Hh).
  - pose proof (video_player_pause_cases v Hc) as H.
    destruct (video_player_pause v) as [ret [v' calls]]. simpl. tauto.
  - pose proof (video_player_resume_cases v Hc) as H.
    destruct (video_player_resume v) as [ret [v' calls]]. simpl. tauto.
  - pose proof (video_player_stop_spec E v Hc) as H.
    destruct (video_player_stop E v) as [ret [v' calls]]. simpl. tauto.
  - (* restart *)
    unfold video_player_restart_current.
    destruct (String.length (Video.current_file v) =? 0)%nat; [exact Hc|].
    pose proof (video_player_stop_spec E v Hc) as H.
    destruct (video_player_stop E v) as [ret [v1 calls1]].
    destruct H as (_ & _ & Hc1 & _).
    pose proof (video_player_play_cases E now (Video.current_file v1) v1) as H.
    destruct (video_player_play E now (Video.current_file v1) v1) as [ret2 [v' calls]]. simpl.
    destruct H as [(_ & _ & Hv & _)|[(_ & Hs & _ & _ & a' & Ha & Hr)|(_ & Hs & _ & a' & Ha & Hr & Hh)]].
    + subst v'. exact Hc1.
    + exact (coherent_after_failure v' a' Hs Ha Hr).
    + exact (coherent_after_start v' a' Hs Ha Hr Hh).
  - exact Hc.
  - (* switch *)
    pose proof (video_player_switch_file_cases E now path v) as H.
    destruct (video_player_switch_file E now path v) as [ret [v' calls]]. simpl.
    destruct H as (_ & [(_ & _ & Hv)|[(_ & _ & Hv)|[(_ & Hs & _ & a' & Ha & Hr)|(_ & Hs & a' & Ha & Hr & Hh)]]]).
    + subst v'. exact Hc.
    + subst v'. exact Hc.
    + exact (coherent_after_failure v' a' Hs Ha Hr).
    + exact (coherent_after_start v' a' Hs Ha Hr Hh).
  - (* frame *)
    unfold extractor_frame_callback.
    destruct (Video.adapter v) as [a|] eqn:Ha; [|exact Hc].
    destruct (frame_keeps_task f a) as (Hr & Hh & _).
    destruct (Adapter.extractor_frame_callback f a) as [[r a'] d].
    simpl in Hr, Hh.
    unfold coherent in Hc. rewrite Ha in Hc.
    destruct d; unfold coherent; simpl; rewrite Hr, Hh; exact Hc.
Qed.

(** X11: From the zeroed controller at boot, after any sequence of calls of
    the controller's functions and of frames arriving from the extraction
    task, whatever the collaborators answer: the adapter is running
    exactly when the state is PLAYING or PAUSED, a running adapter has
    its extraction task, and without an adapter the state is STOPPED. *)
Theorem video_controller_stays_coherent :
  forall (E : env) (steps : list (Z * video_op)),
    coherent (run_video_ops E steps Video.zero).
Proof.
  intros E steps.
  assert (H0 : coherent Video.zero) by reflexivity.
  revert H0. generalize Video.zero.
  induction steps as [|[now op] rest IH]; intros v Hc; simpl.
  - exact Hc.
  - apply IH. apply video_op_keeps_coherent. exact Hc.
Qed.
Lemma arm_finish_timer_play_volume (E : env) (now d : Z) (v : Video.t) :
  Video.current_volume (arm_finish_timer_play E now d v) = Video.current_volume v.
Proof.
  unfold arm_finish_timer_play, create_finish_timer.
  repeat (break_goal; simpl); reflexivity.
Qed.

Lemma arm_finish_timer_switch_volume (E : env) (now d : Z) (v : Video.t) :
  Video.current_volume (arm_finish_timer_switch E now d v) = Video.current_volume v.
Proof.
  unfold arm_finish_timer_switch, create_finish_timer.
  repeat (break_goal; simpl); reflexivity.
Qed.

Lemma cancel_finish_timer_volume (v : Video.t) :
  Video.current_volume (cancel_finish_timer v) = Video.current_volume v.
Proof.
  unfold cancel_finish_timer. destruct (Video.finish_timer v); reflexivity.
Qed.

Lemma video_player_play_volume (E : env) (now : Z) (path : string) (v : Video.t) :
  Video.current_volume (fst (snd (video_player_play E now path v)))
  = Video.current_volume v.
Proof.
  unfold video_player_play.
  repeat (break_goal; cbn [fst snd Video.current_volume video_error
                           Video.set_state Video.set_has_error Video.set_adapter
                           Video.set_current_file Video.set_playback_finished]);
    try reflexivity.
  all: rewrite arm_finish_timer_play_volume; reflexivity.
Qed.

Lemma video_player_stop_volume (E : env) (v : Video.t) :
  Video.current_volume (fst (snd (video_player_stop E v))) = Video.current_volume v.
Proof.
  unfold video_player_stop.
  repeat (break_goal; cbn [fst snd]); try reflexivity.
  all: rewrite cancel_finish_timer_volume; reflexivity.
Qed.

Lemma video_player_switch_file_volume (E : env) (now : Z) (path : option string) (v : Video.t) :
  Video.current_volume (fst (snd (video_player_switch_file E now path v)))
  = Video.current_volume v.
Proof.
  unfold video_player_switch_file.
  repeat (break_goal; cbn [fst snd Video.current_volume video_error
                           Video.set_state Video.set_has_error Video.set_adapter
                           Video.set_current_file Video.set_playback_finished]);
    try reflexivity.
  all: try rewrite arm_finish_timer_switch_volume;
    cbn [Video.current_volume video_error
         Video.set_state Video.set_has_error Video.set_adapter
         Video.set_current_file Video.set_playback_finished];
    try rewrite cancel_finish_timer_volume; reflexivity.
Qed.

Lemma video_player_set_volume_range (volume : Z) (v : Video.t) :
  volume_in_range (video_player_set_volume volume v).
Proof.
  unfold volume_in_range, video_player_set_volume, MIN_AUDIO_VOLUME, MAX_AUDIO_VOLUME.
  simpl.
  destruct (volume <? 0) eqn:H1; [simpl; lia|].
  destruct (100 <? volume) eqn:H2; [lia|].
  apply Z.ltb_ge in H1, H2. lia.
Qed.

Lemma video_op_keeps_volume_in_range (E : env) (now : Z) (op : video_op) (v : Video.t) :
  volume_in_range v -> volume_in_range (run_video_op E now op v).
Proof.
  intros Hv. unfold volume_in_range in *. destruct op; unfold run_video_op.
  - unfold video_player_init.
    destruct (Video.adapter v); [exact Hv|].
    destruct ((buffer_a =? 0) || (buffer_b =? 0)); simpl;
      unfold DEFAULT_AUDIO_VOLUME, MIN_AUDIO_VOLUME, MAX_AUDIO_VOLUME; lia.
  - rewrite video_player_play_volume. exact Hv.
  - unfold video_player_pause.
    repeat (break_goal; cbn [fst snd]); exact Hv.
  - unfold video_player_resume.
    repeat (break_goal; cbn [fst snd]); exact Hv.
  - rewrite video_player_stop_volume. exact Hv.
  - unfold video_player_restart_current.
    destruct (String.length (Video.current_file v) =? 0)%nat; [exact Hv|].
    pose proof (video_player_stop_volume E v) as H1.
    destruct (video_player_stop E v) as [r1 [v1 c1]]. simpl in H1.
    pose proof (video_player_play_volume E now (Video.current_file v1) v1) as H2.
    destruct (video_player_play E now (Video.current_file v1) v1) as [r2 [v2 c2]].
    simpl in *. rewrite H2, H1. exact Hv.
  - apply video_player_set_volume_range.
  - rewrite video_player_switch_file_volume. exact Hv.
  - unfold extractor_frame_callback.
    repeat (break_goal; cbn [fst snd]); exact Hv.
Qed.

(** X12: The stored volume is within 0..100 in every reachable state of the
    controller: [video_player_init] sets 50, [video_player_set_volume]
    clamps whatever it is given, and no other function of the controller
    writes the volume. *)
Theorem video_volume_always_in_range :
  forall (E : env) (steps : list (Z * video_op)),
    volume_in_range (run_video_ops E steps Video.zero).
Proof.
  intros E steps.
  assert (H0 : volume_in_range Video.zero)
    by (unfold volume_in_range, MIN_AUDIO_VOLUME, MAX_AUDIO_VOLUME; simpl; lia).
  revert H0. generalize Video.zero.
  induction steps as [|[now op] rest IH]; intros v Hv; simpl.
  - exact Hv.
  - apply IH. apply video_op_keeps_volume_in_range. exact Hv.
Qed.
(** ** Video controller: a lost frame lock *)

Lemma stop_extract_task_no_mutex (E : env) (a : Adapter.t) :
  Adapter.frame_mutex a = false ->
  Adapter.frame_mutex (Adapter.stop_extract_task E a) = false.
Proof.
  intros H. unfold Adapter.stop_extract_task.
  repeat (break_goal; simpl); try exact H; congruence.
Qed.

Lemma adapter_set_file_no_mutex (E : env) (name : string) (audio : bool) (a : Adapter.t) :
  Adapter.frame_mutex a = false ->
  Adapter.running a = false ->
  Adapter.frame_mutex (snd (Adapter.app_stream_adapter_set_file E name audio a)) = false.
Proof.
  intros Hm Hr. unfold Adapter.app_stream_adapter_set_file.
  rewrite Hr. simpl. exact Hm.
Qed.

Lemma adapter_start_no_mutex (E : env) (a : Adapter.t) :
  Adapter.frame_mutex a = false ->
  Adapter.running a = false ->
  fst (Adapter.app_stream_adapter_start E a) <> ESP_OK
  /\ Adapter.frame_mutex (snd (Adapter.app_stream_adapter_start E a)) = false
  /\ Adapter.running (snd (Adapter.app_stream_adapter_start E a)) = false.
Proof.
  intros Hm Hr. unfold Adapter.app_stream_adapter_start.
  rewrite Hr.
  destruct (Adapter.filename a) as [name|]; [|simpl; repeat split; [discriminate|exact Hm|exact Hr]].
  cbv zeta.
  destruct (is_ok (app_extractor_start E name)) eqn:Hx; cbn [negb].
  2:{ apply is_ok_false in Hx. simpl. repeat split; [exact Hx|exact Hm|exact Hr]. }
  destruct (app_extractor_get_video_info E name) as [iret [[[w h] f] d]].
  match goal with
  | |- context [Adapter.start_extract_task E ?x] =>
      assert (Hm' : Adapter.frame_mutex x = false)
        by (try destruct (is_ok iret); simpl; exact Hm);
      assert (Hr' : Adapter.running x = false)
        by (try destruct (is_ok iret); simpl; exact Hr);
      generalize dependent x
  end.
  intros x Hm' Hr'.
  unfold Adapter.start_extract_task.
  destruct (Adapter.extract_task_handle x).
  - rewrite (stop_extract_task_no_mutex E x Hm'). simpl.
    repeat split; [discriminate| apply stop_extract_task_no_mutex; exact Hm'|].
    destruct (stop_extract_task_same_stream E x) as (_ & _ & _ & _ & Hrr & _).
    rewrite Hrr. exact Hr'.
  - rewrite Hm'. simpl. repeat split; [discriminate|exact Hm'|exact Hr'].
Qed.

(** X13: Once the frame mutex is lost (a forced stop of the extraction task
    after which no new mutex could be created), no file can be played any
    more: every [video_player_play] and every [video_player_switch_file]
    on a path fails and leaves the controller in the ERROR state with the
    mutex still missing, whatever the collaborators answer from then on. *)
Theorem lost_frame_mutex_disables_playback :
  forall (E : env) (now : Z) (path : string) (v : Video.t),
    frame_mutex_lost v ->
    (fst (video_player_play E now path v) <> ESP_OK
     /\ Video.state (fst (snd (video_player_play E now path v))) = VIDEO_STATE_ERROR
     /\ frame_mutex_lost (fst (snd (video_player_play E now path v))))
    /\ (fst (video_player_switch_file E now (Some path) v) <> ESP_OK
        /\ Video.state (fst (snd (video_player_switch_file E now (Some path) v)))
           = VIDEO_STATE_ERROR
        /\ frame_mutex_lost (fst (snd (video_player_switch_file E now (Some path) v)))).
Proof.
  intros E now path v (a & Ha & Hm & Hr). split.
  - unfold video_player_play. rewrite Ha. cbv zeta.
    pose proof (adapter_set_file_spec E path (Video.audio_dev
                 (Video.set_has_error false (Video.set_current_file (store_path path) v))) a)
      as Hsf.
    pose proof (adapter_set_file_no_mutex E path (Video.audio_dev
                 (Video.set_has_error false (Video.set_current_file (store_path path) v))) a Hm Hr)
      as Hsm.
    destruct (Adapter.app_stream_adapter_set_file E path _ a) as [r1 a1].
    simpl in Hsf, Hsm. destruct Hsf as (Hr1 & Hrun1 & _). subst r1.
    simpl is_ok. cbn [negb].
    pose proof (adapter_start_no_mutex E a1 Hsm Hrun1) as Hst.
    destruct (Adapter.app_stream_adapter_start E a1) as [r2 a2].
    simpl in Hst. destruct Hst as (Hr2 & Hm2 & Hrun2).
    destruct (is_ok r2) eqn:Hok; [apply is_ok_true in Hok; contradiction|].
    simpl. repeat split; [exact Hr2|].
    exists a2. repeat split; assumption.
  - unfold video_player_switch_file. rewrite Ha. cbv zeta.
    match goal with
    | |- context [Adapter.app_stream_adapter_set_file E path ?au ?x] =>
        assert (Hmx : Adapter.frame_mutex x = false);
        [|assert (Hrx : Adapter.running x = false);
          [|pose proof (adapter_set_file_spec E path au x) as Hsf;
            pose proof (adapter_set_file_no_mutex E path au x Hmx Hrx) as Hsm;
            destruct (Adapter.app_stream_adapter_set_file E path au x) as [r1 a1]]]
    end.
    + destruct (negb _); [|exact Hm].
      unfold Adapter.app_stream_adapter_stop. rewrite Hr. exact Hm.
    + destruct (negb _); [|exact Hr].
      unfold Adapter.app_stream_adapter_stop. rewrite Hr. exact Hr.
    + simpl in Hsf, Hsm. destruct Hsf as (Hr1 & Hrun1 & _). subst r1.
      simpl is_ok. cbn [negb].
      pose proof (adapter_start_no_mutex E a1 Hsm Hrun1) as Hst.
      destruct (Adapter.app_stream_adapter_start E a1) as [r2 a2].
      simpl in Hst. destruct Hst as (Hr2 & Hm2 & Hrun2).
      destruct (is_ok r2) eqn:Hok; [apply is_ok_true in Hok; contradiction|].
      simpl. repeat split; [exact Hr2|].
      exists a2. repeat split; assumption.
Qed.

Lemma lost_frame_mutex_disables_playback_witness :
  frame_mutex_lost stopped_without_mutex
  /\ fst (video_player_play Scenario.E_spec 0 (full_path Scenario.C_mp4)
            stopped_without_mutex) <> ESP_OK.
Proof.
  assert (H : frame_mutex_lost stopped_without_mutex).
  { eexists. split; [vm_compute; reflexivity|]. split; reflexivity. }
  split; [exact H|].
  pose proof (lost_frame_mutex_disables_playback Scenario.E_spec 0
                (full_path Scenario.C_mp4) stopped_without_mutex H) as T.
  destruct T as ((T & _) & _). exact T.
Defined.
(** ** Album navigator: before initialisation *)

(** X14: Before [photo_album_init] has succeeded every public operation of the
    navigator is refused and nothing changes: navigation, interval,
    pause, resume, start and refresh return [ESP_ERR_INVALID_STATE],
    [photo_album_goto] returns [ESP_ERR_INVALID_ARG]; the collection
    reports no entry and the album reports itself paused. *)
Theorem album_refuses_everything_before_init :
  forall (E : env) (w : world) (index interval : Z) (ans : scan_answer),
    Album.initialized (alb w) = false ->
    photo_album_next E w = (ESP_ERR_INVALID_STATE, w)
    /\ photo_album_prev E w = (ESP_ERR_INVALID_STATE, w)
    /\ photo_album_goto E index w = (ESP_ERR_INVALID_ARG, w)
    /\ photo_album_set_interval interval w = (ESP_ERR_INVALID_STATE, w)
    /\ photo_album_pause w = (ESP_ERR_INVALID_STATE, w)
    /\ photo_album_pause_for_usb w = (ESP_ERR_INVALID_STATE, w)
    /\ photo_album_resume w = (ESP_ERR_INVALID_STATE, w)
    /\ photo_album_start E ans w = (ESP_ERR_INVALID_STATE, w)
    /\ photo_album_refresh E ans w = (ESP_ERR_INVALID_STATE, w)
    /\ photo_album_get_total_count w = 0
    /\ photo_album_get_current_index w = -1
    /\ photo_album_get_current_info w = None
    /\ photo_album_is_paused w = true.
Proof.
  intros E w index interval ans H.
  unfold photo_album_next, photo_album_prev, can_navigate, photo_album_goto,
    photo_album_set_interval, photo_album_pause, photo_album_pause_for_usb,
    photo_album_resume, photo_album_start, photo_album_refresh,
    photo_album_get_total_count, photo_album_get_current_index,
    photo_album_get_current_info, photo_album_is_paused.
  rewrite H. simpl. repeat split; reflexivity.
Qed.

Lemma album_refuses_everything_before_init_witness :
  photo_album_next Scenario.E_spec Scenario.boot
  = (ESP_ERR_INVALID_STATE, Scenario.boot).
Proof.
  pose proof (album_refuses_everything_before_init Scenario.E_spec Scenario.boot
                0 0 NotMounted eq_refl) as H.
  destruct H as (H & _). exact H.
Defined.
(** ** Album navigator: the collection under navigation *)

Lemma album_over_alb (fs : list image_file_info_t) (w w' : world) :
  alb w' = alb w -> album_over fs w -> album_over fs w'.
Proof. unfold album_over. intros ->. tauto. Qed.

Lemma on_sl_alb (f : Slideshow.t -> esp_err_t * Slideshow.t) (w : world) :
  alb (snd (on_sl f w)) = alb w
  /\ vid (snd (on_sl f w)) = vid w
  /\ now (snd (on_sl f w)) = now w.
Proof. unfold on_sl. destruct (f (sl w)). simpl. auto. Qed.

Lemma on_vid_alb (f : Video.t -> video_result) (w : world) :
  alb (snd (on_vid f w)) = alb w.
Proof. destruct (on_vid_spec f w) as (_ & _ & _ & (_ & H & _)). exact H. Qed.

Lemma album_over_set_current_index (fs : list image_file_info_t) (i : Z) (w : world) :
  album_over fs w ->
  0 <= i < Z.of_nat (List.length fs) ->
  album_over fs (set_current_index i w).
Proof.
  intros (Hi & j & Hc & Hj) Hr. unfold album_over, set_current_index, the_collection.
  rewrite Hc. simpl. split; [exact Hi|]. exists i. split; [reflexivity|exact Hr].
Qed.

Lemma album_over_total (fs : list image_file_info_t) (w : world) :
  album_over fs w ->
  total_count (the_collection w) = Z.of_nat (List.length fs)
  /\ 0 <= current_index (the_collection w) < Z.of_nat (List.length fs)
  /\ 0 < Z.of_nat (List.length fs).
Proof.
  intros (_ & i & Hc & Hi). unfold the_collection, total_count. rewrite Hc.
  simpl. repeat split; lia.
Qed.

Lemma load_and_display_image_album_over :
  forall (E : env) (fs : list image_file_info_t) (index : Z) (w : world),
    album_over fs w ->
    album_over fs (snd (load_and_display_image E index w))
    /\ (fst (load_and_display_image E index w) = ESP_OK ->
        current_index (the_collection (snd (load_and_display_image E index w)))
        = index).
Proof.
  intros E fs index w Hw.
  pose proof Hw as (Hi & j & Hc & Hj).
  unfold load_and_display_image.
  change (Album.collection (alb (emit (LoadImage index) w)))
    with (Album.collection (alb w)).
  rewrite Hc.
  destruct ((index <? 0) || (total_count (mk_collection fs j) <=? index)) eqn:Hrange.
  { split; [exact Hw|discriminate]. }
  apply Bool.orb_false_elim in Hrange. destruct Hrange as [H0 Hn].
  apply Z.ltb_ge in H0. apply Z.leb_gt in Hn. unfold total_count in Hn. simpl in Hn.
  destruct (validate_file_for_decoding _); cbn [negb]; [|split; [exact Hw|discriminate]].
  cbv zeta.
  destruct (is_ok (file_manager_load_image E _)) eqn:H1; cbn [negb];
    [|simpl; split; [exact Hw|intro Hx; apply is_ok_true in Hx; congruence]].
  destruct (image_decoder_decode E _) as [r2 [width height]].
  destruct (is_ok r2) eqn:H2; cbn [negb];
    [|simpl; split; [exact Hw|intro Hx; apply is_ok_true in Hx; congruence]].
  match goal with
  | |- context [is_ok ?r] =>
      lazymatch r with
      | (if _ then _ else _) => destruct (is_ok r) eqn:H3
      end
  end; cbn [negb];
    [|simpl; split; [exact Hw|intro Hx; apply is_ok_true in Hx; congruence]].
  destruct (is_ok (ui_manager_display_image E _)) eqn:H4; cbn [negb];
    [|simpl; split; [exact Hw|intro Hx; apply is_ok_true in Hx; congruence]].
  cbn [fst snd].
  match goal with
  | |- context [set_current_index index ?x] =>
      assert (Hx : album_over fs x);
      [|generalize dependent x; intros x0 Hx]
  end.
  { match goal with
    | |- album_over fs (if ?b then _ else _) => destruct b
    end.
    - eapply album_over_alb; [|exact Hw].
      rewrite (proj1 (on_sl_alb _ _)). reflexivity.
    - eapply album_over_alb; [|exact Hw]. reflexivity. }
  split.
  - eapply album_over_alb;
      [|apply (album_over_set_current_index fs index x0 Hx); lia].
    reflexivity.
  - intros _.
    destruct Hx as (_ & k & Hk & _).
    unfold the_collection, set_current_index, the_collection. simpl.
    try rewrite Hk; reflexivity.
Qed.

Lemma album_over_emit (fs : list image_file_info_t) (c : call) (w : world) :
  album_over fs w -> album_over fs (emit c w).
Proof. apply album_over_alb. reflexivity. Qed.

Lemma album_over_on_sl (fs : list image_file_info_t)
      (f : Slideshow.t -> esp_err_t * Slideshow.t) (w : world) :
  album_over fs w -> album_over fs (snd (on_sl f w)).
Proof. apply album_over_alb. apply on_sl_alb. Qed.

Lemma album_over_on_vid (fs : list image_file_info_t)
      (f : Video.t -> video_result) (w : world) :
  album_over fs w -> album_over fs (snd (on_vid f w)).
Proof. apply album_over_alb. apply on_vid_alb. Qed.

Lemma next_candidate_in_range (fs : list image_file_info_t) (current : Z) (w : world) :
  album_over fs w ->
  0 <= current < Z.of_nat (List.length fs) ->
  0 <= Z.rem (current + 1) (total_count (the_collection w))
    < Z.of_nat (List.length fs).
Proof.
  intros Hw Hc. destruct (album_over_total fs w Hw) as (Ht & _ & _).
  rewrite Ht. apply Z.rem_bound_pos; lia.
Qed.

Lemma media_retry_loop_album_over :
  forall (E : env) (fs : list image_file_info_t) (remaining : nat)
         (playing : bool) (current : Z) (w : world),
    album_over fs w ->
    0 <= current < Z.of_nat (List.length fs) ->
    album_over fs (snd (media_retry_loop E remaining playing current w)).
Proof.
  intros E fs remaining playing.
  induction remaining as [|remaining IH]; intros current w Hw Hc.
  - exact Hw.
  - cbn [media_retry_loop].
    destruct (file_manager_get_media_type _).
    + apply IH; [exact Hw|apply next_candidate_in_range; assumption].
    + pose proof (load_and_display_image_album_over E fs current
                    (emit (SwitchMode UI_MODE_IMAGE) w)
                    (album_over_emit fs _ w Hw)) as [H1 _].
      destruct (load_and_display_image E current (emit (SwitchMode UI_MODE_IMAGE) w))
        as [ret w1].
      cbn [fst snd] in H1.
      destruct (is_ok ret); [exact H1|].
      apply IH; [exact H1|apply next_candidate_in_range; assumption].
    + destruct playing.
      * pose proof (album_over_on_vid fs
                      (video_player_switch_file E (now w)
                         (Some (full_path (file_at (the_collection w) current)))) w Hw)
          as H1.
        destruct (on_vid _ w) as [ret w1]. cbn [fst snd] in H1.
        destruct (is_ok ret); cbn [negb].
        -- cbn [snd]. apply album_over_emit.
           apply album_over_set_current_index; assumption.
        -- apply IH; [exact H1|apply next_candidate_in_range; assumption].
      * cbv zeta.
        match goal with
        | |- context [on_vid ?f ?x] =>
            assert (Hx : album_over fs x)
              by (apply album_over_on_sl; repeat apply album_over_emit; exact Hw);
            pose proof (album_over_on_vid fs f x Hx) as H1;
            destruct (on_vid f x) as [ret w1]
        end.
        cbn [fst snd] in H1.
        destruct (is_ok ret); cbn [negb].
        -- cbn [snd]. apply album_over_emit.
           apply album_over_set_current_index;
             [apply album_over_emit; exact H1|assumption].
        -- apply IH;
             [|apply next_candidate_in_range;
               [|assumption]];
             repeat apply album_over_emit; exact H1.
Qed.

Lemma load_and_display_media_album_over :
  forall (E : env) (fs : list image_file_info_t) (index : Z) (w : world),
    album_over fs w ->
    album_over fs (snd (load_and_display_media E index w)).
Proof.
  intros E fs index w Hw. pose proof Hw as (Hi & j & Hc & Hj).
  unfold load_and_display_media. rewrite Hc.
  destruct ((index <? 0) || (total_count (mk_collection fs j) <=? index)) eqn:Hrange;
    [exact Hw|].
  apply Bool.orb_false_elim in Hrange. destruct Hrange as [H0 Hn].
  apply Z.ltb_ge in H0. apply Z.leb_gt in Hn. unfold total_count in Hn. simpl in Hn.
  apply media_retry_loop_album_over; [exact Hw|lia].
Qed.

Lemma stop_video_before_switch_album_over
      (E : env) (fs : list image_file_info_t) (w : world) :
  album_over fs w -> album_over fs (stop_video_before_switch E w).
Proof.
  intros Hw. unfold stop_video_before_switch.
  destruct (is_playing_or_paused _); [|exact Hw].
  apply album_over_on_vid. repeat apply album_over_emit. exact Hw.
Qed.

Lemma prev_retry_loop_album_over :
  forall (E : env) (fs : list image_file_info_t) (remaining : nat)
         (prev_index : Z) (w : world),
    album_over fs w ->
    album_over fs (snd (prev_retry_loop E remaining prev_index w)).
Proof.
  intros E fs remaining.
  induction remaining as [|remaining IH]; intros prev_index w Hw.
  - exact Hw.
  - cbn [prev_retry_loop].
    pose proof (load_and_display_media_album_over E fs prev_index w Hw) as H1.
    destruct (load_and_display_media E prev_index w) as [ret w1].
    cbn [snd] in H1.
    destruct (is_ok ret); [exact H1|].
    apply IH. exact H1.
Qed.

Lemma photo_album_next_album_over
      (E : env) (fs : list image_file_info_t) (w : world) :
  album_over fs w -> album_over fs (snd (photo_album_next E w)).
Proof.
  intros Hw. unfold photo_album_next.
  destruct (negb (can_navigate w)); [exact Hw|].
  apply load_and_display_media_album_over.
  apply stop_video_before_switch_album_over. exact Hw.
Qed.

Lemma photo_album_prev_album_over
      (E : env) (fs : list image_file_info_t) (w : world) :
  album_over fs w -> album_over fs (snd (photo_album_prev E w)).
Proof.
  intros Hw. unfold photo_album_prev.
  destruct (negb (can_navigate w)); [exact Hw|].
  apply prev_retry_loop_album_over.
  apply stop_video_before_switch_album_over. exact Hw.
Qed.

Lemma photo_album_goto_album_over
      (E : env) (fs : list image_file_info_t) (index : Z) (w : world) :
  album_over fs w -> album_over fs (snd (photo_album_goto E index w)).
Proof.
  intros Hw. unfold photo_album_goto.
  destruct (negb (Album.initialized (alb w))); [exact Hw|].
  destruct (Album.collection (alb w)); [|exact Hw].
  destruct ((index <? 0) || (total_count p <=? index)); [exact Hw|].
  apply load_and_display_media_album_over. exact Hw.
Qed.

Lemma album_over_collection (fs : list image_file_info_t) (w w' : world) :
  Album.initialized (alb w') = Album.initialized (alb w) ->
  Album.collection (alb w') = Album.collection (alb w) ->
  album_over fs w -> album_over fs w'.
Proof. unfold album_over. intros -> ->. tauto. Qed.

Lemma ui_event_handler_album_over
      (E : env) (fs : list image_file_info_t) (event : ui_event_t) (w : world) :
  album_over fs w -> album_over fs (ui_event_handler E event w).
Proof.
  intros Hw. destruct event; unfold ui_event_handler; cbv zeta.
  - apply photo_album_next_album_over. apply album_over_on_sl. exact Hw.
  - apply photo_album_prev_album_over. apply album_over_on_sl. exact Hw.
  - destruct (media_type_eqb _ _); [|exact Hw].
    apply album_over_emit. eapply album_over_alb; [|exact Hw]. reflexivity.
  - destruct (media_type_eqb _ _); [|exact Hw].
    apply album_over_emit. eapply album_over_alb; [|exact Hw]. reflexivity.
  - apply album_over_on_sl. apply album_over_emit. exact Hw.
  - destruct (media_type_eqb _ _); [|exact Hw].
    destruct (video_player_get_state w); try exact Hw.
    + apply album_over_on_sl. apply album_over_on_vid. exact Hw.
    + apply album_over_on_vid. exact Hw.
  - apply album_over_on_sl. apply album_over_emit.
    destruct (negb _); [|exact Hw].
    apply album_over_on_sl.
    eapply album_over_collection; [| |exact Hw]; reflexivity.
  - apply album_over_on_sl. apply album_over_emit. exact Hw.
Qed.

Lemma expire_album_over
      (E : env) (fs : list image_file_info_t) (id : timer_id) (w : world) :
  album_over fs w -> album_over fs (expire E id w).
Proof.
  intros Hw. unfold expire.
  destruct (deadline_of (handle_of id w)) as [d|]; [|exact Hw].
  unfold fire.
  match goal with
  | |- album_over fs (callback_of E id ?x) =>
      assert (Hx : album_over fs x)
        by (eapply album_over_alb; [|exact Hw]; destruct id; reflexivity);
      generalize dependent x; intros x0 Hx
  end.
  destruct id; unfold callback_of.
  - unfold slideshow_timer_callback.
    destruct (Slideshow.slideshow_timer_fires (sl x0)); [|exact Hx].
    apply photo_album_next_album_over. exact Hx.
  - eapply album_over_alb; [|exact Hx]. reflexivity.
  - unfold video_finish_timer_cb. cbv zeta.
    apply photo_album_next_album_over. apply album_over_on_sl. exact Hx.
Qed.

Lemma run_album_event_album_over
      (E : env) (fs : list image_file_info_t) (ev : album_event) (w : world) :
  album_over fs w -> album_over fs (run_album_event E ev w).
Proof.
  intros Hw. pose proof Hw as (Hi & _).
  destruct ev; unfold run_album_event.
  - apply ui_event_handler_album_over. exact Hw.
  - apply expire_album_over. exact Hw.
  - apply photo_album_next_album_over. exact Hw.
  - apply photo_album_prev_album_over. exact Hw.
  - apply photo_album_goto_album_over. exact Hw.
  - unfold photo_album_set_interval. rewrite Hi. cbn [negb]. cbv zeta.
    apply album_over_on_sl.
    eapply album_over_collection; [| |exact Hw]; reflexivity.
  - unfold photo_album_pause. rewrite Hi. cbn [negb]. cbv zeta.
    apply album_over_on_sl.
    eapply album_over_collection; [| |exact Hw]; reflexivity.
  - unfold photo_album_pause_for_usb. rewrite Hi. cbn [negb]. cbv zeta.
    apply album_over_on_sl.
    eapply album_over_collection; [| |exact Hw]; reflexivity.
  - unfold photo_album_resume. rewrite Hi. cbn [negb]. cbv zeta.
    destruct (pause_reason_eqb _ _); apply album_over_on_sl;
      (eapply album_over_collection; [| |exact Hw]; reflexivity).
Qed.

(** X15: Between two rescans the collection is fixed and the current index
    always points at one of its entries: no gesture, no timer expiry and
    no call of next, prev, goto, set_interval, pause or resume adds,
    removes or reorders an entry or moves the index out of range,
    whatever the loaders and the video pipeline answer. *)
Theorem navigation_keeps_collection_and_index_in_range :
  forall (E : env) (fs : list image_file_info_t) (evs : list album_event)
         (w : world),
    album_over fs w ->
    album_over fs (run_album_events E evs w).
Proof.
  intros E fs evs. induction evs as [|ev rest IH]; intros w Hw; simpl.
  - exact Hw.
  - apply IH. apply run_album_event_album_over. exact Hw.
Qed.

Lemma navigation_keeps_collection_and_index_in_range_witness :
  album_over [Scenario.A_jpg; Scenario.B_jpg; Scenario.C_mp4]
    (run_album_events Scenario.E_spec
       [Gesture UI_EVENT_SWIPE_LEFT; Expiry FinishTimer; CallPrev]
       Scenario.showing_A).
Proof.
  apply (navigation_keeps_collection_and_index_in_range Scenario.E_spec
           [Scenario.A_jpg; Scenario.B_jpg; Scenario.C_mp4]
           [Gesture UI_EVENT_SWIPE_LEFT; Expiry FinishTimer; CallPrev]
           Scenario.showing_A).
  split; [reflexivity|]. exists 0. split; [reflexivity|simpl; lia].
Defined.
(** ** Album navigator: start and resume *)

(** X16: When the scan fails or finds nothing, [photo_album_start] reports
    [ESP_ERR_NOT_FOUND] whatever the scan's own error was, loads nothing
    and leaves the slideshow, the video controller and the pause reason
    as they were. *)
Theorem start_without_media_reports_not_found :
  forall (E : env) (ans : scan_answer) (w : world),
    Album.initialized (alb w) = true ->
    nothing_to_show ans ->
    let w' := snd (photo_album_start E ans w) in
    fst (photo_album_start E ans w) = ESP_ERR_NOT_FOUND
    /\ sl w' = sl w /\ vid w' = vid w /\ trace w' = trace w
    /\ Album.pause_reason (alb w') = Album.pause_reason (alb w)
    /\ Album.initialized (alb w') = true.
Proof.
  intros E ans w Hi Hn. unfold photo_album_start. rewrite Hi. cbn [negb].
  destruct ans as [|ret found]; simpl.
  - repeat split; auto.
  - simpl in Hn.
    destruct (is_ok ret) eqn:Hok; simpl.
    + apply is_ok_true in Hok. destruct Hn as [Hn|Hn]; [contradiction|].
      subst found. simpl. repeat split; auto.
    + repeat split; auto.
Qed.

Lemma start_without_media_reports_not_found_witness :
  fst (photo_album_start Scenario.E_spec NotMounted (Scenario.loaded []))
  = ESP_ERR_NOT_FOUND.
Proof.
  pose proof (start_without_media_reports_not_found Scenario.E_spec NotMounted
                (Scenario.loaded []) eq_refl I) as H.
  destruct H as (H & _). exact H.
Defined.



(** ** Event dispatcher *)

(** X18: Opening the settings panel stops the slideshow; closing it with a
    new interval stores that interval in the album and in the slideshow
    controller and starts the slideshow again with one full new period
    ahead, whatever the pause reason is; cancelling starts it with the
    old interval. *)
Theorem settings_panel_round_trip :
  forall (E : env) (selected t : Z) (w : world),
    Slideshow.consistent (sl w) ->
    selected <> Album.interval_ms (alb w) ->
    let w1 := ui_event_handler E UI_EVENT_LONG_PRESS w in
    let closed := ui_event_handler E UI_EVENT_SETTINGS_CLOSE (user_selects selected t w1) in
    let cancelled := ui_event_handler E UI_EVENT_SETTINGS_CANCEL (user_selects selected t w1) in
    Slideshow.phase_of (sl w1) = Some Slideshow.Stopped
    /\ trace w1 = ShowSettings (Album.interval_ms (alb w)) :: trace w
    /\ Album.interval_ms (alb closed) = selected
    /\ Slideshow.interval_ms (sl closed) = selected
    /\ Slideshow.timer (sl closed)
       = Some (Periodic (t + armed_period selected) (armed_period selected))
    /\ Slideshow.phase_of (sl closed) = Some Slideshow.Running
    /\ Album.pause_reason (alb closed) = Album.pause_reason (alb w)
    /\ Album.interval_ms (alb cancelled) = Album.interval_ms (alb w)
    /\ Slideshow.interval_ms (sl cancelled) = Slideshow.interval_ms (sl w)
    /\ Slideshow.timer (sl cancelled)
       = Some (Periodic (t + armed_period (Slideshow.interval_ms (sl w)))
                 (armed_period (Slideshow.interval_ms (sl w))))
    /\ Slideshow.phase_of (sl cancelled) = Some Slideshow.Running.
Proof.
  intros E selected t w Hc Hsel.
  assert (Hneq : (selected =? Album.interval_ms (alb w)) = false)
    by (apply Z.eqb_neq; exact Hsel).
  unfold ui_event_handler, user_selects, on_sl, Slideshow.consistent in *.
  destruct w as [s v a sel n tr]. simpl in *.
  slideshow_cases s; simpl in Hc; try (exfalso; apply Hc; reflexivity);
    simpl; rewrite Hneq; simpl; repeat split; reflexivity.
Qed.

Lemma settings_panel_round_trip_witness :
  Slideshow.timer
    (sl (ui_event_handler Scenario.E_spec UI_EVENT_SETTINGS_CLOSE
           (user_selects 2000 9000000
              (ui_event_handler Scenario.E_spec UI_EVENT_LONG_PRESS
                 Scenario.showing_A))))
  = Some (Periodic 11000000 2000000).
Proof.
  assert (Hc : Slideshow.consistent (sl Scenario.showing_A))
    by (vm_compute; discriminate).
  assert (Hs : 2000 <> Album.interval_ms (alb Scenario.showing_A))
    by (vm_compute; discriminate).
  pose proof (settings_panel_round_trip Scenario.E_spec 2000 9000000
                Scenario.showing_A Hc Hs) as H.
  destruct H as (_ & _ & _ & _ & H & _). exact H.
Defined.



(** X20: A swipe up or down while a video is on screen moves the stored
    volume by one step of 10 and stops at 100 and at 0; the overlay shows
    exactly the stored value.  On any other entry the swipe does
    nothing. *)
Theorem volume_swipe_moves_one_step_within_range :
  forall (E : env) (w : world),
    volume_in_range (vid w) ->
    let up := ui_event_handler E UI_EVENT_SWIPE_UP w in
    let down := ui_event_handler E UI_EVENT_SWIPE_DOWN w in
    (current_media_type w = MEDIA_TYPE_VIDEO ->
     video_player_get_volume up
     = Z.min (video_player_get_volume w + VOLUME_ADJUSTMENT_STEP) MAX_AUDIO_VOLUME
     /\ trace up = ShowVolume (video_player_get_volume up) :: trace w
     /\ video_player_get_volume down
        = Z.max (video_player_get_volume w - VOLUME_ADJUSTMENT_STEP) MIN_AUDIO_VOLUME
     /\ trace down = ShowVolume (video_player_get_volume down) :: trace w)
    /\ (current_media_type w <> MEDIA_TYPE_VIDEO -> up = w /\ down = w).
Proof.
  intros E w Hv. unfold volume_in_range in Hv.
  unfold ui_event_handler, video_player_get_volume, video_player_set_volume,
    VOLUME_ADJUSTMENT_STEP, MAX_AUDIO_VOLUME, MIN_AUDIO_VOLUME in *.
  cbv zeta. split.
  - intros Hm. rewrite Hm. cbn [media_type_eqb].
    cbn [vid set_vid emit trace Video.current_volume Video.set_current_volume].
    set (x := Video.current_volume (vid w)) in *. clearbody x.
    repeat (match goal with
            | |- context [?a <? ?b] =>
                lazymatch a with
                | context [if _ then _ else _] => fail
                | _ =>
                    lazymatch b with
                    | context [if _ then _ else _] => fail
                    | _ => destruct (Z.ltb_spec a b)
                    end
                end
            end; cbv iota);
      repeat split; first [lia | reflexivity | (f_equal; f_equal; lia)].
  - intros Hm.
    destruct (current_media_type w); try (split; reflexivity).
    contradiction Hm. reflexivity.
Qed.

Lemma volume_swipe_moves_one_step_within_range_witness :
  video_player_get_volume
    (ui_event_handler Scenario.E_spec UI_EVENT_SWIPE_UP Scenario.playing_C)
  = 60.
Proof.
  assert (Hv : volume_in_range (vid Scenario.playing_C))
    by (vm_compute; split; discriminate).
  pose proof (volume_swipe_moves_one_step_within_range Scenario.E_spec
                Scenario.playing_C Hv) as H.
  destruct H as (H & _). destruct (H eq_refl) as (H1 & _).
  rewrite H1. reflexivity.
Defined.
(** ** Media files: classification by extension *)

Ltac fold_case :=
  change (tolower "."%char) with "."%char in *;
  change (tolower "m"%char) with "m"%char in *;
  change (tolower "p"%char) with "p"%char in *;
  change (tolower "4"%char) with "4"%char in *;
  change (tolower "a"%char) with "a"%char in *;
  change (tolower "v"%char) with "v"%char in *;
  change (tolower "i"%char) with "i"%char in *;
  change (tolower "j"%char) with "j"%char in *;
  change (tolower "g"%char) with "g"%char in *;
  change (tolower "e"%char) with "e"%char in *;
  change (tolower "n"%char) with "n"%char in *.

Ltac split_chars :=
  repeat (match goal with
          | |- context [Ascii.eqb (tolower ?c) ?k] =>
              is_var c;
              let H := fresh "H" in
              destruct (Ascii.eqb_spec (tolower c) k) as [H|H];
              [rewrite H|]
          end;
          cbn [andb orb]).

Lemma strcasecmp_video_not_image (ext : string) :
  (strcasecmp_eq ext ".mp4" || strcasecmp_eq ext ".avi")
  && (strcasecmp_eq ext ".jpg" || strcasecmp_eq ext ".jpeg"
      || strcasecmp_eq ext ".png") = false.
Proof.
  destruct ext as [|c0 [|c1 [|c2 [|c3 [|c4 [|c5 e]]]]]];
    cbn [strcasecmp_eq]; fold_case; split_chars;
    repeat rewrite Bool.andb_false_r; try reflexivity;
    vm_compute; reflexivity.
Qed.

(** X21: The scanner's filter and the navigator's classifier agree on every
    name: a file is supported media exactly when its media type is
    known, and a supported image exactly when its type is IMAGE; no
    extension is both a video and an image extension. *)
Theorem scanner_filter_agrees_with_classifier :
  forall (name : string),
    file_manager_is_supported_media name
    = negb (media_type_eqb (file_manager_get_media_type name) MEDIA_TYPE_UNKNOWN)
    /\ file_manager_is_supported_image name
       = media_type_eqb (file_manager_get_media_type name) MEDIA_TYPE_IMAGE.
Proof.
  intros name.
  unfold file_manager_is_supported_media, file_manager_is_supported_image,
    file_manager_get_media_type.
  destruct (strrchr_dot name) as [ext|]; [|split; reflexivity].
  destruct (strcasecmp_eq ext ".mp4" || strcasecmp_eq ext ".avi") eqn:Hv.
  - pose proof (strcasecmp_video_not_image ext) as Hd. rewrite Hv in Hd.
    cbn [andb] in Hd. rewrite Hd. split; reflexivity.
  - destruct (strcasecmp_eq ext ".jpg" || strcasecmp_eq ext ".jpeg"
              || strcasecmp_eq ext ".png"); split; reflexivity.
Qed.

Lemma tolower_idempotent (c : ascii) : tolower (tolower c) = tolower c.
Proof.
  destruct c as [[] [] [] [] [] [] [] []]; vm_compute; reflexivity.
Qed.

Lemma tolower_dot (c : ascii) :
  Ascii.eqb (tolower c) "."%char = Ascii.eqb c "."%char.
Proof.
  destruct c as [[] [] [] [] [] [] [] []]; vm_compute; reflexivity.
Qed.

Lemma strrchr_dot_lowercase (s : string) :
  strrchr_dot (lowercase s) = option_map lowercase (strrchr_dot s).
Proof.
  induction s as [|c rest IH]; [reflexivity|].
  cbn [lowercase strrchr_dot]. rewrite IH.
  destruct (strrchr_dot rest); cbn [option_map]; [reflexivity|].
  rewrite tolower_dot. destruct (Ascii.eqb c "."); reflexivity.
Qed.

Lemma strcasecmp_eq_lowercase (a b : string) :
  strcasecmp_eq (lowercase a) b = strcasecmp_eq a b.
Proof.
  revert b. induction a as [|x a IH]; intros [|y b]; try reflexivity.
  cbn [lowercase strcasecmp_eq]. rewrite tolower_idempotent, IH. reflexivity.
Qed.

(** X22: The media type of a file does not depend on the case of its name:
    [photo.JPG], [Photo.Jpg] and [photo.jpg] are classified alike. *)
Theorem media_type_ignores_case :
  forall (name : string),
    file_manager_get_media_type (lowercase name)
    = file_manager_get_media_type name.
Proof.
  intros name. unfold file_manager_get_media_type.
  rewrite strrchr_dot_lowercase.
  destruct (strrchr_dot name) as [ext|]; cbn [option_map]; [|reflexivity].
  rewrite !strcasecmp_eq_lowercase. reflexivity.
Qed.

Lemma strrchr_dot_app (prefix name : string) :
  strrchr_dot name <> None ->
  strrchr_dot (prefix ++ name) = strrchr_dot name.
Proof.
  intros H. induction prefix as [|c rest IH]; [reflexivity|].
  cbn [append strrchr_dot]. rewrite IH.
  destruct (strrchr_dot name); [reflexivity|contradiction H; reflexivity].
Qed.

(** ** Scanner: what is stored in the collection *)

Lemma validate_file_for_decoding_bounds (info : image_file_info_t) :
  validate_file_for_decoding info = true
  <-> 100 <= file_size info <= 10 * 1024 * 1024.
Proof.
  unfold validate_file_for_decoding.
  destruct (Z.ltb_spec (10 * 1024 * 1024) (file_size info));
    destruct (Z.ltb_spec (file_size info) 100); split; intros; try discriminate;
    try reflexivity; lia.
Qed.

Lemma validate_image_file_size (p : file_probe) (format : image_format_t)
      (file_size : Z) :
  validate_image_file p format file_size = true ->
  100 <= file_size <= 10 * 1024 * 1024.
Proof.
  unfold validate_image_file.
  destruct (Z.ltb_spec file_size 100); [discriminate|].
  destruct (Z.ltb_spec (10 * 1024 * 1024) file_size); [discriminate|].
  intros _. lia.
Qed.

Lemma dimension_checks (width height : Z) :
  0 <= width -> 0 <= height ->
  (width =? 0) || (height =? 0) || (8192 <? width) || (8192 <? height) = false ->
  (PRACTICAL_DECODE_BUFFER_LIMIT <? width * height * 2) = false ->
  within_pixel_budget width height = true ->
  1 <= width <= 8192 /\ 1 <= height <= 8192
  /\ width * height * 2 <= PRACTICAL_DECODE_BUFFER_LIMIT
  /\ (width <= MAX_DECODE_WIDTH /\ height <= MAX_DECODE_HEIGHT
      \/ width * height <= MAX_DECODE_WIDTH * MAX_DECODE_HEIGHT).
Proof.
  intros Hw Hh Hd Hb Hp.
  repeat (apply Bool.orb_false_elim in Hd; destruct Hd as [Hd ?]).
  apply Z.eqb_neq in Hd.
  repeat match goal with
         | H : (_ =? _) = false |- _ => apply Z.eqb_neq in H
         | H : (_ <? _) = false |- _ => apply Z.ltb_ge in H
         end.
  unfold within_pixel_budget in Hp.
  repeat split; try lia.
  destruct ((MAX_DECODE_WIDTH <? width) || (MAX_DECODE_HEIGHT <? height)) eqn:Hbig.
  - right. apply Bool.negb_true_iff in Hp. apply Z.ltb_ge in Hp. exact Hp.
  - left. apply Bool.orb_false_elim in Hbig. destruct Hbig as [Hb1 Hb2].
    apply Z.ltb_ge in Hb1, Hb2. split; assumption.
Qed.

(** X23: An image the scanner's validation lets through is one the decoder
    can take: its size passes the navigator's own size check, its
    dimensions are between 1 and 8192, its RGB565 picture fits the 4 MiB
    decode buffer, it is within 1920 x 1080 or within that many pixels,
    and a JPEG has the JPEG start marker, a header the engine parses and
    dimensions that are multiples of 8. *)
Theorem validated_image_fits_decoder :
  forall (p : file_probe) (format : image_format_t) (file_size : Z)
         (name path : string),
    probe_well_formed p ->
    format <> IMAGE_FORMAT_UNKNOWN ->
    validate_image_file p format file_size = true ->
    let '(width, height) := checked_dimensions p format in
    validate_file_for_decoding (mk_info name path file_size) = true
    /\ 1 <= width <= 8192 /\ 1 <= height <= 8192
    /\ width * height * 2 <= PRACTICAL_DECODE_BUFFER_LIMIT
    /\ (width <= MAX_DECODE_WIDTH /\ height <= MAX_DECODE_HEIGHT
        \/ width * height <= MAX_DECODE_WIDTH * MAX_DECODE_HEIGHT)
    /\ (format = IMAGE_FORMAT_JPEG ->
        jpeg_magic p = true /\ fst (jpeg_header p) = ESP_OK
        /\ width mod JPEG_ALIGNMENT = 0 /\ height mod JPEG_ALIGNMENT = 0).
Proof.
  intros p format file_size name path [Hw Hh] Hfmt Hv.
  pose proof (validate_image_file_size p format file_size Hv) as Hsize.
  assert (Hrun : validate_file_for_decoding (mk_info name path file_size) = true)
    by (apply validate_file_for_decoding_bounds; exact Hsize).
  unfold validate_image_file in Hv.
  destruct (file_size <? 100); [discriminate|].
  destruct (10 * 1024 * 1024 <? file_size); [discriminate|].
  destruct (negb (open_ok p)); [discriminate|].
  destruct (bytes_read p <? 16); [discriminate|].
  destruct format; [| |contradiction Hfmt; reflexivity]; cbv zeta in Hv.
  - (* JPEG *)
    unfold checked_dimensions.
    destruct (jpeg_magic p) eqn:Hmagic; [|discriminate].
    destruct (jpeg_header p) as [ret [width height]]. simpl in Hw, Hh.
    cbn [snd fst].
    destruct (is_ok ret) eqn:Hok; [|discriminate]. cbn [negb] in Hv.
    destruct ((width =? 0) || (height =? 0) || (8192 <? width) || (8192 <? height))
      eqn:Hd; [discriminate|].
    destruct (negb (width mod JPEG_ALIGNMENT =? 0)
              || negb (height mod JPEG_ALIGNMENT =? 0)) eqn:Ha; [discriminate|].
    destruct (PRACTICAL_DECODE_BUFFER_LIMIT <? width * height * 2) eqn:Hb;
      [discriminate|].
    destruct (dimension_checks width height (proj1 Hw) (proj1 Hh) Hd Hb Hv)
      as (H1 & H2 & H3 & H4).
    apply Bool.orb_false_elim in Ha. destruct Ha as [Ha1 Ha2].
    apply Bool.negb_false_iff in Ha1, Ha2. apply Z.eqb_eq in Ha1, Ha2.
    apply is_ok_true in Hok.
    repeat split; try assumption; try lia; tauto.
  - (* PNG *)
    unfold checked_dimensions.
    destruct (png_magic p); [|discriminate].
    destruct (bytes_read p <? 33); [discriminate|].
    destruct ((be32 p 16 =? 0) || (be32 p 20 =? 0) || (8192 <? be32 p 16)
              || (8192 <? be32 p 20)) eqn:Hd; [discriminate|].
    destruct (PRACTICAL_DECODE_BUFFER_LIMIT <? be32 p 16 * be32 p 20 * 2) eqn:Hb;
      [discriminate|].
    assert (H16 : 0 <= be32 p 16) by (unfold be32, u32; apply Z.mod_pos_bound; lia).
    assert (H20 : 0 <= be32 p 20) by (unfold be32, u32; apply Z.mod_pos_bound; lia).
    destruct (dimension_checks _ _ H16 H20 Hd Hb Hv) as (H1 & H2 & H3 & H4).
    repeat split; try assumption; try lia; try tauto; discriminate.
Qed.

Lemma validated_image_fits_decoder_witness :
  validate_image_file jpeg_1080p_probe IMAGE_FORMAT_JPEG 500000 = true
  /\ validate_file_for_decoding (mk_info "A.jpg" "/sdcard/photos/A.jpg" 500000)
     = true.
Proof.
  assert (Hw : probe_well_formed jpeg_1080p_probe)
    by (unfold probe_well_formed; simpl; lia).
  assert (Hf : IMAGE_FORMAT_JPEG <> IMAGE_FORMAT_UNKNOWN) by discriminate.
  assert (Hv : validate_image_file jpeg_1080p_probe IMAGE_FORMAT_JPEG 500000 = true)
    by (vm_compute; reflexivity).
  pose proof (validated_image_fits_decoder jpeg_1080p_probe IMAGE_FORMAT_JPEG
                500000 "A.jpg" "/sdcard/photos/A.jpg" Hw Hf Hv) as H.
  simpl in H. destruct H as (H & _).
  split; [exact Hv|exact H].
Defined.

Lemma media_type_via_suffix (prefix name : string) :
  strrchr_dot name <> None ->
  file_manager_get_media_type (prefix ++ name)
  = file_manager_get_media_type name.
Proof.
  intros H. unfold file_manager_get_media_type.
  rewrite (strrchr_dot_app prefix name H). reflexivity.
Qed.

Lemma substring_whole (s : string) (n : nat) :
  (String.length s <= n)%nat -> substring 0 n s = s.
Proof.
  revert n. induction s as [|c rest IH]; intros n Hn.
  - destruct n; reflexivity.
  - destruct n as [|n]; [simpl in Hn; lia|].
    simpl. rewrite IH; [reflexivity|simpl in Hn; lia].
Qed.

Lemma supported_media_has_extension (name : string) :
  file_manager_is_supported_media name = true ->
  strrchr_dot name <> None
  /\ file_manager_get_media_type name <> MEDIA_TYPE_UNKNOWN.
Proof.
  unfold file_manager_is_supported_media, file_manager_get_media_type.
  destruct (strrchr_dot name) as [ext|]; [|discriminate].
  intros H. split; [discriminate|].
  destruct (strcasecmp_eq ext ".mp4" || strcasecmp_eq ext ".avi"); [discriminate|].
  destruct (strcasecmp_eq ext ".jpg" || strcasecmp_eq ext ".jpeg"
            || strcasecmp_eq ext ".png"); [discriminate|discriminate].
Qed.

Lemma image_type_has_image_format (name : string) :
  file_manager_get_media_type name = MEDIA_TYPE_IMAGE ->
  format_of_name name <> IMAGE_FORMAT_UNKNOWN.
Proof.
  unfold file_manager_get_media_type, format_of_name.
  destruct (strrchr_dot name) as [ext|]; [|discriminate].
  destruct (strcasecmp_eq ext ".mp4" || strcasecmp_eq ext ".avi"); [discriminate|].
  destruct (strcasecmp_eq ext ".jpg" || strcasecmp_eq ext ".jpeg") eqn:Hj;
    [discriminate|].
  rewrite Bool.orb_false_l.
  destruct (strcasecmp_eq ext ".png"); discriminate.
Qed.

Lemma video_type_has_no_image_format (name : string) :
  file_manager_get_media_type name = MEDIA_TYPE_VIDEO ->
  format_of_name name = IMAGE_FORMAT_UNKNOWN.
Proof.
  unfold file_manager_get_media_type, format_of_name.
  destruct (strrchr_dot name) as [ext|]; [|discriminate].
  pose proof (strcasecmp_video_not_image ext) as Hd.
  destruct (strcasecmp_eq ext ".mp4" || strcasecmp_eq ext ".avi").
  - cbn [andb] in Hd. intros _.
    apply Bool.orb_false_elim in Hd. destruct Hd as [Hd1 Hd2].
    rewrite Hd1, Hd2. reflexivity.
  - destruct (strcasecmp_eq ext ".jpg" || strcasecmp_eq ext ".jpeg"
              || strcasecmp_eq ext ".png"); discriminate.
Qed.

(** X24: Every regular file the scan stores is one the navigator can
    classify: it is not hidden, the media type of its stored path is
    IMAGE or VIDEO, an image has passed the scanner's validation and
    therefore passes the navigator's size check, and a video is stored
    without any validation of its size or content.  This holds when the
    path fits the 255 characters of the name field. *)
Theorem scan_stores_only_classifiable_entries :
  forall (dir d_name : string) (p : file_probe) (file_size : Z),
    (String.length (dir ++ "/" ++ d_name) <= 255)%nat ->
    scan_accepts d_name p file_size = true ->
    let entry := scanned_entry dir d_name file_size in
    is_hidden d_name = false
    /\ file_manager_get_media_type (full_path entry) <> MEDIA_TYPE_UNKNOWN
    /\ (file_manager_get_media_type (full_path entry) = MEDIA_TYPE_IMAGE ->
        validate_image_file p (format_of_name d_name) file_size = true
        /\ validate_file_for_decoding entry = true)
    /\ (file_manager_get_media_type (full_path entry) = MEDIA_TYPE_VIDEO ->
        forall p' size', scan_accepts d_name p' size' = true).
Proof.
  intros dir d_name p file_size Hlen Hacc.
  unfold scan_accepts in Hacc.
  destruct (is_hidden d_name) eqn:Hhid; [discriminate|].
  destruct (file_manager_is_supported_media d_name) eqn:Hsup; [|discriminate].
  cbn [negb] in Hacc.
  destruct (supported_media_has_extension d_name Hsup) as [Hext Hknown].
  assert (Hpath : file_manager_get_media_type
                    (full_path (scanned_entry dir d_name file_size))
                  = file_manager_get_media_type d_name).
  { unfold scanned_entry. cbn [full_path].
    rewrite (substring_whole _ 255 Hlen).
    rewrite media_type_via_suffix; [|rewrite strrchr_dot_app; assumption].
    apply media_type_via_suffix. exact Hext. }
  cbv zeta. rewrite Hpath.
  split; [reflexivity|]. split; [exact Hknown|]. split.
  - intros Himg. pose proof (image_type_has_image_format d_name Himg) as Hfmt.
    assert (Hv : validate_image_file p (format_of_name d_name) file_size = true).
    { destruct (format_of_name d_name); try exact Hacc.
      contradiction Hfmt. reflexivity. }
    split; [exact Hv|].
    apply validate_file_for_decoding_bounds.
    exact (validate_image_file_size p _ file_size Hv).
  - intros Hvid p' size'. unfold scan_accepts.
    rewrite Hhid, Hsup. cbn [negb].
    rewrite (video_type_has_no_image_format d_name Hvid). reflexivity.
Qed.

Lemma scan_stores_only_classifiable_entries_witness :
  scan_accepts "A.jpg" jpeg_1080p_probe 500000 = true
  /\ file_manager_get_media_type
       (full_path (scanned_entry "/sdcard/photos" "A.jpg" 500000))
     <> MEDIA_TYPE_UNKNOWN.
Proof.
  assert (Hl : (String.length ("/sdcard/photos" ++ "/" ++ "A.jpg") <= 255)%nat)
    by (vm_compute; repeat constructor).
  assert (Ha : scan_accepts "A.jpg" jpeg_1080p_probe 500000 = true)
    by (vm_compute; reflexivity).
  pose proof (scan_stores_only_classifiable_entries "/sdcard/photos" "A.jpg"
                jpeg_1080p_probe 500000 Hl Ha) as H.
  destruct H as (_ & H & _).
  split; [exact Ha|exact H].
Defined.
(** ** Album navigator: rescans *)






(** ** Shared JPEG decoder *)

Lemma shared_jpeg_step (o : SharedJpeg.op) (g : SharedJpeg.t) (n : Z) :
  (0 <= SharedJpeg.reference_count g <= n
   /\ (SharedJpeg.initialized g = false -> SharedJpeg.reference_count g = 0)
   /\ (SharedJpeg.initialized g = true -> SharedJpeg.mutex g = true)) ->
  let g' := SharedJpeg.run_op o g in
  0 <= SharedJpeg.reference_count g' <= n + 1
  /\ (SharedJpeg.initialized g' = false -> SharedJpeg.reference_count g' = 0)
  /\ (SharedJpeg.initialized g' = true -> SharedJpeg.mutex g' = true).
Proof.
  intros (Hr & H0 & Hm).
  destruct g as [h m i c]. simpl in *.
  destruct o as [mc [ret eh]|rn tk|tk|tk]; simpl;
    unfold SharedJpeg.shared_jpeg_decoder_init,
      SharedJpeg.shared_jpeg_decoder_acquire,
      SharedJpeg.shared_jpeg_decoder_release,
      SharedJpeg.shared_jpeg_decoder_deinit; simpl.
  - destruct i; simpl; [repeat split; auto; lia|].
    destruct mc; simpl; [|repeat split; auto; try discriminate; lia].
    destruct (is_ok ret); simpl; repeat split; auto; try discriminate; lia.
  - destruct i; simpl; [|repeat split; auto; lia].
    destruct rn; simpl; [repeat split; auto; lia|].
    destruct tk; simpl; repeat split; auto; try discriminate; lia.
  - destruct i; simpl; [|repeat split; auto; lia].
    destruct tk; simpl; [|repeat split; auto; lia].
    destruct (Z.ltb_spec 0 c); simpl; repeat split; auto; try discriminate; lia.
  - destruct i; simpl; [|repeat split; auto; lia].
    destruct tk; simpl; repeat split; auto; try discriminate; lia.
Qed.

(** X26: From the zeroed static, after any sequence of init, acquire, release
    and deinit calls, whatever the mutex and the engine answer: the
    reference count is never negative and never above the number of
    calls made (so it cannot overflow in fewer than 2^31 calls), it is 0
    whenever the decoder is not initialised, and an initialised decoder
    has its mutex.  A release at count 0 is absorbed. *)
Theorem shared_decoder_reference_count_is_bounded :
  forall (ops : list SharedJpeg.op),
    let g := SharedJpeg.run_ops ops SharedJpeg.zero in
    0 <= SharedJpeg.reference_count g <= Z.of_nat (List.length ops)
    /\ (SharedJpeg.initialized g = false -> SharedJpeg.reference_count g = 0)
    /\ (SharedJpeg.initialized g = true -> SharedJpeg.mutex g = true).
Proof.
  intros ops. unfold SharedJpeg.run_ops.
  induction ops as [|o rest IH] using rev_ind.
  - simpl. repeat split; auto; try lia; discriminate.
  - rewrite fold_left_app. cbn [fold_left].
    rewrite length_app. cbn [List.length].
    replace (Z.of_nat (List.length rest + 1)) with (Z.of_nat (List.length rest) + 1)
      by lia.
    apply shared_jpeg_step. exact IH.
Qed.

(** ** Fitting a decoded image to the screen *)

(** X27: In the image pipeline the processor is only called for an image that
    is wider or higher than the screen, and for such an image the mode is
    never CENTER: a landscape or square image is cropped, a portrait
    image is fitted. *)
Theorem oversized_image_is_cropped_or_fitted :
  forall (E : env) (width height : Z),
    image_needs_processing E width height = true ->
    select_scale_mode E width height
    = if height <=? width then SCALE_MODE_CROP_ONLY else SCALE_MODE_FIT.
Proof.
  intros E width height H.
  unfold image_needs_processing in H. unfold select_scale_mode.
  assert (Hfit : (width <=? SCREEN_WIDTH E) && (height <=? SCREEN_HEIGHT E) = false).
  { apply Bool.orb_true_iff in H. apply Bool.andb_false_iff.
    destruct H as [H|H]; apply Z.ltb_lt in H; [left|right]; apply Z.leb_gt; exact H. }
  rewrite Hfit. reflexivity.
Qed.

Lemma oversized_image_is_cropped_or_fitted_witness :
  select_scale_mode Scenario.E_spec 1920 1080 = SCALE_MODE_CROP_ONLY.
Proof.
  apply (oversized_image_is_cropped_or_fitted Scenario.E_spec 1920 1080).
  reflexivity.
Defined.

(** X28: The crop window of CROP_ONLY has the size of the screen and is
    centred: along each axis it lies inside the source exactly when the
    source is at least as large as the screen there, and then the two
    margins differ by at most one pixel.  A landscape image that is wider
    but lower than the screen therefore gets a window that is higher than
    the image itself. *)
Theorem crop_only_window_is_centred :
  forall (src_width src_height dst_width dst_height : Z),
    0 <= src_width -> 0 <= src_height -> 0 <= dst_width -> 0 <= dst_height ->
    let p := calculate_params_crop_only src_width src_height dst_width dst_height in
    crop_width p = dst_width /\ crop_height p = dst_height
    /\ 0 <= crop_offset_x p /\ 0 <= crop_offset_y p
    /\ (crop_offset_x p + crop_width p <= src_width <-> dst_width <= src_width)
    /\ (crop_offset_y p + crop_height p <= src_height <-> dst_height <= src_height)
    /\ (dst_width <= src_width ->
        0 <= (src_width - (crop_offset_x p + crop_width p)) - crop_offset_x p <= 1)
    /\ (dst_height <= src_height ->
        0 <= (src_height - (crop_offset_y p + crop_height p)) - crop_offset_y p <= 1).
Proof.
  intros sw sh dw dh Hsw Hsh Hdw Hdh.
  unfold calculate_params_crop_only. cbn.
  destruct (Z.ltb_spec dw sw) as [Hx|Hx]; destruct (Z.ltb_spec dh sh) as [Hy|Hy].
  all: try pose proof (Z.div_mod (sw - dw) 2 ltac:(lia)) as Dx.
  all: try pose proof (Z.mod_pos_bound (sw - dw) 2 ltac:(lia)) as Mx.
  all: try pose proof (Z.div_mod (sh - dh) 2 ltac:(lia)) as Dy.
  all: try pose proof (Z.mod_pos_bound (sh - dh) 2 ltac:(lia)) as My.
  all: repeat split; intros; try lia.
Qed.

Lemma crop_only_window_is_centred_witness :
  crop_offset_x (calculate_params_crop_only 1920 1080 1024 600)
  + crop_width (calculate_params_crop_only 1920 1080 1024 600) <= 1920.
Proof.
  assert (H0 : 0 <= 1920) by lia.
  assert (H1 : 0 <= 1080) by lia.
  assert (H2 : 0 <= 1024) by lia.
  assert (H3 : 0 <= 600) by lia.
  pose proof (crop_only_window_is_centred 1920 1080 1024 600 H0 H1 H2 H3) as H.
  destruct H as (_ & _ & _ & _ & H & _).
  apply H. lia.
Defined.
(** ** USB connection manager *)

Lemma current_info_type (w : world) :
  Album.initialized (alb w) = true ->
  match photo_album_get_current_info w with
  | Some current_info => file_manager_get_media_type (full_path current_info)
  | None => MEDIA_TYPE_UNKNOWN
  end = current_media_type w.
Proof.
  intros Hi. unfold photo_album_get_current_info, current_media_type.
  rewrite Hi. cbn [negb].
  destruct (Album.collection (alb w)) as [c|]; [|reflexivity].
  destruct (Z.ltb_spec (current_index c) 0); destruct (Z.leb_spec 0 (current_index c));
    try lia; cbn [orb andb]; [reflexivity|].
  destruct (Z.leb_spec (total_count c) (current_index c));
    destruct (Z.ltb_spec (current_index c) (total_count c)); try lia; reflexivity.
Qed.

Lemma slideshow_stop_keeps_interval (s : Slideshow.t) :
  Slideshow.interval_ms (snd (Slideshow.slideshow_ctrl_stop s))
  = Slideshow.interval_ms s.
Proof.
  unfold Slideshow.slideshow_ctrl_stop. destruct (Slideshow.is_running s); reflexivity.
Qed.

Lemma photo_album_pause_for_usb_spec (w : world) :
  Album.initialized (alb w) = true ->
  Slideshow.consistent (sl w) ->
  let w1 := snd (photo_album_pause_for_usb w) in
  Slideshow.phase_of (sl w1) = Some Slideshow.Stopped
  /\ Slideshow.interval_ms (sl w1) = Slideshow.interval_ms (sl w)
  /\ alb w1 = Album.set_pause_reason PAUSE_REASON_USB (alb w)
  /\ vid w1 = vid w /\ trace w1 = trace w /\ now w1 = now w.
Proof.
  intros Hi Hc. unfold photo_album_pause_for_usb. rewrite Hi. cbn [negb]. cbv zeta.
  unfold on_sl.
  change (sl (set_alb (Album.set_pause_reason PAUSE_REASON_USB (alb w)) w)) with (sl w).
  destruct (slideshow_stop_phase (sl w) Hc) as [_ Hp].
  pose proof (slideshow_stop_keeps_interval (sl w)) as Hiv.
  destruct (Slideshow.slideshow_ctrl_stop (sl w)) as [r s1].
  cbn in *. repeat split; assumption.
Qed.


Lemma load_and_display_image_ok :
  forall (E : env) (fs : list image_file_info_t) (index : Z) (w : world),
    album_over fs w ->
    0 <= index < Z.of_nat (List.length fs) ->
    image_loads E (nth (Z.to_nat index) fs no_file) ->
    Slideshow.is_running (sl w) = true ->
    let w' := snd (load_and_display_image E index w) in
    fst (load_and_display_image E index w) = ESP_OK
    /\ sl w' = sl w /\ vid w' = vid w /\ now w' = now w
    /\ Album.pause_reason (alb w') = Album.pause_reason (alb w)
    /\ current_index (the_collection w') = index
    /\ In (DisplayImage (full_path (nth (Z.to_nat index) fs no_file))) (trace w').
Proof.
  intros E fs index w Hw Hidx (_ & Hval & Hload & Hdec & Hproc & Hdisp) Hrun.
  pose proof Hw as (Hi & j & Hc & Hj).
  unfold load_and_display_image.
  change (Album.collection (alb (emit (LoadImage index) w)))
    with (Album.collection (alb w)).
  rewrite Hc.
  assert (Hrange : (index <? 0) || (total_count (mk_collection fs j) <=? index) = false).
  { apply Bool.orb_false_iff. split; [apply Z.ltb_ge; lia|].
    apply Z.leb_gt. unfold total_count. simpl. lia. }
  rewrite Hrange.
  change (file_at (mk_collection fs j) index) with (nth (Z.to_nat index) fs no_file).
  set (info := nth (Z.to_nat index) fs no_file) in *.
  rewrite Hval. cbn [negb]. cbv zeta.
  rewrite Hload. cbn [is_ok esp_err_eqb negb].
  destruct (image_decoder_decode E (full_path info)) as [r2 [width height]].
  cbn [fst] in Hdec. subst r2. cbn [is_ok esp_err_eqb negb].
  assert (Hp : is_ok (if image_needs_processing E width height
                      then process_image_for_display E (full_path info)
                      else ESP_OK) = true).
  { destruct (image_needs_processing E width height); [rewrite Hproc|]; reflexivity. }
  rewrite Hp. cbn [negb].
  rewrite Hdisp. cbn [is_ok esp_err_eqb negb].
  change (Slideshow.slideshow_ctrl_is_running
            (sl (emit (DisplayImage (full_path info))
                   (emit ShowLoading (emit (LoadImage index) w)))))
    with (Slideshow.is_running (sl w)).
  rewrite Hrun. cbn [negb andb fst snd].
  unfold set_current_index, the_collection. cbn. try rewrite Hc. cbn.
  repeat split; try reflexivity.
  right. right. left. reflexivity.
Qed.

Lemma video_player_stop_state (E : env) (v : Video.t) :
  Video.adapter v <> None ->
  Video.state (fst (snd (video_player_stop E v))) = VIDEO_STATE_STOPPED.
Proof.
  intros Ha. unfold video_player_stop.
  destruct (Video.adapter v) as [a|]; [|contradiction Ha; reflexivity].
  destruct (Video.state v) eqn:Hs; cbn [video_state_eqb negb]; try exact Hs.
  all: destruct (Adapter.app_stream_adapter_stop E a) as [r a'];
    cbn [fst snd];
    match goal with
    | |- Video.state (cancel_finish_timer ?x) = _ =>
        destruct (cancel_finish_timer_spec x) as (H & _); rewrite H; reflexivity
    end.
Qed.

Lemma stop_video_before_switch_spec (E : env) (w : world) :
  Video.adapter (vid w) <> None ->
  let w' := stop_video_before_switch E w in
  is_playing_or_paused (Video.state (vid w')) = false
  /\ sl w' = sl w /\ alb w' = alb w /\ now w' = now w.
Proof.
  intros Ha. unfold stop_video_before_switch, video_player_get_state.
  destruct (is_playing_or_paused (Video.state (vid w))) eqn:Hp.
  - match goal with
    | |- context [on_vid ?f ?x] =>
        destruct (on_vid_spec f x) as (_ & Hv & _ & (Hs & Hal & Hn & _))
    end.
    cbv zeta. rewrite Hv, Hs, Hal, Hn.
    change (vid (emit (SwitchMode UI_MODE_IMAGE) (emit ShowLoading w))) with (vid w).
    rewrite (video_player_stop_state E (vid w) Ha). repeat split; reflexivity.
  - cbv zeta. rewrite Hp. repeat split; reflexivity.
Qed.

Lemma photo_album_next_shows_image :
  forall (E : env) (fs : list image_file_info_t) (w : world),
    album_over fs w ->
    Slideshow.is_running (sl w) = true ->
    Video.adapter (vid w) <> None ->
    let next_index :=
      Z.rem (current_index (the_collection w) + 1) (Z.of_nat (List.length fs)) in
    image_loads E (nth (Z.to_nat next_index) fs no_file) ->
    let w' := snd (photo_album_next E w) in
    fst (photo_album_next E w) = ESP_OK
    /\ sl w' = sl w /\ now w' = now w
    /\ Album.pause_reason (alb w') = Album.pause_reason (alb w)
    /\ is_playing_or_paused (Video.state (vid w')) = false
    /\ current_index (the_collection w') = next_index
    /\ In (DisplayImage (full_path (nth (Z.to_nat next_index) fs no_file)))
          (trace w').
Proof.
  intros E fs w Hw Hrun Ha next_index Himg.
  pose proof Hw as (Hi & j & Hc & Hj).
  destruct (album_over_total fs w Hw) as (Htot & Hcur & Hpos).
  unfold photo_album_next, can_navigate. rewrite Hi, Hc.
  assert (Hn0 : (total_count (mk_collection fs j) =? 0) = false)
    by (apply Z.eqb_neq; unfold total_count; simpl; lia).
  rewrite Hn0. cbn [negb andb]. cbv zeta.
  destruct (stop_video_before_switch_spec E w Ha) as (Hnp & Hsl & Hal & Hnow).
  set (wv := stop_video_before_switch E w) in *.
  assert (Hwv : album_over fs wv)
    by (eapply album_over_alb; [exact Hal|exact Hw]).
  assert (Hcol : the_collection wv = mk_collection fs j)
    by (unfold the_collection; rewrite Hal, Hc; reflexivity).
  assert (Hcw : the_collection w = mk_collection fs j)
    by (unfold the_collection; rewrite Hc; reflexivity).
  rewrite Hcol. cbn [current_index].
  change (total_count (mk_collection fs j)) with (Z.of_nat (List.length fs)).
  unfold next_index in *. rewrite Hcw in *. cbn [current_index] in *.
  set (next := Z.rem (j + 1) (Z.of_nat (List.length fs))) in *.
  assert (Hnext : 0 <= next < Z.of_nat (List.length fs))
    by (apply Z.rem_bound_pos; lia).
  unfold load_and_display_media. rewrite Hal, Hc.
  change (total_count (mk_collection fs j)) with (Z.of_nat (List.length fs)).
  assert (Hrange : (next <? 0) || (Z.of_nat (List.length fs) <=? next) = false).
  { apply Bool.orb_false_iff. split; [apply Z.ltb_ge|apply Z.leb_gt]; lia. }
  rewrite Hrange. cbv zeta.
  unfold video_player_get_state. rewrite Hnp.
  destruct (Z.to_nat (Z.of_nat (List.length fs))) as [|k] eqn:Hk; [lia|].
  cbn [media_retry_loop].
  rewrite Hcol.
  change (file_at (mk_collection fs j) next) with (nth (Z.to_nat next) fs no_file).
  pose proof Himg as (Htype & _). rewrite Htype.
  assert (Hwe : album_over fs (emit (SwitchMode UI_MODE_IMAGE) wv))
    by (apply album_over_emit; exact Hwv).
  assert (Hre : Slideshow.is_running (sl (emit (SwitchMode UI_MODE_IMAGE) wv)) = true)
    by (cbn; rewrite Hsl; exact Hrun).
  destruct (load_and_display_image_ok E fs next (emit (SwitchMode UI_MODE_IMAGE) wv)
              Hwe Hnext Himg Hre) as (Hok & H1 & H2 & H3 & H4 & H5 & H6).
  destruct (load_and_display_image E next (emit (SwitchMode UI_MODE_IMAGE) wv))
    as [ret w'].
  cbn [fst snd] in *. subst ret. cbn [is_ok esp_err_eqb fst snd].
  rewrite H1, H2, H3, H4. cbn. rewrite Hsl, Hnow, Hal.
  repeat split; try reflexivity; assumption.
Qed.

Lemma video_player_pause_playing (v : Video.t) (a : Adapter.t) :
  Video.state v = VIDEO_STATE_PLAYING ->
  Video.adapter v = Some a ->
  Adapter.running a = true ->
  video_player_pause v
  = (ESP_OK,
     (Video.set_state VIDEO_STATE_PAUSED
        (Video.set_adapter
           (Some (Adapter.xEventGroupSetBits Adapter.EXTRACT_TASK_PAUSE_BIT a)) v),
      [])).
Proof.
  intros Hs Ha Hr. unfold video_player_pause. rewrite Hs, Ha.
  unfold Adapter.app_stream_adapter_pause. rewrite Hr. reflexivity.
Qed.

(** X30: A USB connection while a video plays pauses the video and holds the
    slideshow, but it leaves the video's completion timer armed.  When
    that timer expires during the hold, its callback starts the slideshow
    timer and moves on: with an image as next entry, the image is shown
    and the slideshow runs, while the pause reason is still USB. *)
Theorem usb_hold_during_video_ends_with_the_video :
  forall (E : env) (fs : list image_file_info_t) (d : Z) (w : world)
         (ans : scan_answer),
    album_over fs w ->
    video_on_screen w ->
    Slideshow.phase_of (sl w) = Some Slideshow.Stopped ->
    Video.finish_timer (vid w) = Some (Once d) ->
    let next_index :=
      Z.rem (current_index (the_collection w) + 1) (Z.of_nat (List.length fs)) in
    image_loads E (nth (Z.to_nat next_index) fs no_file) ->
    let connected := Usb.usb_status_changed_cb E ans Usb.USB_MSC_CONNECTED Usb.zero w in
    let u1 := fst connected in
    let w1 := snd connected in
    let w2 := expire E FinishTimer w1 in
    (Usb.usb_active u1 = true /\ Usb.video_was_playing u1 = true
     /\ Video.state (vid w1) = VIDEO_STATE_PAUSED
     /\ Video.finish_timer (vid w1) = Some (Once d)
     /\ Slideshow.phase_of (sl w1) = Some Slideshow.Stopped
     /\ Album.pause_reason (alb w1) = PAUSE_REASON_USB)
    /\ now w2 = Z.max (now w) d
    /\ Album.pause_reason (alb w2) = PAUSE_REASON_USB
    /\ Slideshow.phase_of (sl w2) = Some Slideshow.Running
    /\ is_playing_or_paused (Video.state (vid w2)) = false
    /\ current_index (the_collection w2) = next_index
    /\ In (DisplayImage (full_path (nth (Z.to_nat next_index) fs no_file)))
          (trace w2).
Proof.
  intros E fs d w ans Hw (Hm & Hs & a & Ha & Hra) Hp Hft next_index Himg.
  pose proof Hw as (Hi & j & Hc & Hj).
  assert (Hcons : Slideshow.consistent (sl w))
    by (unfold Slideshow.consistent; rewrite Hp; discriminate).
  (* the connection *)
  set (vp := Video.set_state VIDEO_STATE_PAUSED
               (Video.set_adapter
                  (Some (Adapter.xEventGroupSetBits Adapter.EXTRACT_TASK_PAUSE_BIT a))
                  (vid w))).
  set (we := emit (SwitchMode UI_MODE_IMAGE) (set_vid vp w)).
  assert (Hcon : Usb.usb_status_changed_cb E ans Usb.USB_MSC_CONNECTED Usb.zero w
                 = (Usb.mk true true true MEDIA_TYPE_VIDEO Usb.USB_UI_STATE_CONNECTED,
                    snd (photo_album_pause_for_usb we))).
  { unfold Usb.usb_status_changed_cb, Usb.on_connected.
    rewrite (current_info_type w Hi), Hm. cbn [media_type_eqb].
    unfold video_player_get_state. rewrite Hs.
    unfold on_vid. rewrite (video_player_pause_playing (vid w) a Hs Ha Hra).
    cbn [fst snd app]. unfold we, set_vid, emit. destruct w; reflexivity. }
  assert (Hie : Album.initialized (alb we) = true) by exact Hi.
  assert (Hce : Slideshow.consistent (sl we)) by exact Hcons.
  destruct (photo_album_pause_for_usb_spec we Hie Hce)
    as (Hp1 & Hiv1 & Ha1 & Hv1 & Ht1 & Hn1).
  cbv zeta. rewrite Hcon. cbn [fst snd].
  set (w1 := snd (photo_album_pause_for_usb we)) in *.
  assert (Hst1 : Video.state (vid w1) = VIDEO_STATE_PAUSED) by (rewrite Hv1; reflexivity).
  assert (Hft1 : Video.finish_timer (vid w1) = Some (Once d))
    by (rewrite Hv1; cbn; exact Hft).
  assert (Hr1 : Album.pause_reason (alb w1) = PAUSE_REASON_USB)
    by (rewrite Ha1; reflexivity).
  split.
  { repeat split; assumption. }
  (* the expiry of the completion timer *)
  unfold expire. cbn [handle_of]. rewrite Hft1. cbn [deadline_of].
  unfold fire. cbn [handle_of set_handle callback_of].
  set (wf := set_vid _ (set_now (Z.max (now w1) d) w1)).
  unfold video_finish_timer_cb. cbv zeta.
  assert (Hsf : Slideshow.consistent (sl wf))
    by (unfold Slideshow.consistent; cbn; rewrite Hp1; discriminate).
  destruct (slideshow_start_phase (now wf) (sl wf) Hsf) as (_ & Hrun & Hph).
  change (Slideshow.phase_of (sl wf)) with (Slideshow.phase_of (sl w1)) in Hph.
  rewrite Hp1 in Hph.
  set (ws := snd (on_sl (Slideshow.slideshow_ctrl_start (now wf)) wf)).
  assert (Hsl_ws : sl ws = snd (Slideshow.slideshow_ctrl_start (now wf) (sl wf))).
  { unfold ws, on_sl. destruct (Slideshow.slideshow_ctrl_start (now wf) (sl wf)).
    reflexivity. }
  destruct (on_sl_alb (Slideshow.slideshow_ctrl_start (now wf)) wf)
    as (Hal_ws & Hv_ws & Hn_ws).
  fold ws in Hal_ws, Hv_ws, Hn_ws.
  assert (Hover : album_over fs ws).
  { eapply album_over_collection; [| |exact Hw];
      rewrite Hal_ws; cbn; rewrite Ha1; reflexivity. }
  assert (Hrun_ws : Slideshow.is_running (sl ws) = true)
    by (rewrite Hsl_ws; exact Hrun).
  assert (Had : Video.adapter (vid ws) <> None)
    by (rewrite Hv_ws; cbn; rewrite Hv1; cbn; discriminate).
  assert (Hcol_ws : the_collection ws = the_collection w).
  { unfold the_collection. rewrite Hal_ws. cbn. rewrite Ha1. reflexivity. }
  assert (Himg' : image_loads E
                    (nth (Z.to_nat (Z.rem (current_index (the_collection ws) + 1)
                                      (Z.of_nat (List.length fs)))) fs no_file))
    by (rewrite Hcol_ws; exact Himg).
  destruct (photo_album_next_shows_image E fs ws Hover Hrun_ws Had Himg')
    as (_ & H1 & H2 & H3 & H4 & H5 & H6).
  rewrite Hcol_ws in H5, H6. fold next_index in H5, H6.
  split; [rewrite H2, Hn_ws; cbn; rewrite Hn1; reflexivity|].
  split; [rewrite H3, Hal_ws; cbn; exact Hr1|].
  split; [rewrite H1, Hsl_ws; exact Hph|].
  split; [exact H4|]. split; [exact H5|exact H6].
Qed.

Lemma usb_hold_during_video_ends_with_the_video_witness :
  video_on_screen Scenario.playing_C
  /\ Slideshow.phase_of
       (sl (expire Scenario.E_spec FinishTimer
              (snd (Usb.usb_status_changed_cb Scenario.E_spec NotMounted
                      Usb.USB_MSC_CONNECTED Usb.zero Scenario.playing_C))))
     = Some Slideshow.Running
  /\ Album.pause_reason
       (alb (expire Scenario.E_spec FinishTimer
               (snd (Usb.usb_status_changed_cb Scenario.E_spec NotMounted
                       Usb.USB_MSC_CONNECTED Usb.zero Scenario.playing_C))))
     = PAUSE_REASON_USB.
Proof.
  assert (Hw : album_over [Scenario.A_jpg; Scenario.B_jpg; Scenario.C_mp4]
                 Scenario.playing_C).
  { split; [reflexivity|]. exists 2. split; [vm_compute; reflexivity|simpl; lia]. }
  assert (Hv : video_on_screen Scenario.playing_C).
  { split; [vm_compute; reflexivity|]. split; [vm_compute; reflexivity|].
    eexists. split; [vm_compute; reflexivity|reflexivity]. }
  assert (Hp : Slideshow.phase_of (sl Scenario.playing_C) = Some Slideshow.Stopped)
    by (vm_compute; reflexivity).
  assert (Hf : Video.finish_timer (vid Scenario.playing_C) = Some (Once 3500000))
    by (vm_compute; reflexivity).
  assert (Hi : image_loads Scenario.E_spec
                 (nth (Z.to_nat
                         (Z.rem (current_index (the_collection Scenario.playing_C) + 1)
                            (Z.of_nat (List.length
                               [Scenario.A_jpg; Scenario.B_jpg; Scenario.C_mp4]))))
                    [Scenario.A_jpg; Scenario.B_jpg; Scenario.C_mp4] no_file)).
  { repeat split; vm_compute; reflexivity. }
  pose proof (usb_hold_during_video_ends_with_the_video Scenario.E_spec
                [Scenario.A_jpg; Scenario.B_jpg; Scenario.C_mp4] 3500000
                Scenario.playing_C NotMounted Hw Hv Hp Hf Hi) as H.
  cbv zeta in H. destruct H as (_ & _ & Hr & Hs & _).
  split; [exact Hv|]. split; [exact Hs|exact Hr].
Defined.
